(** * BlockStore: a write cache for partitioned block files

    A shallow embedding of the Go package [blockstore] (the cache in front of
    the database that holds block files and their fixed-size parts), together
    with the properties of its public operations.

    Conventions of the embedding.
    - [int64] values are integers in [Z]; every addition, subtraction and
      multiplication of the source is wrapped to 64 bits ([Int64.add] and
      friends).  Go's [int] is taken to be 64 bits wide, so the conversions
      [int(x)] and [int64(x)] are the identity.
    - [/] and [%] truncate toward zero ([Z.quot], [Z.rem]) and panic on a zero
      divisor.
    - A run-time panic (division by zero, index out of range, nil
      dereference, assignment into a nil map) is an [outcome] of its own; an
      [error] is an ordinary returned value.
    - The store is single threaded here: the mutex is not modelled, and a
      pointer to a cache entry is the key under which the entry is stored.
    - [time.Now().UnixMilli()] reads the field [clock] of the world. *)

From stdpp Require Import gmap strings list fin_maps.
From Stdlib Require Import ZArith Lia.
From Stdlib.Strings Require Import Byte.

Open Scope Z_scope.

(** ** 64-bit integers *)

Module Int64.

Definition min_int : Z := - 2 ^ 63.
Definition max_int : Z := 2 ^ 63 - 1.

Definition in_range (z : Z) : Prop := min_int <= z <= max_int.

Definition wrap (z : Z) : Z := (z + 2 ^ 63) mod 2 ^ 64 - 2 ^ 63.

Definition add (a b : Z) : Z := wrap (a + b).
Definition sub (a b : Z) : Z := wrap (a - b).
Definition mul (a b : Z) : Z := wrap (a * b).

End Int64.

(** ** Outcomes of a Go computation *)

Inductive panic : Set :=
| DivideByZero
| IndexOutOfRange
| SliceBounds
| NilDereference
| NilMapAssign.

Inductive outcome (A : Type) : Type :=
| Ret (a : A)
| Panic (p : panic)
| OutOfFuel.

Arguments Ret {A} a.
Arguments Panic {A} p.
Arguments OutOfFuel {A}.

#[export] Instance outcome_ret : MRet outcome := @Ret.
#[export] Instance outcome_bind : MBind outcome := fun A B f m =>
  match m with
  | Ret a => f a
  | Panic p => Panic p
  | OutOfFuel => OutOfFuel
  end.

(** [a / b] and [a % b] on int64.  The quotient wraps in the one case
    [min_int / -1]. *)
Definition go_div (a b : Z) : outcome Z :=
  if b =? 0 then Panic DivideByZero else Ret (Int64.wrap (Z.quot a b)).

Definition go_mod (a b : Z) : outcome Z :=
  if b =? 0 then Panic DivideByZero else Ret (Z.rem a b).

Definition minInt64 (a b : Z) : Z := if a <? b then a else b.

(** [l[i]] on a slice. *)
Definition sliceIndex {A} (l : list A) (i : Z) : outcome A :=
  if i <? 0 then Panic IndexOutOfRange
  else match l !! Z.to_nat i with
       | Some x => Ret x
       | None => Panic IndexOutOfRange
       end.

(** [l[lo:hi]] on a slice whose capacity is its length. *)
Definition sliceRange {A} (l : list A) (lo hi : Z) : outcome (list A) :=
  if (0 <=? lo) && (lo <=? hi) && (hi <=? Z.of_nat (length l))
  then Ret (take (Z.to_nat (hi - lo)) (drop (Z.to_nat lo) l))
  else Panic SliceBounds.

(** [l[lo:]] *)
Definition sliceFrom {A} (l : list A) (lo : Z) : outcome (list A) :=
  sliceRange l lo (Z.of_nat (length l)).

(** ** Errors *)

(** [fmt.Errorf(msg)] and [fmt.Errorf(prefix ++ ": %v", err)]. *)
Inductive error : Type :=
| ErrMsg (msg : string)
| ErrWrap (prefix : string) (cause : error).

(** Modelled from the spec: the taxonomy of error kinds (section 7), which the
    source expresses only through its messages.  Validation covers bad
    options, a negative offset and an offset past the end. *)
Inductive errKind : Set := Validation | State | Backend.

Definition kindOf (e : error) : errKind :=
  match e with
  | ErrMsg msg =>
      if bool_decide (msg ∈ ["max size must be non-negative";
                             "circular file must have a max size";
                             "circular file cannot be ijson";
                             "offset must be non-negative";
                             "offset is past the end of the file"]%string)
      then Validation else State
  | ErrWrap _ _ => Backend
  end.

(** ** Data model *)

Definition DefaultPartDataSize : Z := 64 * 1024.
Definition NoPartIdx : Z := -1.

Record FileOptsType : Type := mkFileOpts {
  MaxSize : Z;
  Circular : bool;
  IJson : bool
}.

(** A value of type [any] stored in a file's meta; [ANil] is [nil]. *)
Inductive any : Type :=
| ANil
| ABool (b : bool)
| AInt (n : Z)
| AStr (s : string).

Definition isNil (v : any) : bool :=
  match v with ANil => true | _ => false end.

(** [map[string]any]; [None] is the nil map. *)
Abbreviation FileMeta := (option (gmap string any)).

Record BlockFile : Type := mkBlockFile {
  BlockId : string;
  Name : string;
  Opts : FileOptsType;
  CreatedTs : Z;
  Size : Z;
  ModTs : Z;
  Meta : FileMeta
}.

Definition metaLookup (m : FileMeta) (k : string) : option any :=
  match m with
  | None => None
  | Some g => g !! k
  end.

Definition copyMeta (meta : FileMeta) : FileMeta :=
  match meta with
  | None => Some ∅
  | Some g => Some g
  end.

Definition DeepCopy (f : option BlockFile) : option BlockFile :=
  match f with
  | None => None
  | Some f =>
      Some {| BlockId := BlockId f; Name := Name f; Opts := Opts f;
              CreatedTs := CreatedTs f; Size := Size f; ModTs := ModTs f;
              Meta := copyMeta (Meta f) |}
  end.

Definition setSize (f : BlockFile) (sz : Z) : BlockFile :=
  {| BlockId := BlockId f; Name := Name f; Opts := Opts f;
     CreatedTs := CreatedTs f; Size := sz; ModTs := ModTs f; Meta := Meta f |}.

Definition setModTs (f : BlockFile) (ts : Z) : BlockFile :=
  {| BlockId := BlockId f; Name := Name f; Opts := Opts f;
     CreatedTs := CreatedTs f; Size := Size f; ModTs := ts; Meta := Meta f |}.

Definition setMeta (f : BlockFile) (m : FileMeta) : BlockFile :=
  {| BlockId := BlockId f; Name := Name f; Opts := Opts f;
     CreatedTs := CreatedTs f; Size := Size f; ModTs := ModTs f; Meta := m |}.

(** ** Cache data model

    The types [cacheKey], [DataCacheEntry], [FileCacheEntry],
    [WriteIntention], [CacheEntry] and [BlockStore] of the cache half of the
    package (the Go text at the end of
    [src/frontend/app/store/wshrpcutil.ts]); section 3 of the spec describes
    them.  The atomic flags [Dirty] and [Flushing] are booleans here. *)

(** [cacheKey{BlockId, Name}] *)
Abbreviation cacheKey := (string * string)%type.

(** One part of a file's payload.  The buffer is created with capacity
    [partDataSize]; [Data] is the slice up to its length. *)
Record DataCacheEntry : Type := mkDataCacheEntry {
  Dirty : bool;
  Flushing : bool;
  PartIdx : Z;
  Data : list byte
}.

Record FileCacheEntry : Type := mkFileCacheEntry {
  FileDirty : bool;
  FileFlushing : bool;
  File : BlockFile
}.

(** [WriteIntention{Parts: ...}], [WriteIntention{Append: true}],
    [WriteIntention{Replace: true}]. *)
Record WriteIntention : Type := mkWriteIntention {
  Parts : option (gmap Z Z);
  Append : bool;
  Replace : bool
}.

Record CacheEntry : Type := mkCacheEntry {
  EntryBlockId : string;
  EntryName : string;
  WriteIntentions : gmap Z WriteIntention;
  Deleted : bool;
  PinCount : Z;
  FileEntry : option FileCacheEntry;
  DataEntries : list (option DataCacheEntry)
}.

Record BlockStore : Type := mkBlockStore {
  Cache : gmap cacheKey CacheEntry;
  NextIntentionId : Z
}.

Definition makeCacheEntry (blockId name : string) : CacheEntry :=
  {| EntryBlockId := blockId; EntryName := name; WriteIntentions := ∅;
     Deleted := false; PinCount := 0; FileEntry := None; DataEntries := [] |}.

Definition makeDataCacheEntry (partIdx : Z) : DataCacheEntry :=
  {| Dirty := false; Flushing := false; PartIdx := partIdx; Data := [] |}.

Definition setDeleted (e : CacheEntry) (b : bool) : CacheEntry :=
  {| EntryBlockId := EntryBlockId e; EntryName := EntryName e;
     WriteIntentions := WriteIntentions e; Deleted := b;
     PinCount := PinCount e; FileEntry := FileEntry e;
     DataEntries := DataEntries e |}.

Definition setPinCount (e : CacheEntry) (n : Z) : CacheEntry :=
  {| EntryBlockId := EntryBlockId e; EntryName := EntryName e;
     WriteIntentions := WriteIntentions e; Deleted := Deleted e;
     PinCount := n; FileEntry := FileEntry e;
     DataEntries := DataEntries e |}.

Definition setWriteIntentions (e : CacheEntry) (wi : gmap Z WriteIntention)
  : CacheEntry :=
  {| EntryBlockId := EntryBlockId e; EntryName := EntryName e;
     WriteIntentions := wi; Deleted := Deleted e;
     PinCount := PinCount e; FileEntry := FileEntry e;
     DataEntries := DataEntries e |}.

Definition setFileEntry (e : CacheEntry) (fe : option FileCacheEntry)
  : CacheEntry :=
  {| EntryBlockId := EntryBlockId e; EntryName := EntryName e;
     WriteIntentions := WriteIntentions e; Deleted := Deleted e;
     PinCount := PinCount e; FileEntry := fe;
     DataEntries := DataEntries e |}.

Definition setDataEntries (e : CacheEntry) (des : list (option DataCacheEntry))
  : CacheEntry :=
  {| EntryBlockId := EntryBlockId e; EntryName := EntryName e;
     WriteIntentions := WriteIntentions e; Deleted := Deleted e;
     PinCount := PinCount e; FileEntry := FileEntry e;
     DataEntries := des |}.

(** ** The backing store

    Modelled from the spec: the database operations ([dbInsertFile],
    [dbDeleteFile], [dbGetBlockFileNames], [dbGetBlockFile], [dbGetFileParts])
    live in a file that is not part of the sources at hand.  Section 6 of the
    spec gives their contract; the store is kept abstract.  A query is a
    function of the store's state, an update also yields the next state, and
    each may fail with an error. *)
Class BackingStore (D : Type) : Type := {
  dbInsertFile : BlockFile -> D -> option error * D;
  dbDeleteFile : string -> string -> D -> option error * D;
  dbGetBlockFileNames : string -> D -> list string * option error;
  dbGetBlockFile : string -> string -> D -> option BlockFile * option error;
  dbGetFileParts :
    string -> string -> list Z -> D -> gmap Z DataCacheEntry * option error
}.

(** ** The world: cache, backing store and clock *)

Record World (D : Type) : Type := mkWorld {
  store : BlockStore;
  db : D;
  clock : Z
}.

Arguments mkWorld {D} _ _ _.
Arguments store {D} _.
Arguments db {D} _.
Arguments clock {D} _.

Definition M (D A : Type) : Type := World D -> outcome (A * World D).

#[export] Instance M_ret {D} : MRet (M D) := fun A a w => Ret (a, w).
#[export] Instance M_bind {D} : MBind (M D) := fun A B f m w =>
  match m w with
  | Ret (a, w') => f a w'
  | Panic p => Panic p
  | OutOfFuel => OutOfFuel
  end.

Definition liftO {D A} (o : outcome A) : M D A := fun w =>
  match o with
  | Ret a => Ret (a, w)
  | Panic p => Panic p
  | OutOfFuel => OutOfFuel
  end.

Definition getStore {D} : M D BlockStore := fun w => Ret (store w, w).

Definition putStore {D} (s : BlockStore) : M D unit := fun w =>
  Ret (tt, mkWorld s (db w) (clock w)).

Definition getEntry {D} (key : cacheKey) : M D (option CacheEntry) := fun w =>
  Ret (Cache (store w) !! key, w).

(** [s.Cache[key] = entry], and every assignment through the pointer
    [entry]. *)
Definition putEntry {D} (key : cacheKey) (e : CacheEntry) : M D unit := fun w =>
  Ret (tt, mkWorld (mkBlockStore (<[key := e]> (Cache (store w)))
                                 (NextIntentionId (store w)))
                   (db w) (clock w)).

(** [delete(s.Cache, key)] *)
Definition deleteEntry {D} (key : cacheKey) : M D unit := fun w =>
  Ret (tt, mkWorld (mkBlockStore (delete key (Cache (store w)))
                                 (NextIntentionId (store w)))
                   (db w) (clock w)).

(** [time.Now().UnixMilli()] *)
Definition timeNow {D} : M D Z := fun w => Ret (clock w, w).

Definition dbQuery {D A} (q : D -> A) : M D A := fun w => Ret (q (db w), w).

Definition dbUpdate {D A} (u : D -> A * D) : M D A := fun w =>
  let '(a, d) := u (db w) in Ret (a, mkWorld (store w) d (clock w)).

(** Run [body] on every element of a slice, in order. *)
Fixpoint forEach {D A} (l : list A) (body : A -> M D unit) : M D unit :=
  match l with
  | [] => mret tt
  | x :: l' => body x;; forEach l' body
  end.

Definition maxOfIntArr (arr : list Z) : Z :=
  match arr with
  | [] => 0
  | v0 :: rest => foldl (fun max v => if max <? v then v else max) v0 rest
  end.

(** [make([]byte, n)] *)
Definition makeBytes (n : Z) : outcome (list byte) :=
  if n <? 0 then Panic SliceBounds else Ret (replicate (Z.to_nat n) x00).

(** The array behind a part buffer: [Data] followed by the bytes up to the
    capacity [cap], which were never written and are zero. *)
Definition backingArray (cap : Z) (d : DataCacheEntry) : list byte :=
  Data d ++ replicate (Z.to_nat cap - length (Data d))%nat x00.

(** ** Part buffers and the write into an entry

    The methods of [*DataCacheEntry] and of [*CacheEntry] that write, from
    the Go text at the end of [src/frontend/app/store/wshrpcutil.ts]
    ([package blockstore]); section 4.4 and section 4.6 of the spec describe
    them.  [partDataSize] is the package variable. *)

(** [copy(dst, src)]: the first [min (len dst) (len src)] bytes of [dst] are
    overwritten. *)
Definition copyBytes (dst src : list byte) : list byte :=
  take (length dst) src ++ drop (length src) dst.

(** The methods of [*DataCacheEntry]. *)
Module Part.

Section WithPartSize.

Variable partDataSize : Z.

Definition clonePart (dce : DataCacheEntry) : DataCacheEntry :=
  let rtn := makeDataCacheEntry (PartIdx dce) in
  let rtn := {| Dirty := Dirty rtn; Flushing := Flushing rtn;
                PartIdx := PartIdx rtn;
                Data := copyBytes (Data rtn) (Data dce) |} in
  if Dirty dce
  then {| Dirty := true; Flushing := Flushing rtn; PartIdx := PartIdx rtn;
          Data := Data rtn |}
  else rtn.

(** Returns the number of bytes written and the part written to (a clone
    when the part was flushing).  The buffer has capacity [partDataSize];
    the bytes between its length and its capacity are zero. *)
Definition writeToPart (offset : Z) (data : list byte) (dce : DataCacheEntry)
  : outcome (Z * DataCacheEntry) :=
  let dce := if Flushing dce then clonePart dce else dce in
  let leftInPart := Int64.sub partDataSize offset in
  let toWrite := Z.of_nat (length data) in
  let toWrite := if leftInPart <? toWrite then leftInPart else toWrite in
  buf ← (if Z.of_nat (length (Data dce)) <? Int64.add offset toWrite
         then sliceRange (backingArray partDataSize dce) 0
                (Int64.add offset toWrite)
         else Ret (Data dce));
  dst ← sliceFrom buf offset;
  src ← sliceRange data 0 toWrite;
  Ret (toWrite,
       {| Dirty := true; Flushing := Flushing dce; PartIdx := PartIdx dce;
          Data := take (Z.to_nat offset) buf ++ copyBytes dst src |}).

End WithPartSize.

End Part.

(** The methods of [*CacheEntry] that write.  [ensurePart] returns the slot
    it indexes, with the entry as it leaves it; [writeAt] reads the file
    options in every round of its loop. *)
Module Entry.

Section WithPartSize.

Variable partDataSize : Z.

Definition ensurePart (partIdx : Z) (create : bool) (e : CacheEntry)
  : outcome (option DataCacheEntry * CacheEntry) :=
  let des := DataEntries e in
  let des := des ++ replicate (Z.to_nat (partIdx + 1) - length des)%nat None in
  des ← (if create then
           slot ← sliceIndex des partIdx;
           match slot with
           | None =>
               Ret (<[Z.to_nat partIdx := Some (makeDataCacheEntry partIdx)]>
                      des)
           | Some _ => Ret des
           end
         else Ret des);
  rtn ← sliceIndex des partIdx;
  Ret (rtn, setDataEntries e des).

(** One round per part touched; every round writes at least one byte. *)
Fixpoint writeAtLoop (n : nat) (offset : Z) (data : list byte)
    (entry : CacheEntry) : outcome CacheEntry :=
  match data with
  | [] => Ret entry
  | _ :: _ =>
      match n with
      | O => OutOfFuel
      | S n' =>
          partIdx ← go_div offset partDataSize;
          match FileEntry entry with
          | None => Panic NilDereference
          | Some fe =>
              partIdx ← (if Circular (Opts (File fe)) then
                           maxPart ← go_div (MaxSize (Opts (File fe)))
                                       partDataSize;
                           go_mod partIdx maxPart
                         else Ret partIdx);
              partOffset ← go_mod offset partDataSize;
              '(partData, entry) ← ensurePart partIdx true entry;
              match partData with
              | None => Panic NilDereference
              | Some dce =>
                  '(nw, newDce) ← Part.writeToPart partDataSize partOffset
                                    data dce;
                  _ ← sliceIndex (DataEntries entry) partIdx;
                  data ← sliceFrom data nw;
                  writeAtLoop n' (Int64.add offset nw) data
                    (setDataEntries entry
                       (<[Z.to_nat partIdx := Some newDce]>
                          (DataEntries entry)))
              end
          end
      end
  end.

Definition writeAt (offset : Z) (data : list byte) (replace : bool)
    (entry : CacheEntry) : outcome CacheEntry :=
  let entry := if replace then setDataEntries entry [] else entry in
  writeAtLoop (length data) offset data entry.

End WithPartSize.

End Entry.

(** ** The operations *)

Section Operations.

Context {D : Type} `{!BackingStore D}.

(** [partDataSize] is a package variable ([DefaultPartDataSize] unless a test
    overrides it). *)
Variable partDataSize : Z.

(** A bound on the number of rounds of the two counting [for] loops
    ([computePartMap] and the list of parts [ReadAt] needs), whose counter
    can wrap around. *)
Variable fuel : nat.

(** *** Partition arithmetic *)

Definition partIdxAtOffset (f : BlockFile) (offset : Z) : outcome Z :=
  partIdx ← go_div offset partDataSize;
  if Circular (Opts f) then
    maxPart ← go_div (MaxSize (Opts f)) partDataSize;
    go_mod partIdx maxPart
  else Ret partIdx.

Definition getLastIncompletePartNum (f : BlockFile) : outcome Z :=
  r ← go_mod (Size f) partDataSize;
  if r =? 0 then Ret NoPartIdx else partIdxAtOffset f (Size f).

(** The part that holds byte [b], in the words of the spec: [floor (b /
    PartSize)], folded modulo [maxSize / PartSize] for a circular file. *)
Definition partContaining (f : BlockFile) (b : Z) : Z :=
  if Circular (Opts f)
  then (b `div` partDataSize) `mod` (MaxSize (Opts f) `div` partDataSize)
  else b `div` partDataSize.

Fixpoint computePartMapLoop (n : nat) (file : BlockFile)
    (startOffset endOffset testOffset : Z) (partMap : gmap Z Z)
  : outcome (gmap Z Z) :=
  if testOffset <? endOffset then
    match n with
    | O => OutOfFuel
    | S n' =>
        partIdx ← partIdxAtOffset file testOffset;
        let partStartOffset := testOffset in
        let partEndOffset := Int64.add testOffset partDataSize in
        let partWriteStartOffset :=
          if (partStartOffset <? startOffset) && (startOffset <? partEndOffset)
          then Int64.sub startOffset partStartOffset else 0 in
        let partWriteEndOffset :=
          if (partStartOffset <? endOffset) && (endOffset <? partEndOffset)
          then Int64.sub endOffset partStartOffset else partDataSize in
        computePartMapLoop n' file startOffset endOffset
          (Int64.add testOffset partDataSize)
          (<[partIdx := Int64.sub partWriteEndOffset partWriteStartOffset]>
             partMap)
    end
  else Ret partMap.

Definition computePartMap (file : BlockFile) (startOffset size : Z)
  : outcome (gmap Z Z) :=
  let endOffset := Int64.add startOffset size in
  r ← go_mod startOffset partDataSize;
  let startBlockOffset := Int64.sub startOffset r in
  computePartMapLoop fuel file startOffset endOffset startBlockOffset ∅.

(** The order in which Go ranges over a map is unspecified; the order of
    [map_to_list] stands for it. *)
Definition incompletePartsFromMap (partMap : gmap Z Z) : list Z :=
  (filter (fun kv => kv.2 ≠ partDataSize) (map_to_list partMap)).*1.

(** *** Locking, pins and intentions

    [withLock], [withLockExists], [pinCacheEntry], [unpinCacheEntry],
    [setWriteIntention], [clearWriteIntention] and [getFileFromCache] of the
    cache half of the package; sections 4.1, 4.2 and 4.6 of the spec describe
    them.  A callback receives the entry and assigns through [putEntry]. *)

Definition withLock {R} (blockId name : string) (shouldCreate : bool)
    (f : option CacheEntry -> M D R) : M D R :=
  entry ← getEntry (blockId, name);
  match entry with
  | Some e => f (Some e)
  | None =>
      if shouldCreate then
        putEntry (blockId, name) (makeCacheEntry blockId name);;
        f (Some (makeCacheEntry blockId name))
      else f None
  end.

(** [r0] holds the variables the callback captures, as they are before the
    call; the callback returns them with its error. *)
Definition withLockExists {R} (blockId name : string) (r0 : R)
    (f : CacheEntry -> M D (R * option error)) : M D (R * option error) :=
  entry ← getEntry (blockId, name);
  match entry with
  | None => mret (r0, Some (ErrMsg "file not found"))
  | Some e =>
      if Deleted e then mret (r0, Some (ErrMsg "file not found"))
      else match FileEntry e with
           | None => mret (r0, Some (ErrMsg "file not found"))
           | Some _ => f e
           end
  end.

Definition pinCacheEntry (blockId name : string) : M D unit :=
  withLock blockId name true (fun entry =>
    match entry with
    | None => mret tt
    | Some e =>
        putEntry (blockId, name) (setPinCount e (Int64.add (PinCount e) 1))
    end).

Definition unpinCacheEntry (blockId name : string) : M D unit :=
  entry ← getEntry (blockId, name);
  match entry with
  | None => mret tt
  | Some e =>
      putEntry (blockId, name) (setPinCount e (Int64.sub (PinCount e) 1))
  end.

Definition setWriteIntention (blockId name : string)
    (intention : WriteIntention) : M D Z :=
  s ← getStore;
  match Cache s !! (blockId, name) with
  | None => mret 0
  | Some e =>
      let intentionId := NextIntentionId s in
      putStore (mkBlockStore
                  (<[(blockId, name) :=
                       setWriteIntentions e
                         (<[intentionId := intention]> (WriteIntentions e))]>
                     (Cache s))
                  (Int64.add intentionId 1));;
      mret intentionId
  end.

Definition clearWriteIntention (blockId name : string) (intentionId : Z)
  : M D unit :=
  entry ← getEntry (blockId, name);
  match entry with
  | None => mret tt
  | Some e =>
      putEntry (blockId, name)
        (setWriteIntentions e (delete intentionId (WriteIntentions e)))
  end.

(** A hit returns a deep copy of the cached descriptor; a deleted entry is a
    hit on no file; an entry without file buffer is a miss. *)
Definition getFileFromCache (blockId name : string)
  : M D (option BlockFile * bool) :=
  entry ← getEntry (blockId, name);
  match entry with
  | None => mret (None, false)
  | Some e =>
      if Deleted e then mret (None, true)
      else match FileEntry e with
           | None => mret (None, false)
           | Some fe => mret (DeepCopy (Some (File fe)), true)
           end
  end.

(** *** Copy-on-write buffers

    [modifyFileData] of the cache half of the package; section 4.4 of the
    spec describes it. *)

(** If the file buffer is flushing, clone it with fresh flags and replace the
    slot; mutate; set dirty. *)
Definition modifyFileData (fn : BlockFile -> outcome BlockFile)
    (entry : CacheEntry) : outcome CacheEntry :=
  match FileEntry entry with
  | None => Panic NilDereference
  | Some fe =>
      fe1 ← (if FileFlushing fe then
               match DeepCopy (Some (File fe)) with
               | Some c => Ret (mkFileCacheEntry false false c)
               | None => Panic NilDereference
               end
             else Ret fe);
      file' ← fn (File fe1);
      Ret (setFileEntry entry
             (Some (mkFileCacheEntry true (FileFlushing fe1) file')))
  end.

(** *** File lifecycle *)

(** The rounding of [opts.MaxSize] in [MakeFile]. *)
Definition roundMaxSize (opts : FileOptsType) : outcome FileOptsType :=
  if Circular opts then
    r ← go_mod (MaxSize opts) partDataSize;
    if negb (r =? 0) then
      q ← go_div (MaxSize opts) partDataSize;
      Ret (mkFileOpts (Int64.mul (Int64.add q 1) partDataSize)
                      (Circular opts) (IJson opts))
    else Ret opts
  else Ret opts.

(** The callback of [MakeFile]; its result is [cacheErr]. *)
Definition makeFileCheck (blockId name : string) (entry : option CacheEntry)
  : M D (option error) :=
  match entry with
  | None => mret None
  | Some e =>
      if negb (Deleted e) then mret (Some (ErrMsg "file exists"))
      else if (PinCount e =? 0)
              && bool_decide (size (WriteIntentions e) = 0%nat) then
        deleteEntry (blockId, name);; mret None
      else mret (Some (ErrMsg "file is deleted but has active requests"))
  end.

Definition MakeFile (blockId name : string) (meta : FileMeta)
    (opts : FileOptsType) : M D (option error) :=
  if MaxSize opts <? 0 then
    mret (Some (ErrMsg "max size must be non-negative"))
  else if Circular opts && (MaxSize opts <=? 0) then
    mret (Some (ErrMsg "circular file must have a max size"))
  else if Circular opts && IJson opts then
    mret (Some (ErrMsg "circular file cannot be ijson"))
  else
    opts ← liftO (roundMaxSize opts);
    cacheErr ← withLock blockId name false (makeFileCheck blockId name);
    match cacheErr with
    | Some e => mret (Some e)
    | None =>
        now ← timeNow;
        let file := {| BlockId := blockId; Name := name; Size := 0;
                       CreatedTs := now; ModTs := now; Opts := opts;
                       Meta := meta |} in
        dbUpdate (dbInsertFile file)
    end.

Definition DeleteFile (blockId name : string) : M D (option error) :=
  err ← dbUpdate (dbDeleteFile blockId name);
  match err with
  | Some e => mret (Some (ErrWrap "error deleting file" e))
  | None =>
      withLock blockId name false (fun entry =>
        match entry with
        | None => mret tt
        | Some e =>
            if (0 <? PinCount e)
               || negb (bool_decide (size (WriteIntentions e) = 0%nat)) then
              putEntry (blockId, name) (setDeleted e true)
            else deleteEntry (blockId, name)
        end);;
      mret None
  end.

Definition DeleteBlock (blockId : string) : M D (option error) :=
  '(fileNames, err) ← dbQuery (dbGetBlockFileNames blockId);
  match err with
  | Some e => mret (Some (ErrWrap "error getting block files" e))
  | None =>
      forEach fileNames (fun name => DeleteFile blockId name;; mret tt);;
      mret None
  end.

Definition Stat (blockId name : string)
  : M D (option BlockFile * option error) :=
  '(file, ok) ← getFileFromCache blockId name;
  if (ok : bool) then mret (file, None)
  else dbQuery (dbGetBlockFile blockId name).

(** *** Loading *)

Definition loadFileInfo (blockId name : string)
  : M D (option BlockFile * option error) :=
  '(file, ok) ← getFileFromCache blockId name;
  if (ok : bool) then
    match file with
    | None => mret (None, Some (ErrMsg "file not found"))
    | Some f => mret (Some f, None)
    end
  else
    '(dbFile, err) ← dbQuery (dbGetBlockFile blockId name);
    match err with
    | Some e => mret (None, Some (ErrWrap "error getting file" e))
    | None =>
        match dbFile with
        | None => mret (None, Some (ErrMsg "file not found"))
        | Some dbf =>
            withLock blockId name true (fun entry =>
              match entry with
              | None => liftO (Panic NilDereference)
              | Some e =>
                  if Deleted e then
                    mret (None, Some (ErrMsg "file is deleted"))
                  else
                    match FileEntry e with
                    | Some fe => mret (DeepCopy (Some (File fe)), None)
                    | None =>
                        match DeepCopy (Some dbf) with
                        | None => liftO (Panic NilDereference)
                        | Some c =>
                            putEntry (blockId, name)
                              (setFileEntry e
                                 (Some (mkFileCacheEntry false false c)));;
                            mret (Some dbf, None)
                        end
                    end
              end)
        end
    end.

Definition loadDataParts (blockId name : string) (parts : list Z)
  : M D (option error) :=
  '(partDataMap, err) ← dbQuery (dbGetFileParts blockId name parts);
  match err with
  | Some e => mret (Some (ErrWrap "error getting file part" e))
  | None =>
      let maxPart := maxOfIntArr parts in
      r ← withLockExists blockId name tt (fun entry =>
        r ← liftO (Entry.ensurePart maxPart false entry);
        entry2 ← liftO
          (map_fold (fun partIdx partData acc =>
             e ← acc;
             slot ← sliceIndex (DataEntries e) partIdx;
             match slot with
             | Some _ => Ret e
             | None =>
                 Ret (setDataEntries e
                        (<[Z.to_nat partIdx := Some partData]> (DataEntries e)))
             end) (Ret r.2) partDataMap);
        putEntry (blockId, name) entry2;;
        mret (tt, None));
      mret r.2
  end.

Definition loadLastDataBlock (blockId name : string) : M D (option error) :=
  '(partIdx, err) ← withLockExists blockId name 0 (fun entry =>
    match FileEntry entry with
    | None => liftO (Panic NilDereference)
    | Some fe =>
        partIdx ← liftO (getLastIncompletePartNum (File fe));
        mret (partIdx, None)
    end);
  match err with
  | Some e => mret (Some e)
  | None =>
      if partIdx =? NoPartIdx then mret None
      else loadDataParts blockId name [partIdx]
  end.

(** *** Writing *)

Definition mergeMeta (meta fileMeta : FileMeta) : outcome FileMeta :=
  match meta with
  | None => Ret fileMeta
  | Some given =>
      map_fold (fun k v acc =>
        m ← acc;
        if isNil v then
          (* [delete] on a nil map does nothing *)
          Ret (match m with None => None | Some fm => Some (delete k fm) end)
        else
          match m with
          | None => Panic NilMapAssign
          | Some fm => Ret (Some (<[k := v]> fm))
          end) (Ret fileMeta) given
  end.

Definition WriteMeta (blockId name : string) (meta : FileMeta) (merge : bool)
  : M D (option error) :=
  pinCacheEntry blockId name;;
  rtn ← ('(file, err) ← loadFileInfo blockId name;
         match err with
         | Some e => mret (Some (ErrWrap "error loading file info" e))
         | None =>
             r ← withLockExists blockId name tt (fun entry =>
               entry' ← liftO (modifyFileData (fun file =>
                 if merge then
                   m ← mergeMeta meta (Meta file);
                   Ret (setMeta file m)
                 else Ret (setMeta file meta)) entry);
               putEntry (blockId, name) entry';;
               mret (tt, None));
             mret r.2
         end);
  unpinCacheEntry blockId name;;
  mret rtn.

Definition writeAtToCache (now : Z) (offset : Z) (data : list byte)
    (replace : bool) (entry : CacheEntry) : outcome CacheEntry :=
  let endWrite := Int64.add offset (Z.of_nat (length data)) in
  entry1 ← Entry.writeAt partDataSize offset data replace entry;
  modifyFileData (fun file =>
    Ret (setModTs
           (if (Size file <? endWrite) || replace
            then setSize file endWrite else file)
           now)) entry1.

(** The callback shared by the three writers: write under the lock and store
    the entry back. *)
Definition writeUnderLock (blockId name : string) (offset : Z)
    (data : list byte) (replace : bool) (entry : CacheEntry)
  : M D (unit * option error) :=
  now ← timeNow;
  entry' ← liftO (writeAtToCache now offset data replace entry);
  putEntry (blockId, name) entry';;
  mret (tt, None).

Definition appendDataToCache (blockId name : string) (data : list byte)
  : M D (option error) :=
  r ← withLockExists blockId name tt (fun entry =>
    match FileEntry entry with
    | None => liftO (Panic NilDereference)
    | Some fe =>
        writeUnderLock blockId name (Size (File fe)) data false entry
    end);
  mret r.2.

Definition AppendData (blockId name : string) (data : list byte)
  : M D (option error) :=
  pinCacheEntry blockId name;;
  intentionId ← setWriteIntention blockId name (mkWriteIntention None true false);
  rtn ← ('(file, err) ← loadFileInfo blockId name;
         match err with
         | Some e => mret (Some (ErrWrap "error loading file info" e))
         | None =>
             err ← loadLastDataBlock blockId name;
             match err with
             | Some e => mret (Some (ErrWrap "error loading last data block" e))
             | None =>
                 err ← appendDataToCache blockId name data;
                 match err with
                 | Some e => mret (Some (ErrWrap "error appending data" e))
                 | None => mret None
                 end
             end
         end);
  clearWriteIntention blockId name intentionId;;
  unpinCacheEntry blockId name;;
  mret rtn.

Definition WriteFile (blockId name : string) (data : list byte)
  : M D (option error) :=
  pinCacheEntry blockId name;;
  intentionId ← setWriteIntention blockId name (mkWriteIntention None false true);
  rtn ← ('(file, err) ← loadFileInfo blockId name;
         match err with
         | Some e => mret (Some (ErrWrap "error loading file info" e))
         | None =>
             r ← withLockExists blockId name tt
                   (writeUnderLock blockId name 0 data true);
             mret r.2
         end);
  clearWriteIntention blockId name intentionId;;
  unpinCacheEntry blockId name;;
  mret rtn.

(** [WriteAt] from the computation of the part map on (the offset and the
    data are those left by the adjustment for circular files). *)
Definition writeAtParts (blockId name : string) (file : BlockFile)
    (offset : Z) (data : list byte) : M D (option error) :=
  partMap ← liftO (computePartMap file offset (Z.of_nat (length data)));
  intentionId ← setWriteIntention blockId name
                  (mkWriteIntention (Some partMap) false false);
  rtn ← (let incompleteParts := incompletePartsFromMap partMap in
         err ← loadDataParts blockId name incompleteParts;
         match err with
         | Some e => mret (Some (ErrWrap "error loading data parts" e))
         | None =>
             r ← withLockExists blockId name tt
                   (writeUnderLock blockId name offset data false);
             mret r.2
         end);
  clearWriteIntention blockId name intentionId;;
  mret rtn.

(** [WriteAt] between the deferred unpin and the end. *)
Definition writeAtPinned (blockId name : string) (offset : Z)
    (data : list byte) : M D (option error) :=
  '(file, err) ← loadFileInfo blockId name;
  match err with
  | Some e => mret (Some (ErrWrap "error loading file info" e))
  | None =>
      match file with
      | None => liftO (Panic NilDereference)
      | Some file =>
          if offset <? 0 then
            mret (Some (ErrMsg "offset must be non-negative"))
          else if Size file <? offset then
            mret (Some (ErrMsg "offset is past the end of the file"))
          else if Circular (Opts file) then
            let startCirFileOffset :=
              Int64.sub (Size file) (MaxSize (Opts file)) in
            if Int64.add offset (Z.of_nat (length data)) <? startCirFileOffset
            then
              (* write is before the start of the circular file *)
              mret None
            else if offset <? startCirFileOffset then
              let amtBeforeStart := Int64.sub startCirFileOffset offset in
              data' ← liftO (sliceFrom data amtBeforeStart);
              writeAtParts blockId name file
                (Int64.add offset amtBeforeStart) data'
            else writeAtParts blockId name file offset data
          else writeAtParts blockId name file offset data
      end
  end.

Definition WriteAt (blockId name : string) (offset : Z) (data : list byte)
  : M D (option error) :=
  pinCacheEntry blockId name;;
  rtn ← writeAtPinned blockId name offset data;
  unpinCacheEntry blockId name;;
  mret rtn.

(** *** Reading *)

(** The loop of [ReadAt] that lists the parts to fetch. *)
Fixpoint partsNeededLoop (n : nat) (file : BlockFile)
    (i endOffsetOfLastPart : Z) (partsNeeded : list Z) : outcome (list Z) :=
  if i <? endOffsetOfLastPart then
    match n with
    | O => OutOfFuel
    | S n' =>
        partIdx ← partIdxAtOffset file i;
        partsNeededLoop n' file (Int64.add i partDataSize) endOffsetOfLastPart
          (partsNeeded ++ [partIdx])
    end
  else Ret partsNeeded.

Definition readAtPartsNeeded (file : BlockFile) (offset size : Z)
  : outcome (list Z) :=
  lastPartOffset ← go_mod (Int64.add offset size) partDataSize;
  let endOffsetOfLastPart :=
    Int64.add (Int64.sub (Int64.add offset size) lastPartOffset) partDataSize in
  partsNeededLoop fuel file offset endOffsetOfLastPart [].

(** The callback of [ReadAt]: clamp [size] to the file, and lay the cached
    parts over those of the backing store. *)
Definition readAtReconcile (offset size : Z) (partsNeeded : list Z)
    (dataEntries : gmap Z DataCacheEntry) (entry : CacheEntry)
  : outcome (Z * gmap Z DataCacheEntry) :=
  match FileEntry entry with
  | None => Panic NilDereference
  | Some fe =>
      let size' :=
        if Size (File fe) <? Int64.add offset size
        then Int64.sub (Size (File fe)) offset else size in
      dataEntries' ←
        foldl (fun acc partIdx =>
                 de ← acc;
                 if Z.of_nat (length (DataEntries entry)) <=? partIdx
                 then Ret de
                 else
                   slot ← sliceIndex (DataEntries entry) partIdx;
                   match slot with
                   | None => Ret de
                   | Some d => Ret (<[partIdx := d]> de)
                   end)
              (Ret dataEntries) partsNeeded;
      Ret (size', dataEntries')
  end.

(** The loop of [ReadAt] that assembles the bytes.  Every round reads at
    least one byte, so [amtLeftToRead] rounds are enough. *)
Fixpoint readAtLoop (n : nat) (file : BlockFile)
    (dataEntries : gmap Z DataCacheEntry)
    (amtLeftToRead curReadOffset : Z) (rtn : list byte)
  : outcome (list byte) :=
  if 0 <? amtLeftToRead then
    match n with
    | O => OutOfFuel
    | S n' =>
        partIdx ← partIdxAtOffset file curReadOffset;
        partData ←
          match dataEntries !! partIdx with
          | None => makeBytes partDataSize
          | Some d => sliceRange (backingArray partDataSize d) 0 partDataSize
          end;
        partOffset ← go_mod curReadOffset partDataSize;
        let amtToRead :=
          minInt64 (Int64.sub partDataSize partOffset) amtLeftToRead in
        chunk ← sliceRange partData partOffset (Int64.add partOffset amtToRead);
        readAtLoop n' file dataEntries
          (Int64.sub amtLeftToRead amtToRead)
          (Int64.add curReadOffset amtToRead)
          (rtn ++ chunk)
    end
  else Ret rtn.

(** [ReadAt] between the deferred unpin and the end. *)
Definition readAtPinned (blockId name : string) (offset size : Z)
  : M D (Z * list byte * option error) :=
  '(file, err) ← Stat blockId name;
  match err with
  | Some e => mret (0, [], Some (ErrWrap "error getting file" e))
  | None =>
      match file with
      | None => liftO (Panic NilDereference)
      | Some file =>
          let offset :=
            if Circular (Opts file) && (MaxSize (Opts file) <? size)
            then Int64.add offset (Int64.sub size (MaxSize (Opts file)))
            else offset in
          partsNeeded ← liftO (readAtPartsNeeded file offset size);
          '(dataEntries, err) ←
            dbQuery (dbGetFileParts blockId name partsNeeded);
          match err with
          | Some e => mret (0, [], Some (ErrWrap "error loading data parts" e))
          | None =>
              '(sd, err) ← withLockExists blockId name (size, dataEntries)
                (fun entry =>
                   sd ← liftO (readAtReconcile offset size partsNeeded
                                 dataEntries entry);
                   mret (sd, None));
              match err with
              | Some e =>
                  mret (0, [], Some (ErrWrap "error reconciling cache entries" e))
              | None =>
                  rtn ← liftO (readAtLoop (Z.to_nat sd.1) file sd.2 sd.1
                                 offset []);
                  mret (offset, rtn, None)
              end
          end
      end
  end.

Definition ReadAt (blockId name : string) (offset size : Z)
  : M D (Z * list byte * option error) :=
  pinCacheEntry blockId name;;
  rtn ← readAtPinned blockId name offset size;
  unpinCacheEntry blockId name;;
  mret rtn.

Definition ReadFile (blockId name : string)
  : M D (Z * list byte * option error) :=
  '(file, err) ← Stat blockId name;
  match err with
  | Some e => mret (0, [], Some (ErrWrap "error getting file" e))
  | None =>
      match file with
      | None => mret (0, [], Some (ErrMsg "file not found"))
      | Some file => ReadAt blockId name 0 (Size file)
      end
  end.

(** *** Flushing *)

Definition dataEntryDirty (dataEntry : option DataCacheEntry) : bool :=
  match dataEntry with
  | Some d => Dirty d
  | None => false
  end.

Definition fileEntryDirty (entry : CacheEntry) : bool :=
  match FileEntry entry with
  | Some fe => FileDirty fe
  | None => false
  end.

(** The scan of [FlushCache]: the keys of the entries that hold a dirty
    buffer. *)
Definition dirtyCacheKeys (s : BlockStore) : list cacheKey :=
  map_fold (fun key entry keys =>
              if fileEntryDirty entry then keys ++ [key]
              else if existsb dataEntryDirty (DataEntries entry)
                   then keys ++ [key]
                   else keys)
           [] (Cache s).

Definition FlushCache : M D (option error) :=
  s ← getStore;
  let dirtyCacheKeys := dirtyCacheKeys s in
  mret None.

End Operations.

(** ** An in-memory backing store

    Modelled from the spec: the database itself is not part of the sources at
    hand.  This store follows the contract of section 6: it keeps file
    descriptors and parts by key, [dbGetFileParts] omits absent parts, and the
    two updates can be made to fail. *)

Record MemDB : Type := mkMemDB {
  files : gmap cacheKey BlockFile;
  parts : gmap cacheKey (gmap Z DataCacheEntry);
  insertFails : bool;
  deleteFails : bool
}.

#[export] Instance MemDB_store : BackingStore MemDB := {
  dbInsertFile f d :=
    if insertFails d then (Some (ErrMsg "insert failed"), d)
    else match files d !! (BlockId f, Name f) with
         | Some _ => (Some (ErrMsg "file already exists in the store"), d)
         | None =>
             (None, mkMemDB (<[(BlockId f, Name f) := f]> (files d)) (parts d)
                            (insertFails d) (deleteFails d))
         end;
  dbDeleteFile blockId name d :=
    if deleteFails d then (Some (ErrMsg "delete failed"), d)
    else (None, mkMemDB (delete (blockId, name) (files d))
                        (delete (blockId, name) (parts d))
                        (insertFails d) (deleteFails d));
  dbGetBlockFileNames blockId d :=
    ((filter (fun kv => kv.1.1 = blockId) (map_to_list (files d))).*1.*2, None);
  dbGetBlockFile blockId name d := (files d !! (blockId, name), None);
  dbGetFileParts blockId name idxs d :=
    (filter (fun kv => kv.1 ∈ idxs) (default ∅ (parts d !! (blockId, name))),
     None)
}.

Definition emptyStore : BlockStore := mkBlockStore ∅ 1.

Definition emptyDB : MemDB := mkMemDB ∅ ∅ false false.

Definition emptyWorld : World MemDB := mkWorld emptyStore emptyDB 1700000000000.

Definition bytesA (n : nat) : list byte := replicate n "A"%byte.

Definition cachedFile {D} (w : World D) (key : cacheKey) : option BlockFile :=
  match Cache (store w) !! key with
  | Some e => File <$> FileEntry e
  | None => None
  end.

Definition cachedData {D} (w : World D) (key : cacheKey)
  : list (option DataCacheEntry) :=
  match Cache (store w) !! key with
  | Some e => DataEntries e
  | None => []
  end.

(** *** Worlds used in scenarios *)

Definition plainFile (blockId name : string) (opts : FileOptsType) (sz : Z)
  : BlockFile :=
  {| BlockId := blockId; Name := name; Opts := opts; CreatedTs := 0;
     Size := sz; ModTs := 0; Meta := Some ∅ |}.

(** A cache whose only entry holds a dirty file buffer and a dirty part. *)
Definition dirtyEntry : CacheEntry :=
  {| EntryBlockId := "b"; EntryName := "f"; WriteIntentions := ∅;
     Deleted := false; PinCount := 0;
     FileEntry :=
       Some (mkFileCacheEntry true false
               (plainFile "b" "f" (mkFileOpts 0 false false) 5));
     DataEntries := [Some (mkDataCacheEntry true false 0 (bytesA 5))] |}.

Definition dirtyWorld : World MemDB :=
  mkWorld (mkBlockStore {[ ("b", "f")%string := dirtyEntry ]} 1) emptyDB 0.

(** A cache that holds a deleted entry without pins or intentions, in front
    of a store whose insert fails. *)
Definition tombstone : CacheEntry :=
  {| EntryBlockId := "b"; EntryName := "f"; WriteIntentions := ∅;
     Deleted := true; PinCount := 0; FileEntry := None; DataEntries := [] |}.

Definition tombstoneWorld : World MemDB :=
  mkWorld (mkBlockStore {[ ("b", "f")%string := tombstone ]} 1)
          (mkMemDB ∅ ∅ true false) 0.

(** A store that lists one file of block ["b"] and refuses to delete. *)
Definition stubbornWorld : World MemDB :=
  mkWorld emptyStore
          (mkMemDB {[ ("b", "f")%string :=
                        plainFile "b" "f" (mkFileOpts 0 false false) 0 ]}
                   ∅ false true) 0.

(** A store that holds a plain file ["f"] of size 4 and a circular file
    ["c"] of size 100 that keeps the last 32 bytes; the cache is empty. *)
Definition storedWorld : World MemDB :=
  mkWorld emptyStore
          (mkMemDB {[ ("b", "f")%string :=
                        plainFile "b" "f" (mkFileOpts 0 false false) 4;
                      ("b", "c")%string :=
                        plainFile "b" "c" (mkFileOpts 32 true false) 100 ]}
                   ∅ false false) 0.




(** The world of the scenario of the circular file: part size 16, a circular
    file that keeps 32 bytes, forty bytes ["A"] written. *)
Definition circularWorld : World MemDB :=
  match (MakeFile 16 "b" "f" None (mkFileOpts 32 true false);;
         WriteFile 16 "b" "f" (bytesA 40)) emptyWorld with
  | Ret (_, w) => w
  | _ => emptyWorld
  end.

(** ** Notions of the spec used in the statements *)

(** [n] rounded up to the next multiple of [partSize]. *)
Definition roundUpToPart (partSize n : Z) : Z :=
  if n `mod` partSize =? 0 then n else (n `div` partSize + 1) * partSize.

(** Options that pass the checks of [MakeFile]. *)
Definition validOpts (opts : FileOptsType) : Prop :=
  0 <= MaxSize opts /\
  (Circular opts = true -> 0 < MaxSize opts /\ IJson opts = false).

(** A deleted entry without pins or intentions. *)
Definition isDeadTombstone (e : CacheEntry) : bool :=
  Deleted e && (PinCount e =? 0)
  && bool_decide (size (WriteIntentions e) = 0%nat).

Definition dropDeadTombstone (key : cacheKey) (s : BlockStore) : BlockStore :=
  match Cache s !! key with
  | Some e =>
      if isDeadTombstone e
      then mkBlockStore (delete key (Cache s)) (NextIntentionId s)
      else s
  | None => s
  end.


(** A part index, folded modulo [maxSize / partSize] for a circular file. *)
Definition foldPart (partSize : Z) (f : BlockFile) (i : Z) : Z :=
  if Circular (Opts f) then i `mod` (MaxSize (Opts f) `div` partSize) else i.

(** Two descriptors that differ at most in a nil meta against an empty one
    (a deep copy turns the former into the latter). *)
Definition sameFile (f g : BlockFile) : Prop :=
  BlockId f = BlockId g /\ Name f = Name g /\ Opts f = Opts g /\
  CreatedTs f = CreatedTs g /\ Size f = Size g /\ ModTs f = ModTs g /\
  forall k, metaLookup (Meta f) k = metaLookup (Meta g) k.

(** The parts [first, first + 1, ..., last]. *)
Definition partRange (first last : Z) : list Z :=
  seqZ first (last - first + 1).

(** ** The rest of the package

    The functions below complete the embedding: the listing of files, and
    the part of the cache that serves the flusher ([tryDeleteCacheEntry],
    [getDirtyDataEntries] and [flushEntry]), from the Go text at the end of
    [src/frontend/app/store/wshrpcutil.ts]. *)

(** [DataEntries] after the loop of [ensurePart] has grown it to hold slot
    [partIdx]. *)
Definition grownTo (des : list (option DataCacheEntry)) (partIdx : Z)
  : list (option DataCacheEntry) :=
  des ++ replicate (Z.to_nat (partIdx + 1) - length des)%nat None.

(** The part in slot [i], if the slot exists and is not nil. *)
Definition partAt (des : list (option DataCacheEntry)) (i : Z)
  : option DataCacheEntry :=
  match des !! Z.to_nat i with
  | Some (Some d) => Some d
  | _ => None
  end.

(** The parts of a file that holds [data]: part [i] is dirty and holds the
    bytes from [i * partSize] on, up to [partSize] of them. *)
Definition fileChunk (partSize : Z) (data : list byte) (i : Z)
  : option DataCacheEntry :=
  Some {| Dirty := true; Flushing := false; PartIdx := i;
          Data := take (Z.to_nat partSize)
                    (drop (Z.to_nat (i * partSize)) data) |}.

Definition fileChunks (partSize : Z) (data : list byte)
  : list (option DataCacheEntry) :=
  fileChunk partSize data
  <$> seqZ 0 ((Z.of_nat (length data) + partSize - 1) `div` partSize).

(** [stripNils]: the loop appends every item that is not nil. *)
Definition stripNils {T} (arr : list (option T)) : list (option T) :=
  foldl (fun newArr item =>
           match item with
           | None => newArr
           | Some _ => newArr ++ [item]
           end) [] arr.

Section Flusher.

Context {D : Type} `{!BackingStore D}.

(** The database operations [dbGetBlockFiles] and [dbWriteCacheEntry] are not
    part of the sources; they are parameters here.  [dbGetBlockFiles] yields
    pointers that are not nil.  [dbWriteCacheEntry] receives the file buffer
    and the dirty parts by pointer, and can store into them (the comment on
    [DataCacheEntry] has the flusher unset [Dirty], then [Flushing]): with
    its error and the next state of the store it yields the buffers as the
    call leaves them. *)
Variable dbGetBlockFiles : string -> D -> list BlockFile * option error.
Variable dbWriteCacheEntry :
  option FileCacheEntry -> list DataCacheEntry -> D ->
  (option error * (option FileCacheEntry * list DataCacheEntry)) * D.

(** The loop of [ListFiles]: [idx] is the index of the first file of [todo]
    in [files]. *)
Fixpoint washFiles (idx : nat) (todo : list BlockFile)
    (files : list (option BlockFile)) (hasNils : bool)
  : M D (list (option BlockFile) * bool) :=
  match todo with
  | [] => mret (files, hasNils)
  | dbFile :: todo' =>
      '(cacheFile, ok) ← getFileFromCache (BlockId dbFile) (Name dbFile);
      if (ok : bool) then
        washFiles (S idx) todo' (<[idx := cacheFile]> files)
          (match cacheFile with None => true | Some _ => hasNils end)
      else washFiles (S idx) todo' files hasNils
  end.

Definition ListFiles (blockId : string)
  : M D (list (option BlockFile) * option error) :=
  '(files, err) ← dbQuery (dbGetBlockFiles blockId);
  match err with
  | Some e => mret ([], Some (ErrWrap "error getting block files" e))
  | None =>
      '(files', hasNils) ← washFiles 0 files (Some <$> files) false;
      mret (if (hasNils : bool) then stripNils files' else files', None)
  end.

(** Returns true if the entry was deleted (or there is no cache entry). *)
Definition tryDeleteCacheEntry (blockId name : string) : M D bool :=
  entry ← getEntry (blockId, name);
  match entry with
  | None => mret true
  | Some e =>
      if 0 <? PinCount e then mret false
      else if negb (bool_decide (size (WriteIntentions e) = 0%nat)) then
        mret false
      else deleteEntry (blockId, name);; mret true
  end.

Definition setFlushing (d : DataCacheEntry) : DataCacheEntry :=
  {| Dirty := Dirty d; Flushing := true; PartIdx := PartIdx d;
     Data := Data d |}.

Definition isDirtyPart (dce : option DataCacheEntry) : option DataCacheEntry :=
  match dce with
  | Some d => if Dirty d then Some d else None
  | None => None
  end.

(** [getDirtyDataEntries] on the entry stored under the key: the file buffer
    and the dirty parts, or nothing.  The parts it returns are the parts of
    the entry, on which it sets [Flushing]. *)
Definition getDirtyDataEntries (blockId name : string)
  : M D (option FileCacheEntry * list DataCacheEntry) :=
  entry ← getEntry (blockId, name);
  match entry with
  | None => liftO (Panic NilDereference)
  | Some e =>
      if Deleted e then mret (None, [])
      else
        match FileEntry e with
        | None => mret (None, [])
        | Some fe =>
            let dirtyData := omap isDirtyPart (DataEntries e) in
            if negb (FileDirty fe) && bool_decide (length dirtyData = 0%nat)
            then mret (None, [])
            else
              putEntry (blockId, name)
                (setDataEntries e
                   ((fun dce => match isDirtyPart dce with
                                | Some d => Some (setFlushing d)
                                | None => dce
                                end) <$> DataEntries e));;
              mret (Some fe, setFlushing <$> dirtyData)
        end
  end.

(** The buffers handed to [dbWriteCacheEntry] are the buffers of the entry:
    what the call stores into them shows in the entry.  [putBack] lays the
    parts, as the call leaves them, over the dirty slots they came from, in
    order; [storeBuffers] does so for the entry stored under the key, and for
    its file buffer. *)
Fixpoint putBack (des : list (option DataCacheEntry))
    (after : list DataCacheEntry) : list (option DataCacheEntry) :=
  match des with
  | [] => []
  | slot :: des' =>
      match isDirtyPart slot, after with
      | Some _, d :: after' => Some d :: putBack des' after'
      | _, _ => slot :: putBack des' after
      end
  end.

Definition storeBuffers (blockId name : string)
    (after : option FileCacheEntry * list DataCacheEntry) : M D unit :=
  entry ← getEntry (blockId, name);
  match entry with
  | None => mret tt
  | Some e =>
      putEntry (blockId, name)
        (setFileEntry (setDataEntries e (putBack (DataEntries e) after.2))
           (match after.1 with
            | Some fe => Some fe
            | None => FileEntry e
            end))
  end.

(** [flushEntry] on the entry stored under the key. *)
Definition flushEntry (blockId name : string) : M D (option error) :=
  '(fileEntry, dirtyData) ← getDirtyDataEntries blockId name;
  match fileEntry, dirtyData with
  | None, [] =>
      tryDeleteCacheEntry blockId name;;
      mret None
  | _, _ =>
      r ← dbUpdate (dbWriteCacheEntry fileEntry dirtyData);
      storeBuffers blockId name r.2;;
      match r.1 with
      | Some e => mret (Some e)
      | None => mret None
      end
  end.

End Flusher.

(** The bytes of [[start, endv)] that fall into part [i], with parts of
    [partSize] bytes. *)
Definition bytesInPart (partSize start endv i : Z) : Z :=
  Z.min endv ((i + 1) * partSize) - Z.max start (i * partSize).

(** An entry that holds a dirty file buffer or a dirty part. *)
Definition entryDirty (e : CacheEntry) : bool :=
  fileEntryDirty e || existsb dataEntryDirty (DataEntries e).

(** An entry that is pinned or has a write intention. *)
Definition inUse (e : CacheEntry) : bool :=
  (0 <? PinCount e) || negb (bool_decide (size (WriteIntentions e) = 0%nat)).

(** The byte at offset [po] of a part: a part that is missing, and a part
    buffer beyond its length, read as zero. *)
Definition byteOfPart (d : option DataCacheEntry) (po : Z) : byte :=
  match d with
  | Some d => default x00 (Data d !! Z.to_nat po)
  | None => x00
  end.

(** The part [i] a reader sees: the cached part if the entry holds one, the
    stored part otherwise. *)
Definition visiblePart (e : CacheEntry) (stored : gmap Z DataCacheEntry)
    (i : Z) : option DataCacheEntry :=
  match DataEntries e !! Z.to_nat i with
  | Some (Some d) => Some d
  | _ => stored !! i
  end.

(** The byte at position [p] of a file, as a reader sees it. *)
Definition visibleByte (partSize : Z) (f : BlockFile) (e : CacheEntry)
    (stored : gmap Z DataCacheEntry) (p : Z) : byte :=
  byteOfPart (visiblePart e stored (foldPart partSize f (p `div` partSize)))
             (p `mod` partSize).

(** A computation that leaves the pin count and the write intentions of the
    entry of [key], and the next intention id, as they are, whenever it
    returns. *)
Definition keepsPins {D A} (key : cacheKey) (m : M D A) : Prop :=
  forall (w : World D) e r w',
    Cache (store w) !! key = Some e ->
    m w = Ret (r, w') ->
    NextIntentionId (store w') = NextIntentionId (store w) /\
    exists e',
      Cache (store w') !! key = Some e' /\
      PinCount e' = PinCount e /\
      WriteIntentions e' = WriteIntentions e.

(** [full] with [data] laid over it from [offset] on. *)
Definition overlay (full : list byte) (offset : Z) (data : list byte)
  : list byte :=
  take (Z.to_nat offset) full ++ data
  ++ drop (Z.to_nat offset + length data) full.

(** A store that answers every request for the parts of a file without an
    error, and with none but parts that were asked for. *)
Definition partsOnRequest {D} `{!BackingStore D} (blockId name : string)
    (d : D) : Prop :=
  forall partIdxs,
    (dbGetFileParts blockId name partIdxs d).2 = None /\
    forall i, is_Some ((dbGetFileParts blockId name partIdxs d).1 !! i) ->
              i ∈ partIdxs.

(** The entry of a key as [pinCacheEntry] finds it, or creates it. *)
Definition entryAt {D} (w : World D) (blockId name : string) : CacheEntry :=
  default (makeCacheEntry blockId name) (Cache (store w) !! (blockId, name)).

(** An entry for which [getDirtyDataEntries] returns nothing: it is marked
    deleted, or has no file buffer, or neither its file buffer nor one of its
    parts is dirty. *)
Definition nothingToFlush (e : CacheEntry) : bool :=
  Deleted e
  || match FileEntry e with
     | None => true
     | Some fe =>
         negb (FileDirty fe) && negb (existsb dataEntryDirty (DataEntries e))
     end.

(** A part after [getDirtyDataEntries]: flushing if it is dirty. *)
Definition markFlushing (dce : option DataCacheEntry)
  : option DataCacheEntry :=
  match dce with
  | Some d => Some (if Dirty d then setFlushing d else d)
  | None => None
  end.

(** What [ListFiles] makes of one record of the backing store: the record
    itself when the cache has no file buffer for it, nothing when its entry
    is marked deleted, and a deep copy of the cached descriptor otherwise. *)
Definition washOne {D} (w : World D) (dbFile : BlockFile) : option BlockFile :=
  match Cache (store w) !! (BlockId dbFile, Name dbFile) with
  | None => Some dbFile
  | Some e =>
      if Deleted e then None
      else match FileEntry e with
           | None => Some dbFile
           | Some fe => DeepCopy (Some (File fe))
           end
  end.

(** The two database operations that are parameters above, for the in-memory
    store: the files of a block, and a write that stores the descriptor and
    the parts it is given and then unsets [Dirty] and [Flushing] on each
    buffer, as the comment on [DataCacheEntry] asks of the flusher. *)
Definition memGetBlockFiles (blockId : string) (d : MemDB)
  : list BlockFile * option error :=
  ((filter (fun kv => kv.1.1 = blockId) (map_to_list (files d))).*2, None).

Definition cleanPart (d : DataCacheEntry) : DataCacheEntry :=
  {| Dirty := false; Flushing := false; PartIdx := PartIdx d;
     Data := Data d |}.

Definition memWriteCacheEntry (fileEntry : option FileCacheEntry)
    (dirtyData : list DataCacheEntry) (d : MemDB)
  : (option error * (option FileCacheEntry * list DataCacheEntry)) * MemDB :=
  match fileEntry with
  | None => ((Some (ErrMsg "no file entry"), (fileEntry, dirtyData)), d)
  | Some fe =>
      let key := (BlockId (File fe), Name (File fe)) in
      ((None,
        (Some (mkFileCacheEntry false false (File fe)),
         cleanPart <$> dirtyData)),
       mkMemDB (<[key := File fe]> (files d))
               (<[key := foldl (fun m dce => <[PartIdx dce := dce]> m)
                                (default ∅ (parts d !! key)) dirtyData]>
                  (parts d))
               (insertFails d) (deleteFails d))
  end.

(** A cache with a live dirty entry ["f"], and an entry ["g"] that is marked
    deleted and still pinned; the store holds both files and a third, ["h"]. *)
Definition listWorld : World MemDB :=
  mkWorld
    (mkBlockStore
       {[ ("b", "f")%string := dirtyEntry;
          ("b", "g")%string :=
            {| EntryBlockId := "b"; EntryName := "g"; WriteIntentions := ∅;
               Deleted := true; PinCount := 1; FileEntry := None;
               DataEntries := [] |} ]} 1)
    (mkMemDB {[ ("b", "f")%string :=
                  plainFile "b" "f" (mkFileOpts 0 false false) 0;
                ("b", "g")%string :=
                  plainFile "b" "g" (mkFileOpts 0 false false) 7;
                ("b", "h")%string :=
                  plainFile "b" "h" (mkFileOpts 0 false false) 9 ]}
             ∅ false false) 0.

(** The byte the cache holds for position [p] of a file: the byte at offset
    [p mod partSize] of the part of [p], if the entry has that part and the
    part reaches that far. *)
Definition cachedByte (partSize : Z) (f : BlockFile)
    (des : list (option DataCacheEntry)) (p : Z) : option byte :=
  d ← partAt des (partContaining partSize f p);
  Data d !! Z.to_nat (p `mod` partSize).

(** * Properties *)

Module Int64Facts.

Lemma wrap_id z : Int64.in_range z -> Int64.wrap z = z.
Proof.
  unfold Int64.in_range, Int64.wrap, Int64.min_int, Int64.max_int. intros Hz.
  rewrite Z.mod_small; lia.
Qed.

Lemma wrap_in_range z : Int64.in_range (Int64.wrap z).
Proof.
  unfold Int64.in_range, Int64.wrap, Int64.min_int, Int64.max_int.
  pose proof (Z.mod_pos_bound (z + 2 ^ 63) (2 ^ 64) ltac:(lia)). lia.
Qed.

Lemma add_id a b : Int64.in_range (a + b) -> Int64.add a b = a + b.
Proof. apply wrap_id. Qed.

Lemma sub_id a b : Int64.in_range (a - b) -> Int64.sub a b = a - b.
Proof. apply wrap_id. Qed.

Lemma mul_id a b : Int64.in_range (a * b) -> Int64.mul a b = a * b.
Proof. apply wrap_id. Qed.

End Int64Facts.

(** ** Division and remainder *)

Lemma go_div_pos a b :
  0 <= a <= Int64.max_int -> 0 < b -> go_div a b = Ret (a `div` b).
Proof.
  intros Ha Hb. unfold go_div.
  destruct (Z.eqb_spec b 0) as [->|_]; [lia|].
  rewrite Z.quot_div_nonneg by lia.
  rewrite Int64Facts.wrap_id; [done|].
  unfold Int64.in_range, Int64.min_int, Int64.max_int in *.
  pose proof (Z.div_pos a b ltac:(lia) Hb).
  pose proof (Z.div_le_upper_bound a b a Hb ltac:(nia)). lia.
Qed.

Lemma go_mod_pos a b : 0 <= a -> 0 < b -> go_mod a b = Ret (a `mod` b).
Proof.
  intros Ha Hb. unfold go_mod.
  destruct (Z.eqb_spec b 0) as [->|_]; [lia|].
  by rewrite Z.rem_mod_nonneg by lia.
Qed.

Lemma partIdxAtOffset_nonneg P f offset :
  0 < P -> 0 <= offset <= Int64.max_int ->
  (Circular (Opts f) = true -> P <= MaxSize (Opts f) <= Int64.max_int) ->
  partIdxAtOffset P f offset = Ret (partContaining P f offset).
Proof.
  intros HP Hoff Hcirc. unfold partIdxAtOffset, partContaining.
  rewrite (go_div_pos offset P) by done. simpl.
  destruct (Circular (Opts f)); [|done].
  specialize (Hcirc eq_refl).
  rewrite (go_div_pos (MaxSize (Opts f)) P) by lia. simpl.
  apply go_mod_pos.
  - apply Z.div_pos; lia.
  - apply Z.div_str_pos; lia.
Qed.

(** C9. For a file of size at least 0, the last incomplete part is the part
    that holds byte [Size - 1] (folded modulo [MaxSize / partDataSize] for a
    circular file) when the size is not a multiple of the part size, and
    [NoPartIdx] when it is. *)
Theorem getLastIncompletePartNum_spec (P : Z) (f : BlockFile) :
  0 < P ->
  0 <= Size f <= Int64.max_int ->
  (Circular (Opts f) = true -> P <= MaxSize (Opts f) <= Int64.max_int) ->
  (Z.rem (Size f) P <> 0 ->
   getLastIncompletePartNum P f = Ret (partContaining P f (Size f - 1))) /\
  (Z.rem (Size f) P = 0 -> getLastIncompletePartNum P f = Ret NoPartIdx).
Proof.
  intros HP Hsz Hcirc. unfold getLastIncompletePartNum.
  rewrite go_mod_pos by lia. simpl.
  rewrite Z.rem_mod_nonneg by lia.
  split; intros Hrem.
  - destruct (Z.eqb_spec (Size f `mod` P) 0) as [|_]; [done|].
    rewrite partIdxAtOffset_nonneg by done.
    unfold partContaining.
    assert ((Size f - 1) `div` P = Size f `div` P) as ->; [|done].
    pose proof (Z.div_mod (Size f) P ltac:(lia)) as Hdm.
    pose proof (Z.mod_pos_bound (Size f) P HP) as Hb.
    symmetry. apply (Z.div_unique _ _ _ (Size f `mod` P - 1)); lia.
  - by rewrite Hrem.
Qed.

Lemma getLastIncompletePartNum_spec_witness :
  getLastIncompletePartNum 16 (plainFile "b" "f" (mkFileOpts 32 true false) 40)
  = Ret 0 /\
  getLastIncompletePartNum 16 (plainFile "b" "f" (mkFileOpts 32 true false) 48)
  = Ret NoPartIdx.
Proof.
  split.
  - apply (getLastIncompletePartNum_spec 16
             (plainFile "b" "f" (mkFileOpts 32 true false) 40)); simpl;
      unfold Int64.max_int; try lia; discriminate.
  - apply (getLastIncompletePartNum_spec 16
             (plainFile "b" "f" (mkFileOpts 32 true false) 48)); simpl;
      unfold Int64.max_int; try lia; reflexivity.
Defined.

(** ** Reasoning about computations in [M] *)

Ltac munfold :=
  unfold mbind, mret, M_bind, M_ret, outcome_bind, outcome_ret, liftO,
    getStore, putStore, getEntry, putEntry, deleteEntry, timeNow, dbQuery,
    dbUpdate in *.

Lemma M_bind_Ret {D A B} (m : M D A) (f : A -> M D B) w a w1 :
  m w = Ret (a, w1) -> (m ≫= f) w = f a w1.
Proof. intros Hm. unfold mbind, M_bind. by rewrite Hm. Qed.

Lemma M_bind_inv {D A B} (m : M D A) (f : A -> M D B) w r :
  (m ≫= f) w = Ret r -> exists a w1, m w = Ret (a, w1) /\ f a w1 = Ret r.
Proof.
  unfold mbind, M_bind. destruct (m w) as [[a w1]| |]; [eauto|done|done].
Qed.

Lemma liftO_Ret {D A} (o : outcome A) a (w : World D) :
  o = Ret a -> liftO o w = Ret (a, w).
Proof. by intros ->. Qed.

(** ** FlushCache *)

Lemma FlushCache_returns {D} (w : World D) : FlushCache w = Ret (None, w).
Proof. reflexivity. Qed.

(** C1 (the code departs from the claim). [FlushCache] finds the key of the
    dirty entry, returns success, and leaves the world as it was: the file
    buffer and the part of that entry are still dirty afterwards. *)
Theorem FlushCache_leaves_dirty :
  dirtyCacheKeys (store dirtyWorld) = [("b", "f")%string] /\
  exists w',
    FlushCache dirtyWorld = Ret (None, w') /\
    fileEntryDirty <$> (Cache (store w') !! ("b", "f")%string) = Some true /\
    existsb dataEntryDirty (cachedData w' ("b", "f")%string) = true.
Proof.
  split; [by vm_compute|].
  exists dirtyWorld. rewrite FlushCache_returns. by vm_compute.
Qed.

(** ** DeleteFile and DeleteBlock *)

Section Deleting.

Context {D : Type} `{!BackingStore D}.

Lemma DeleteFile_returns blockId name (w : World D) :
  exists r w', DeleteFile blockId name w = Ret (r, w').
Proof.
  unfold DeleteFile, withLock. munfold.
  destruct (dbDeleteFile blockId name (db w)) as [[e|] d]; simpl;
    [by eexists _, _|].
  destruct (Cache _ !! _) as [e|]; simpl; [|by eexists _, _].
  destruct (_ || _); by eexists _, _.
Qed.

Lemma forEach_DeleteFile_returns blockId names (w : World D) :
  exists w',
    forEach names (fun name => DeleteFile blockId name;; mret tt) w
    = Ret (tt, w').
Proof.
  revert w. induction names as [|name names IH]; intros w; simpl.
  - by eexists.
  - destruct (DeleteFile_returns blockId name w) as (r & w1 & Hd).
    rewrite (M_bind_Ret _ _ w tt w1).
    + apply IH.
    + by rewrite (M_bind_Ret _ _ _ _ _ Hd).
Qed.

(** C10. When listing the names of the block succeeds, [DeleteBlock] returns
    no error, whatever the calls of [DeleteFile] on the listed names return:
    their results are dropped. *)
Theorem DeleteBlock_drops_file_errors blockId names (w : World D) :
  dbGetBlockFileNames blockId (db w) = (names, None) ->
  exists w',
    DeleteBlock blockId w = Ret (None, w') /\
    forEach names (fun name => DeleteFile blockId name;; mret tt) w
    = Ret (tt, w').
Proof.
  intros Hlist. unfold DeleteBlock.
  rewrite (M_bind_Ret _ _ w (names, None) w); [|by munfold; rewrite Hlist].
  destruct (forEach_DeleteFile_returns blockId names w) as (w' & Hall).
  exists w'. split; [|done].
  by rewrite (M_bind_Ret _ _ _ _ _ Hall).
Qed.

End Deleting.

(** The store of [stubbornWorld] lists file ["f"] and fails to delete it:
    [DeleteFile] reports the failure, [DeleteBlock] does not. *)
Lemma DeleteBlock_drops_file_errors_witness :
  DeleteFile "b" "f" stubbornWorld
  = Ret (Some (ErrWrap "error deleting file" (ErrMsg "delete failed")),
         stubbornWorld) /\
  exists w',
    DeleteBlock "b" stubbornWorld = Ret (None, w') /\
    forEach ["f"%string]
      (fun name => DeleteFile "b" name;; mret tt) stubbornWorld
    = Ret (tt, w').
Proof.
  split; [by vm_compute|].
  apply (DeleteBlock_drops_file_errors "b" ["f"%string] stubbornWorld).
  by vm_compute.
Defined.

(** ** MakeFile *)

Section Making.

Context {D : Type} `{!BackingStore D}.

Lemma roundMaxSize_returns P opts :
  P <> 0 -> exists opts', roundMaxSize P opts = Ret opts' /\
                          Circular opts' = Circular opts.
Proof.
  intros HP. unfold roundMaxSize, go_mod, go_div.
  destruct (Z.eqb_spec P 0) as [|_]; [done|].
  destruct (Circular opts) eqn:Hc; simpl; [|by eexists].
  destruct (negb _); simpl; by eexists.
Qed.

Lemma roundMaxSize_spec P opts :
  0 < P -> 0 <= MaxSize opts ->
  (Circular opts = true -> MaxSize opts + P <= Int64.max_int) ->
  roundMaxSize P opts =
  Ret (mkFileOpts
         (if Circular opts then roundUpToPart P (MaxSize opts)
          else MaxSize opts)
         (Circular opts) (IJson opts)).
Proof.
  intros HP Hmax Hrange. unfold roundMaxSize, roundUpToPart.
  destruct opts as [maxSize circ ijson]; simpl in *.
  destruct circ; [|done]. specialize (Hrange eq_refl).
  unfold Int64.max_int in Hrange.
  rewrite go_mod_pos by lia. simpl.
  destruct (Z.eqb_spec (maxSize `mod` P) 0) as [Hz|Hnz]; simpl; [done|].
  rewrite go_div_pos by (unfold Int64.max_int; lia). simpl.
  pose proof (Z.div_mod maxSize P ltac:(lia)) as Hdm.
  pose proof (Z.mod_pos_bound maxSize P HP) as Hb.
  assert (0 <= maxSize `div` P) by (apply Z.div_pos; lia).
  rewrite Int64Facts.add_id
    by (unfold Int64.in_range, Int64.min_int, Int64.max_int; nia).
  rewrite Int64Facts.mul_id
    by (unfold Int64.in_range, Int64.min_int, Int64.max_int; nia).
  done.
Qed.

(** What the check under the lock does to the world. *)
Lemma makeFileCheck_cases blockId name (w : World D) :
  (exists e, withLock blockId name false (makeFileCheck blockId name) w
             = Ret (Some e, w) /\ kindOf e = State /\
             dropDeadTombstone (blockId, name) (store w) = store w)
  \/
  (exists w1, withLock blockId name false (makeFileCheck blockId name) w
              = Ret (None, w1) /\
              store w1 = dropDeadTombstone (blockId, name) (store w) /\
              db w1 = db w /\ clock w1 = clock w).
Proof.
  unfold withLock, makeFileCheck, dropDeadTombstone, isDeadTombstone. munfold.
  destruct (Cache _ !! _) as [e|]; simpl.
  - destruct (Deleted e); simpl.
    + destruct (_ && _); simpl.
      * right. by eexists.
      * left. by eexists.
    + left. by eexists.
  - right. exists w. by destruct w.
Qed.

(** C3 (as amended). [MakeFile] rejects a negative [MaxSize], a circular file
    whose [MaxSize] is not positive, and a circular ijson file, each with a
    validation error.  When the options are valid, either the check of the
    cache fails with a state error, or the descriptor handed to the insert of
    the backing store carries [MaxSize] rounded up to the next multiple of
    the part size if the file is circular, and [MaxSize] as given if it is
    not. *)
Theorem MakeFile_validates_and_rounds P blockId name meta opts (w : World D) :
  0 < P ->
  (Circular opts = true -> MaxSize opts + P <= Int64.max_int) ->
  (MaxSize opts < 0 ->
   exists e, MakeFile P blockId name meta opts w = Ret (Some e, w) /\
             kindOf e = Validation) /\
  (Circular opts = true -> MaxSize opts <= 0 ->
   exists e, MakeFile P blockId name meta opts w = Ret (Some e, w) /\
             kindOf e = Validation) /\
  (Circular opts = true -> IJson opts = true ->
   exists e, MakeFile P blockId name meta opts w = Ret (Some e, w) /\
             kindOf e = Validation) /\
  (validOpts opts ->
   (exists e, MakeFile P blockId name meta opts w = Ret (Some e, w) /\
              kindOf e = State) \/
   (exists w1 file,
      MakeFile P blockId name meta opts w = dbUpdate (dbInsertFile file) w1 /\
      db w1 = db w /\
      BlockId file = blockId /\ Name file = name /\ Size file = 0 /\
      CreatedTs file = clock w /\ ModTs file = clock w /\ Meta file = meta /\
      Opts file =
        mkFileOpts (if Circular opts then roundUpToPart P (MaxSize opts)
                    else MaxSize opts)
                   (Circular opts) (IJson opts))).
Proof.
  intros HP Hrange. repeat split.
  - intros Hneg. unfold MakeFile.
    destruct (Z.ltb_spec (MaxSize opts) 0); [|lia]. by eexists.
  - intros Hc Hle. unfold MakeFile. rewrite Hc.
    destruct (Z.ltb_spec (MaxSize opts) 0); [by eexists|].
    destruct (Z.leb_spec (MaxSize opts) 0); [|lia]. by eexists.
  - intros Hc Hij. unfold MakeFile. rewrite Hc, Hij.
    destruct (Z.ltb_spec (MaxSize opts) 0); [by eexists|].
    destruct (Z.leb_spec (MaxSize opts) 0); by eexists.
  - intros [Hmax Hcirc]. unfold MakeFile.
    destruct (Z.ltb_spec (MaxSize opts) 0); [lia|].
    assert (Circular opts && (MaxSize opts <=? 0) = false) as ->.
    { destruct (Circular opts); [|done]. destruct (Hcirc eq_refl).
      simpl. apply Z.leb_gt. lia. }
    assert (Circular opts && IJson opts = false) as ->.
    { destruct (Circular opts); [|done]. by destruct (Hcirc eq_refl) as [_ ->]. }
    rewrite (M_bind_Ret _ _ w _ w
               (liftO_Ret _ _ w (roundMaxSize_spec P opts HP Hmax Hrange))).
    destruct (makeFileCheck_cases blockId name w)
      as [(e & Hl & Hk & _)|(w1 & Hl & _ & Hdb & Hclock)];
      rewrite (M_bind_Ret _ _ _ _ _ Hl).
    + left. by exists e.
    + right. exists w1. eexists. split; [reflexivity|]. simpl.
      by rewrite Hclock.
Qed.

End Making.

(** With part size 16, a circular file of [MaxSize] 40 is inserted with
    [MaxSize] 48. *)
Lemma MakeFile_validates_and_rounds_witness :
  exists w1 file,
    MakeFile 16 "b" "f" None (mkFileOpts 40 true false) emptyWorld
    = dbUpdate (dbInsertFile file) w1 /\
    MaxSize (Opts file) = 48.
Proof.
  destruct (MakeFile_validates_and_rounds 16 "b" "f" None
              (mkFileOpts 40 true false) emptyWorld)
    as (_ & _ & _ & H); [lia | simpl; unfold Int64.max_int; lia |].
  destruct H as [(e & He & _)|(w1 & file & Hm & _ & _ & _ & _ & _ & _ & _ & Ho)].
  - split; simpl; [lia|]. intros _. split; [lia|reflexivity].
  - vm_compute in He. discriminate He.
  - exists w1, file. split; [exact Hm|]. rewrite Ho. reflexivity.
Defined.

(** C3 (as stated) fails on a file that is not circular: with part size 16,
    [MaxSize] 10 reaches the backing store as 10, not as 16. *)
Lemma MakeFile_noncircular_not_rounded :
  exists w' file,
    MakeFile 16 "b" "f" None (mkFileOpts 10 false false) emptyWorld
    = Ret (None, w') /\
    files (db w') !! ("b", "f")%string = Some file /\
    MaxSize (Opts file) = 10 /\
    MaxSize (Opts file) <> roundUpToPart 16 10.
Proof.
  eexists _, _. split; [by vm_compute|]. split; [by vm_compute|]. by vm_compute.
Qed.

Section MakingFailure.

Context {D : Type} `{!BackingStore D}.


End MakingFailure.



(** ** Pinning and loading the file descriptor *)

Section Loading.

Context {D : Type} `{!BackingStore D}.

Lemma pin_load blockId name (w w0 : World D) f :
  Stat blockId name w = Ret ((Some f, None), w0) ->
  exists w1 w2 e2 fe2,
    pinCacheEntry blockId name w = Ret (tt, w1) /\
    loadFileInfo blockId name w1 = Ret ((Some f, None), w2) /\
    Cache (store w2) !! (blockId, name) = Some e2 /\
    Deleted e2 = false /\
    FileEntry e2 = Some fe2 /\
    sameFile (File fe2) f /\
    DataEntries e2 = cachedData w (blockId, name) /\
    db w2 = db w /\ clock w2 = clock w /\
    (Meta (File fe2) = None -> cachedFile w (blockId, name) = Some (File fe2)).
Proof.
  unfold Stat, pinCacheEntry, loadFileInfo, getFileFromCache, withLock,
    cachedData, cachedFile.
  munfold. intros HStat.
  destruct (Cache (store w) !! (blockId, name)) as [e|] eqn:He; simpl in *.
  - destruct (Deleted e) eqn:Hdel; [done|].
    destruct (FileEntry e) as [fe|] eqn:Hfe.
    + injection HStat as <- <-.
      eexists _, _, _, fe. split; [reflexivity|]. split.
      { repeat (progress (simpl; rewrite ?lookup_insert_eq, ?Hdel, ?Hfe)).
        reflexivity. }
      split; [simpl; by rewrite lookup_insert_eq|].
      repeat split; try done.
      simpl. intros k. by destruct (Meta (File fe)).
    + destruct (dbGetBlockFile blockId name (db w)) as [dbFile err] eqn:Hdb.
      injection HStat as -> -> <-.
      eexists _, _, _, _. split; [reflexivity|]. split.
      { repeat (progress (simpl; rewrite ?lookup_insert_eq, ?Hdel, ?Hfe, ?Hdb)).
        reflexivity. }
      split; [simpl; by rewrite lookup_insert_eq|].
      repeat split; try done; simpl; try (by destruct (Meta f));
        intros k; by destruct (Meta f).
  - destruct (dbGetBlockFile blockId name (db w)) as [dbFile err] eqn:Hdb.
    injection HStat as -> -> <-.
    eexists _, _, _, _. split; [reflexivity|]. split.
    { repeat (progress (simpl; rewrite ?lookup_insert_eq, ?Hdb)).
      reflexivity. }
    split; [simpl; by rewrite lookup_insert_eq|].
    repeat split; try done; simpl; try (by destruct (Meta f));
      intros k; by destruct (Meta f).
Qed.

Lemma unpin_spec blockId name (w : World D) e :
  Cache (store w) !! (blockId, name) = Some e ->
  exists w',
    unpinCacheEntry blockId name w = Ret (tt, w') /\
    Cache (store w') !! (blockId, name)
    = Some (setPinCount e (Int64.sub (PinCount e) 1)) /\
    db w' = db w /\ clock w' = clock w.
Proof.
  intros He. unfold unpinCacheEntry. munfold. rewrite He.
  eexists. split; [reflexivity|]. simpl. by rewrite lookup_insert_eq.
Qed.

Lemma WriteAt_pinned P fuel blockId name offset data (w w1 w2 w3 : World D) r :
  pinCacheEntry blockId name w = Ret (tt, w1) ->
  writeAtPinned P fuel blockId name offset data w1 = Ret (r, w2) ->
  unpinCacheEntry blockId name w2 = Ret (tt, w3) ->
  WriteAt P fuel blockId name offset data w = Ret (r, w3).
Proof.
  intros Hpin Hbody Hunpin. unfold WriteAt.
  rewrite (M_bind_Ret _ _ _ _ _ Hpin).
  rewrite (M_bind_Ret _ _ _ _ _ Hbody).
  by rewrite (M_bind_Ret _ _ _ _ _ Hunpin).
Qed.

(** C5. On a file that exists ([Stat] yields its descriptor [f]), [WriteAt]
    returns a validation error when the offset is negative, and when the
    offset lies beyond the size of the file. *)
Theorem WriteAt_rejects_bad_offset P fuel blockId name offset data
    (w w0 : World D) f :
  Stat blockId name w = Ret ((Some f, None), w0) ->
  (offset < 0 ->
   exists w',
     WriteAt P fuel blockId name offset data w
     = Ret (Some (ErrMsg "offset must be non-negative"), w') /\
     kindOf (ErrMsg "offset must be non-negative") = Validation) /\
  (0 <= offset -> Size f < offset ->
   exists w',
     WriteAt P fuel blockId name offset data w
     = Ret (Some (ErrMsg "offset is past the end of the file"), w') /\
     kindOf (ErrMsg "offset is past the end of the file") = Validation).
Proof.
  intros HStat.
  destruct (pin_load _ _ _ _ _ HStat)
    as (w1 & w2 & e2 & fe2 & Hpin & Hload & He2 & _).
  destruct (unpin_spec _ _ _ _ He2) as (w3 & Hunpin & _).
  split.
  - intros Hneg. exists w3. split; [|done].
    eapply WriteAt_pinned; [exact Hpin| |exact Hunpin].
    unfold writeAtPinned. rewrite (M_bind_Ret _ _ _ _ _ Hload).
    by destruct (Z.ltb_spec offset 0); [|lia].
  - intros Hpos Hpast. exists w3. split; [|done].
    eapply WriteAt_pinned; [exact Hpin| |exact Hunpin].
    unfold writeAtPinned. rewrite (M_bind_Ret _ _ _ _ _ Hload).
    destruct (Z.ltb_spec offset 0); [lia|].
    by destruct (Z.ltb_spec (Size f) offset); [|lia].
Qed.

Lemma Stat_cached blockId name (w : World D) e fe :
  Cache (store w) !! (blockId, name) = Some e ->
  Deleted e = false ->
  FileEntry e = Some fe ->
  Stat blockId name w = Ret ((DeepCopy (Some (File fe)), None), w).
Proof.
  intros He Hdel Hfe. unfold Stat, getFileFromCache. munfold.
  by rewrite He, Hdel, Hfe.
Qed.

Lemma sliceFrom_drop {A} (l : list A) (lo : Z) :
  0 <= lo <= Z.of_nat (length l) ->
  sliceFrom l lo = Ret (drop (Z.to_nat lo) l).
Proof.
  intros Hlo. unfold sliceFrom, sliceRange.
  destruct (Z.leb_spec 0 lo); [|lia].
  destruct (Z.leb_spec lo (Z.of_nat (length l))); [|lia].
  destruct (Z.leb_spec (Z.of_nat (length l)) (Z.of_nat (length l))); [|lia].
  simpl. f_equal. apply take_ge. rewrite length_drop. lia.
Qed.

(** *** WriteMeta *)




(** *** ReadAt *)

Lemma Stat_pin blockId name (w w0 : World D) x :
  Stat blockId name w = Ret (x, w0) ->
  exists w1, pinCacheEntry blockId name w = Ret (tt, w1) /\
             Stat blockId name w1 = Ret (x, w1).
Proof.
  unfold Stat, pinCacheEntry, getFileFromCache, withLock. munfold.
  intros HStat.
  destruct (Cache (store w) !! (blockId, name)) as [e|] eqn:He; simpl in *.
  - eexists. split; [reflexivity|]. simpl. rewrite lookup_insert_eq. simpl.
    destruct (Deleted e); [by injection HStat as <- _|].
    destruct (FileEntry e); [by injection HStat as <- _|].
    simpl in *. by injection HStat as <- _.
  - eexists. split; [reflexivity|]. simpl. rewrite lookup_insert_eq. simpl.
    by injection HStat as <- _.
Qed.

(** The offset [ReadAt] returns with a result is the offset the reading
    started from: the given offset, advanced by [size - MaxSize] when the
    file is circular and [size] exceeds [MaxSize]. *)
Lemma readAtPinned_offset P fuel blockId name offset size (w w' : World D)
    f off' data :
  Stat blockId name w = Ret ((Some f, None), w) ->
  readAtPinned P fuel blockId name offset size w
  = Ret ((off', data, None), w') ->
  let start :=
    if Circular (Opts f) && (MaxSize (Opts f) <? size)
    then Int64.add offset (Int64.sub size (MaxSize (Opts f))) else offset in
  off' = start /\
  exists des amt, readAtLoop P (Z.to_nat amt) f des amt start [] = Ret data.
Proof.
  intros HStat Hread. unfold readAtPinned in Hread.
  rewrite (M_bind_Ret _ _ _ _ _ HStat) in Hread.
  apply M_bind_inv in Hread as (partsNeeded & w1 & _ & Hread).
  apply M_bind_inv in Hread as ([dataEntries [e|]] & w2 & _ & Hread);
    [done|].
  apply M_bind_inv in Hread as ([sd [e|]] & w3 & _ & Hread); [done|].
  apply M_bind_inv in Hread as (rtn & w4 & Hloop & Hret).
  injection Hret as <- <- <-.
  split; [done|]. exists sd.2, sd.1.
  unfold liftO in Hloop.
  destruct (readAtLoop _ _ _ _ _ _ _) as [r| |]; [|done..].
  by injection Hloop as ->.
Qed.

End Loading.

(** On the plain file of [storedWorld], whose size is 4: offset -1 and
    offset 5 are both refused. *)
Lemma WriteAt_rejects_bad_offset_witness :
  (exists w',
     WriteAt 16 8 "b" "f" (-1) (bytesA 3) storedWorld
     = Ret (Some (ErrMsg "offset must be non-negative"), w') /\
     kindOf (ErrMsg "offset must be non-negative") = Validation) /\
  (exists w',
     WriteAt 16 8 "b" "f" 5 (bytesA 3) storedWorld
     = Ret (Some (ErrMsg "offset is past the end of the file"), w') /\
     kindOf (ErrMsg "offset is past the end of the file") = Validation).
Proof.
  split.
  - apply (WriteAt_rejects_bad_offset 16 8 "b" "f" (-1) (bytesA 3)
             storedWorld storedWorld
             (plainFile "b" "f" (mkFileOpts 0 false false) 4)).
    + vm_compute. reflexivity.
    + lia.
  - apply (WriteAt_rejects_bad_offset 16 8 "b" "f" 5 (bytesA 3)
             storedWorld storedWorld
             (plainFile "b" "f" (mkFileOpts 0 false false) 4)).
    + vm_compute. reflexivity.
    + lia.
    + simpl. lia.
Defined.



(** ** The parts ReadAt asks the backing store for *)

Section PartsNeeded.

Variable P : Z.
Variable f : BlockFile.
Hypothesis P_pos : 0 < P.
Hypothesis circular_ok :
  Circular (Opts f) = true -> P <= MaxSize (Opts f) <= Int64.max_int.

Lemma partContaining_fold b : partContaining P f b = foldPart P f (b `div` P).
Proof. unfold partContaining, foldPart. by destruct (Circular (Opts f)). Qed.

Lemma partsNeededLoop_spec offset endv qe :
  0 <= offset ->
  endv = P * (qe + 1) ->
  endv + P <= Int64.max_int ->
  forall (r n : nat) (k : Z) acc,
    (r <= n)%nat -> 0 <= k ->
    offset `div` P + k + Z.of_nat r = qe + 1 ->
    partsNeededLoop P n f (offset + k * P) endv acc
    = Ret (acc ++ (foldPart P f <$> seqZ (offset `div` P + k) (Z.of_nat r))).
Proof.
  intros Hoff -> Hend. unfold Int64.max_int in Hend.
  assert (forall k, (offset + k * P) `div` P = offset `div` P + k) as Hdiv.
  { intros k. apply Z.div_add. lia. }
  induction r as [|r IH]; intros n k acc Hn Hk Hq.
  - assert (P * (qe + 1) <= offset + k * P) as Hge.
    { pose proof (Hdiv k) as Hd.
      pose proof (Z.mul_div_le (offset + k * P) P P_pos) as Hle.
      rewrite Hd in Hle. nia. }
    simpl. rewrite app_nil_r.
    destruct n; simpl; by destruct (Z.ltb_spec (offset + k * P) (P * (qe + 1)));
      [lia|].
  - destruct n as [|n]; [lia|].
    assert (offset + k * P < P * (qe + 1)) as Hlt.
    { pose proof (Hdiv k) as Hd.
      pose proof (Z.div_mod (offset + k * P) P ltac:(lia)) as Hdm.
      pose proof (Z.mod_pos_bound (offset + k * P) P P_pos) as Hb.
      rewrite Hd in Hdm. nia. }
    simpl. destruct (Z.ltb_spec (offset + k * P) (P * (qe + 1))); [|lia].
    rewrite partIdxAtOffset_nonneg; [|done|unfold Int64.max_int; nia|done].
    simpl. rewrite partContaining_fold, Hdiv.
    rewrite Int64Facts.add_id
      by (unfold Int64.in_range, Int64.min_int, Int64.max_int; nia).
    replace (offset + k * P + P) with (offset + (k + 1) * P) by lia.
    rewrite (IH n (k + 1)); [|lia..].
    rewrite <- app_assoc. simpl. do 2 f_equal.
    rewrite (seqZ_cons (offset `div` P + k)) by lia. simpl.
    do 3 f_equal; lia.
Qed.

(** The list of parts [ReadAt] hands to [dbGetFileParts]: the parts from the
    one that holds [offset] through the one that holds [offset + size].  The
    last of them holds no byte of the range when [offset + size] is a
    multiple of the part size. *)
Lemma readAtPartsNeeded_spec fuel offset size :
  0 <= offset -> 0 <= size ->
  offset + size + 2 * P <= Int64.max_int ->
  (Z.to_nat ((offset + size) `div` P - offset `div` P + 1) <= fuel)%nat ->
  readAtPartsNeeded P fuel f offset size
  = Ret (foldPart P f
           <$> partRange (offset `div` P) ((offset + size) `div` P)).
Proof.
  intros Hoff Hsize Hrange Hfuel. unfold Int64.max_int in Hrange.
  unfold readAtPartsNeeded, partRange.
  rewrite Int64Facts.add_id
    by (unfold Int64.in_range, Int64.min_int, Int64.max_int; lia).
  rewrite go_mod_pos by lia. simpl.
  pose proof (Z.div_mod (offset + size) P ltac:(lia)) as Hdm.
  pose proof (Z.mod_pos_bound (offset + size) P P_pos) as Hb.
  assert (offset `div` P <= (offset + size) `div` P) as Hmono
    by (apply Z.div_le_mono; lia).
  rewrite Int64Facts.sub_id
    by (unfold Int64.in_range, Int64.min_int, Int64.max_int; lia).
  rewrite Int64Facts.add_id
    by (unfold Int64.in_range, Int64.min_int, Int64.max_int; lia).
  pose proof (partsNeededLoop_spec offset
                (offset + size - (offset + size) `mod` P + P)
                ((offset + size) `div` P) Hoff ltac:(lia)
                ltac:(unfold Int64.max_int; lia)
                (Z.to_nat ((offset + size) `div` P - offset `div` P + 1))
                fuel 0 [] Hfuel ltac:(lia) ltac:(lia)) as Hloop.
  rewrite Z.mul_0_l, !Z.add_0_r in Hloop. rewrite Hloop. simpl.
  do 3 f_equal. lia.
Qed.

End PartsNeeded.

(** C7 (the code departs from the claim). With part size 16, [ReadAt] at
    offset 0 and size 16 on a plain file asks the backing store for parts 0
    and 1, while the bytes 0 to 15 lie in part 0 alone; the same holds with
    the default part size for a read of 65536 bytes. *)
Theorem ReadAt_parts_needed_overfetch :
  (forall fuel, (2 <= fuel)%nat ->
     readAtPartsNeeded 16 fuel
       (plainFile "b" "f" (mkFileOpts 0 false false) 16) 0 16
     = Ret [0; 1]) /\
  partRange (0 `div` 16)
    (partContaining 16 (plainFile "b" "f" (mkFileOpts 0 false false) 16)
       (0 + 16 - 1))
  = [0] /\
  (forall fuel, (2 <= fuel)%nat ->
     readAtPartsNeeded DefaultPartDataSize fuel
       (plainFile "b" "f" (mkFileOpts 0 false false) 65536) 0 65536
     = Ret [0; 1]) /\
  partRange (0 `div` DefaultPartDataSize)
    (partContaining DefaultPartDataSize
       (plainFile "b" "f" (mkFileOpts 0 false false) 65536) (0 + 65536 - 1))
  = [0].
Proof.
  split; [|split; [|split]].
  - intros fuel Hfuel. do 2 (destruct fuel as [|fuel]; [lia|]).
    destruct fuel; vm_compute; reflexivity.
  - vm_compute. reflexivity.
  - intros fuel Hfuel. do 2 (destruct fuel as [|fuel]; [lia|]).
    destruct fuel; vm_compute; reflexivity.
  - vm_compute. reflexivity.
Qed.

(** ** ReadAt returns *)

Lemma sliceRange_returns {A} (l : list A) (lo hi : Z) :
  0 <= lo <= hi -> hi <= Z.of_nat (length l) ->
  exists chunk, sliceRange l lo hi = Ret chunk /\
                length chunk = Z.to_nat (hi - lo).
Proof.
  intros Hlo Hhi. unfold sliceRange.
  destruct (Z.leb_spec 0 lo); [|lia].
  destruct (Z.leb_spec lo hi); [|lia].
  destruct (Z.leb_spec hi (Z.of_nat (length l))); [|lia].
  simpl. eexists. split; [reflexivity|].
  rewrite length_take, length_drop. lia.
Qed.

Section Reading.

Variable P : Z.
Variable f : BlockFile.
Hypothesis P_pos : 0 < P.
Hypothesis P_range : P <= Int64.max_int.
Hypothesis circular_ok :
  Circular (Opts f) = true -> P <= MaxSize (Opts f) <= Int64.max_int.

(** The part a round of the assembling loop reads from: [partDataSize]
    bytes, zeros if the part is in neither source. *)
Lemma partData_returns (des : gmap Z DataCacheEntry) (partIdx : Z) :
  exists partData,
    match des !! partIdx with
    | None => makeBytes P
    | Some d => sliceRange (backingArray P d) 0 P
    end = Ret partData /\
    length partData = Z.to_nat P.
Proof.
  destruct (des !! partIdx) as [d|].
  - destruct (sliceRange_returns (backingArray P d) 0 P) as (pd & Hpd & Hlen).
    + lia.
    + unfold backingArray. rewrite length_app, length_replicate. lia.
    + exists pd. split; [done|]. rewrite Hlen. f_equal. lia.
  - unfold makeBytes. destruct (Z.ltb_spec P 0); [lia|].
    eexists. split; [reflexivity|]. by rewrite length_replicate.
Qed.

(** The assembling loop of [ReadAt] never runs out of rounds and never
    panics on an offset that is not negative; it returns [amtLeftToRead]
    bytes. *)
Lemma readAtLoop_returns (des : gmap Z DataCacheEntry) :
  forall (n : nat) (amt cur : Z) (acc : list byte),
    0 <= cur ->
    (Z.to_nat amt <= n)%nat ->
    cur + Z.max 0 amt <= Int64.max_int ->
    exists data,
      readAtLoop P n f des amt cur acc = Ret data /\
      length data = (length acc + Z.to_nat amt)%nat.
Proof.
  induction n as [|n IH]; intros amt cur acc Hcur Hn Hrange.
  - simpl. destruct (Z.ltb_spec 0 amt); [lia|].
    exists acc. split; [done|]. lia.
  - simpl. destruct (Z.ltb_spec 0 amt) as [Hpos|Hle]; last first.
    { exists acc. split; [done|]. lia. }
    pose proof P_range as HPr.
    unfold Int64.max_int in Hrange, HPr.
    rewrite partIdxAtOffset_nonneg; [|done|unfold Int64.max_int; lia|done].
    simpl.
    destruct (partData_returns des (partContaining P f cur))
      as (partData & -> & HlenPD).
    simpl. rewrite go_mod_pos by lia. simpl.
    pose proof (Z.mod_pos_bound cur P P_pos) as Hmod.
    rewrite (Int64Facts.sub_id P (cur `mod` P))
      by (unfold Int64.in_range, Int64.min_int, Int64.max_int; lia).
    set (a := minInt64 (P - cur `mod` P) amt).
    assert (1 <= a <= amt /\ a <= P - cur `mod` P) as Ha.
    { unfold a, minInt64. destruct (Z.ltb_spec (P - cur `mod` P) amt); lia. }
    rewrite (Int64Facts.add_id (cur `mod` P) a)
      by (unfold Int64.in_range, Int64.min_int, Int64.max_int; lia).
    destruct (sliceRange_returns partData (cur `mod` P) (cur `mod` P + a))
      as (chunk & -> & HlenC); [lia|lia|].
    simpl.
    rewrite (Int64Facts.sub_id amt a)
      by (unfold Int64.in_range, Int64.min_int, Int64.max_int; lia).
    rewrite (Int64Facts.add_id cur a)
      by (unfold Int64.in_range, Int64.min_int, Int64.max_int; lia).
    destruct (IH (amt - a) (cur + a) (acc ++ chunk)) as (data & Hdata & Hlen);
      [lia|lia|unfold Int64.max_int; lia|].
    exists data. split; [done|].
    rewrite Hlen, length_app, HlenC. lia.
Qed.

End Reading.

Lemma readAtReconcile_returns offset size (partsNeeded : list Z)
    (dataEntries : gmap Z DataCacheEntry) entry fe :
  FileEntry entry = Some fe ->
  Forall (fun i => 0 <= i) partsNeeded ->
  exists dataEntries',
    readAtReconcile offset size partsNeeded dataEntries entry
    = Ret (if Size (File fe) <? Int64.add offset size
           then Int64.sub (Size (File fe)) offset else size,
           dataEntries').
Proof.
  intros Hfe Hparts. unfold readAtReconcile. rewrite Hfe.
  revert dataEntries.
  induction Hparts as [|i parts Hi _ IH]; intros dataEntries; simpl.
  - by eexists.
  - destruct (Z.leb_spec (Z.of_nat (length (DataEntries entry))) i) as [|Hlt].
    + apply IH.
    + unfold sliceIndex. destruct (Z.ltb_spec i 0); [lia|].
      destruct (DataEntries entry !! Z.to_nat i) as [slot|] eqn:Hslot.
      * simpl. destruct slot; apply IH.
      * apply lookup_ge_None in Hslot. lia.
Qed.

Lemma foldPart_nonneg P f i :
  0 < P -> 0 <= i ->
  (Circular (Opts f) = true -> P <= MaxSize (Opts f)) ->
  0 <= foldPart P f i.
Proof.
  intros HP Hi Hcirc. unfold foldPart.
  destruct (Circular (Opts f)); [|done].
  apply Z.mod_pos_bound. apply Z.div_str_pos. split; [done|by apply Hcirc].
Qed.

Lemma div_add_bound a b P :
  0 < P -> 0 <= a -> 0 <= b ->
  (a + b) `div` P - a `div` P + 1 <= b `div` P + 2.
Proof.
  intros HP Ha Hb.
  pose proof (Z.div_mod a P ltac:(lia)).
  pose proof (Z.div_mod b P ltac:(lia)).
  pose proof (Z.mod_pos_bound a P HP).
  pose proof (Z.mod_pos_bound b P HP).
  assert ((a + b) `div` P < a `div` P + b `div` P + 2); [|lia].
  apply Z.div_lt_upper_bound; lia.
Qed.

Section ReadingReturns.

Context {D : Type} `{!BackingStore D}.

(** [ReadAt] between pin and unpin, on a file whose descriptor is cached:
    it returns, from the adjusted offset, as many bytes as asked for, or as
    the file holds from there on if these are fewer. *)
Lemma readAtPinned_returns P fuel blockId name offset size (w : World D) e fe :
  0 < P ->
  Cache (store w) !! (blockId, name) = Some e ->
  Deleted e = false ->
  FileEntry e = Some fe ->
  (Circular (Opts (File fe)) = true ->
   P <= MaxSize (Opts (File fe)) <= Int64.max_int) ->
  0 <= MaxSize (Opts (File fe)) ->
  0 <= offset -> 0 <= size ->
  0 <= Size (File fe) <= Int64.max_int ->
  offset + 2 * size + 2 * P <= Int64.max_int ->
  (forall partsNeeded,
      (dbGetFileParts blockId name partsNeeded (db w)).2 = None) ->
  (Z.to_nat (size `div` P + 2) <= fuel)%nat ->
  let start :=
    if Circular (Opts (File fe)) && (MaxSize (Opts (File fe)) <? size)
    then offset + (size - MaxSize (Opts (File fe))) else offset in
  exists data,
    readAtPinned P fuel blockId name offset size w
    = Ret ((start, data, None), w) /\
    Z.of_nat (length data)
    = Z.max 0 (Z.min size (Size (File fe) - start)).
Proof.
  intros HP He Hdel Hfe Hcirc Hmax Hoff Hsize Hfsize Hrange Hdb Hfuel start.
  unfold Int64.max_int in Hrange, Hfsize.
  assert (0 <= start <= offset + size) as Hstart.
  { unfold start. destruct (Circular _ && _) eqn:Hc; [|lia].
    apply andb_true_iff in Hc as [_ Hc%Z.ltb_lt]. lia. }
  assert ((if Circular (Opts (File fe)) && (MaxSize (Opts (File fe)) <? size)
           then Int64.add offset (Int64.sub size (MaxSize (Opts (File fe))))
           else offset) = start) as Hadj.
  { unfold start. destruct (Circular _ && _) eqn:Hc; [|done].
    apply andb_true_iff in Hc as [_ Hc%Z.ltb_lt].
    rewrite Int64Facts.sub_id
      by (unfold Int64.in_range, Int64.min_int, Int64.max_int; lia).
    apply Int64Facts.add_id.
    unfold Int64.in_range, Int64.min_int, Int64.max_int; lia. }
  clearbody start.
  unfold readAtPinned.
  rewrite (M_bind_Ret _ _ _ _ _ (Stat_cached _ _ _ _ _ He Hdel Hfe)).
  cbn [DeepCopy]. cbn [Opts]. rewrite Hadj.
  set (f := {| BlockId := BlockId (File fe); Name := Name (File fe);
               Opts := Opts (File fe); CreatedTs := CreatedTs (File fe);
               Size := Size (File fe); ModTs := ModTs (File fe);
               Meta := copyMeta (Meta (File fe)) |}).
  assert (Circular (Opts f) = true -> P <= MaxSize (Opts f) <= Int64.max_int)
    as Hcircf by exact Hcirc.
  pose proof (div_add_bound start size P HP ltac:(lia) Hsize) as Hparts.
  rewrite (M_bind_Ret _ _ w _ w
             (liftO_Ret _ _ w
                (readAtPartsNeeded_spec P f HP Hcircf fuel start size
                   ltac:(lia) Hsize ltac:(unfold Int64.max_int; lia)
                   ltac:(lia)))).
  set (partsNeeded := foldPart P f <$> _).
  assert (Forall (fun i => 0 <= i) partsNeeded) as Hnonneg.
  { unfold partsNeeded, partRange. apply Forall_fmap, Forall_forall.
    intros i [j [-> Hj]%lookup_seqZ]%list_elem_of_lookup_1. simpl.
    apply foldPart_nonneg; [done| |intros Hc; by apply Hcircf].
    pose proof (Z.div_pos start P ltac:(lia) HP). lia. }
  specialize (Hdb partsNeeded).
  destruct (dbGetFileParts blockId name partsNeeded (db w))
    as [dataEntries err] eqn:Hquery.
  simpl in Hdb. subst err.
  rewrite (M_bind_Ret _ _ w (dataEntries, None) w);
    [|unfold dbQuery; by rewrite Hquery].
  destruct (readAtReconcile_returns start size partsNeeded dataEntries e fe
              Hfe Hnonneg) as (dataEntries' & Hrec).
  rewrite (Int64Facts.add_id start size) in Hrec
    by (unfold Int64.in_range, Int64.min_int, Int64.max_int; lia).
  set (size' := if Size (File fe) <? start + size
                then Int64.sub (Size (File fe)) start else size) in Hrec.
  rewrite (M_bind_Ret _ _ w ((size', dataEntries'), None) w); last first.
  { unfold withLockExists. munfold. rewrite He, Hdel, Hfe, Hrec. reflexivity. }
  cbn [fst snd].
  assert (size' = Z.min size (Size (File fe) - start)) as Hsize'.
  { unfold size'. destruct (Z.ltb_spec (Size (File fe)) (start + size)).
    - rewrite Int64Facts.sub_id
        by (unfold Int64.in_range, Int64.min_int, Int64.max_int; lia). lia.
    - lia. }
  destruct (readAtLoop_returns P f HP ltac:(unfold Int64.max_int; lia) Hcircf
              dataEntries' (Z.to_nat size') size' start [])
    as (data & Hloop & Hlen);
    [lia|lia|unfold Int64.max_int; lia|].
  exists data. split.
  - by rewrite (M_bind_Ret _ _ w _ w (liftO_Ret _ _ w Hloop)).
  - rewrite Hlen. simpl. lia.
Qed.

Lemma pin_cached blockId name (w : World D) e :
  Cache (store w) !! (blockId, name) = Some e ->
  exists w1,
    pinCacheEntry blockId name w = Ret (tt, w1) /\
    Cache (store w1) !! (blockId, name)
    = Some (setPinCount e (Int64.add (PinCount e) 1)) /\
    db w1 = db w.
Proof.
  intros He. unfold pinCacheEntry, withLock. munfold. rewrite He.
  eexists. split; [reflexivity|]. simpl. by rewrite lookup_insert_eq.
Qed.

(** [ReadAt] on a file whose descriptor is cached returns: the offset is the
    adjusted one, and the bytes are as many as asked for, or as the file
    holds from the adjusted offset on if these are fewer. *)
Lemma ReadAt_returns P fuel blockId name offset size (w : World D) e fe :
  0 < P ->
  Cache (store w) !! (blockId, name) = Some e ->
  Deleted e = false ->
  FileEntry e = Some fe ->
  (Circular (Opts (File fe)) = true ->
   P <= MaxSize (Opts (File fe)) <= Int64.max_int) ->
  0 <= MaxSize (Opts (File fe)) ->
  0 <= offset -> 0 <= size ->
  0 <= Size (File fe) <= Int64.max_int ->
  offset + 2 * size + 2 * P <= Int64.max_int ->
  (forall partsNeeded,
      (dbGetFileParts blockId name partsNeeded (db w)).2 = None) ->
  (Z.to_nat (size `div` P + 2) <= fuel)%nat ->
  let start :=
    if Circular (Opts (File fe)) && (MaxSize (Opts (File fe)) <? size)
    then offset + (size - MaxSize (Opts (File fe))) else offset in
  exists data w',
    ReadAt P fuel blockId name offset size w = Ret ((start, data, None), w') /\
    Z.of_nat (length data)
    = Z.max 0 (Z.min size (Size (File fe) - start)).
Proof.
  intros HP He Hdel Hfe Hcirc Hmax Hoff Hsize Hfsize Hrange Hdb Hfuel start.
  destruct (pin_cached _ _ _ _ He) as (w1 & Hpin & He1 & Hdb1).
  destruct (readAtPinned_returns P fuel blockId name offset size w1
              (setPinCount e (Int64.add (PinCount e) 1)) fe)
    as (data & Hbody & Hlen); try done.
  { intros partsNeeded. rewrite Hdb1. apply Hdb. }
  destruct (unpin_spec _ _ _ _ He1) as (w2 & Hunpin & _).
  exists data, w2. split; [|done].
  unfold ReadAt.
  rewrite (M_bind_Ret _ _ _ _ _ Hpin).
  rewrite (M_bind_Ret _ _ _ _ _ Hbody).
  by rewrite (M_bind_Ret _ _ _ _ _ Hunpin).
Qed.

End ReadingReturns.

(** C2. On a circular file, a [ReadAt] whose [size] exceeds [MaxSize] reads
    from the offset advanced by [size - MaxSize], and returns that offset
    with the bytes: every result carries it, and on a cached file with
    arguments in range there is a result.  With part size 16 and [MaxSize]
    32, after [WriteFile] of forty bytes ["A"], [ReadFile] returns offset 8
    and thirty-two bytes ["A"]. *)
Theorem ReadAt_circular_clamp :
  (forall D (S : BackingStore D) P fuel blockId name offset size
          (w w0 w' : World D) f off' data,
      Stat blockId name w = Ret ((Some f, None), w0) ->
      Circular (Opts f) = true ->
      MaxSize (Opts f) < size ->
      ReadAt P fuel blockId name offset size w = Ret ((off', data, None), w') ->
      off' = Int64.add offset (Int64.sub size (MaxSize (Opts f))) /\
      (Int64.in_range (size - MaxSize (Opts f)) ->
       Int64.in_range (offset + (size - MaxSize (Opts f))) ->
       off' = offset + (size - MaxSize (Opts f))) /\
      exists des amt,
        readAtLoop P (Z.to_nat amt) f des amt off' [] = Ret data) /\
  (forall D (S : BackingStore D) P fuel blockId name offset size
          (w : World D) e fe,
      0 < P ->
      Cache (store w) !! (blockId, name) = Some e ->
      Deleted e = false ->
      FileEntry e = Some fe ->
      Circular (Opts (File fe)) = true ->
      P <= MaxSize (Opts (File fe)) < size ->
      0 <= offset ->
      0 <= Size (File fe) <= Int64.max_int ->
      offset + 2 * size + 2 * P <= Int64.max_int ->
      (forall partsNeeded,
          (dbGetFileParts blockId name partsNeeded (db w)).2 = None) ->
      (Z.to_nat (size `div` P + 2) <= fuel)%nat ->
      exists data w',
        ReadAt P fuel blockId name offset size w
        = Ret ((offset + (size - MaxSize (Opts (File fe))), data, None), w') /\
        Z.of_nat (length data)
        = Z.max 0 (Z.min size
                     (Size (File fe)
                      - (offset + (size - MaxSize (Opts (File fe))))))) /\
  (forall fuel, (4 <= fuel)%nat ->
     exists w1 w2 w3,
       MakeFile 16 "b" "f" None (mkFileOpts (2 * 16) true false) emptyWorld
       = Ret (None, w1) /\
       WriteFile 16 "b" "f" (bytesA 40) w1 = Ret (None, w2) /\
       ReadFile 16 fuel "b" "f" w2 = Ret ((8, bytesA 32, None), w3)).
Proof.
  split; [|split].
  - intros D S P fuel blockId name offset size w w0 w' f off' data
      HStat Hcirc Hbig Hread.
    destruct (Stat_pin _ _ _ _ _ HStat) as (w1 & Hpin & HStat1).
    unfold ReadAt in Hread. rewrite (M_bind_Ret _ _ _ _ _ Hpin) in Hread.
    apply M_bind_inv in Hread as (rtn & w2 & Hbody & Hread).
    apply M_bind_inv in Hread as ([] & w3 & _ & Hret).
    injection Hret as -> _.
    destruct (readAtPinned_offset _ _ _ _ _ _ _ _ _ _ _ HStat1 Hbody)
      as [Hoff Hdata].
    rewrite Hcirc in Hoff, Hdata. simpl in Hoff, Hdata.
    destruct (Z.ltb_spec (MaxSize (Opts f)) size); [|lia].
    subst off'. split; [done|]. split; [|done].
    intros Hr1 Hr2.
    by rewrite Int64Facts.sub_id, Int64Facts.add_id.
  - intros D S P fuel blockId name offset size w e fe
      HP He Hdel Hfe Hcirc Hmax Hoff Hfsize Hrange Hdb Hfuel.
    pose proof (ReadAt_returns P fuel blockId name offset size w e fe HP He
                  Hdel Hfe) as Hret.
    rewrite Hcirc in Hret. simpl in Hret.
    destruct (Z.ltb_spec (MaxSize (Opts (File fe))) size); [|lia].
    apply Hret; try done; unfold Int64.max_int in *; lia.
  - intros fuel Hfuel.
    do 4 (destruct fuel as [|fuel]; [lia|]).
    eexists _, _, _.
    split; [vm_compute; reflexivity|].
    split; [vm_compute; reflexivity|].
    destruct fuel; vm_compute; reflexivity.
Qed.

(** Reading 40 bytes at offset 0 from the circular file written in the
    scenario: the offset returned is 8. *)
Lemma ReadAt_circular_clamp_witness :
  exists data w',
    ReadAt 16 4 "b" "f" 0 40 circularWorld = Ret ((8, data, None), w') /\
    8 = Int64.add 0 (Int64.sub 40 32).
Proof.
  destruct ReadAt_circular_clamp as (Hgeneral & _ & _).
  eexists _, _. split; [vm_compute; reflexivity|].
  eapply proj1.
  eapply (Hgeneral MemDB MemDB_store 16 4%nat "b" "f" 0 40
            circularWorld circularWorld _
            (mkBlockFile "b" "f" (mkFileOpts 32 true false)
               1700000000000 40 1700000000000 (Some ∅))).
  - vm_compute. reflexivity.
  - reflexivity.
  - simpl. lia.
  - vm_compute. reflexivity.
Defined.

(** * Further properties *)

(** Side conditions on concrete numbers. *)
Ltac side :=
  first [ reflexivity
        | lia
        | unfold Int64.max_int; lia
        | apply Nat.leb_le; reflexivity
        | simpl; unfold Int64.max_int; lia ].

(** ** Small helpers *)

Lemma maxOfIntArr_foldl (arr : list Z) (m : Z) :
  let r := foldl (fun max v => if max <? v then v else max) m arr in
  (r = m \/ r ∈ arr) /\ m <= r /\ Forall (fun x => x <= r) arr.
Proof.
  revert m. induction arr as [|v arr IH]; intros m; simpl.
  - split; [by left|]. split; [lia|constructor].
  - destruct (IH (if m <? v then v else m)) as ([Hr|Hr] & Hle & Hall);
      destruct (Z.ltb_spec m v).
    + split; [right; rewrite Hr; by left|]. split; [lia|].
      constructor; [lia|done].
    + split; [by left|]. split; [lia|]. constructor; [lia|done].
    + split; [right; by right|]. split; [lia|]. constructor; [lia|done].
    + split; [right; by right|]. split; [lia|]. constructor; [lia|done].
Qed.

(** X1. [maxOfIntArr] of the empty slice is 0; of any other slice it is one
    of the elements and no element exceeds it. *)
Theorem maxOfIntArr_is_maximum :
  maxOfIntArr [] = 0 /\
  forall v arr,
    maxOfIntArr (v :: arr) ∈ v :: arr /\
    Forall (fun x => x <= maxOfIntArr (v :: arr)) (v :: arr).
Proof.
  split; [done|]. intros v arr. simpl.
  destruct (maxOfIntArr_foldl arr v) as ([Hr|Hr] & Hle & Hall).
  - split; [rewrite Hr; by left|]. by constructor.
  - split; [by right|]. by constructor.
Qed.

Lemma stripNils_foldl {T} (arr acc : list (option T)) :
  foldl (fun newArr item =>
           match item with
           | None => newArr
           | Some _ => newArr ++ [item]
           end) acc arr
  = acc ++ (Some <$> omap id arr).
Proof.
  revert acc. induction arr as [|[x|] arr IH]; intros acc; simpl.
  - by rewrite app_nil_r.
  - rewrite IH, <- app_assoc. done.
  - apply IH.
Qed.

(** X2. [stripNils] keeps the items that are not nil, in their order, and
    nothing else. *)
Theorem stripNils_keeps_non_nil {T} (arr : list (option T)) :
  stripNils arr = Some <$> omap id arr /\
  (None ∉ stripNils arr) /\
  (None ∉ arr -> stripNils arr = arr).
Proof.
  unfold stripNils. rewrite stripNils_foldl. simpl.
  split; [done|]. split.
  - intros Hin. apply list_elem_of_fmap in Hin as (x & Hx & _). done.
  - induction arr as [|[x|] arr IH]; intros Hnone; simpl.
    + done.
    + f_equal. apply IH. intros Hin. apply Hnone. by right.
    + exfalso. apply Hnone. by left.
Qed.

(** ** Partition arithmetic *)

(** X3. On a circular file whose [MaxSize] is a multiple of the part size,
    the part of an offset is a number from 0 up to, not including,
    [MaxSize / partDataSize], and two offsets [MaxSize] apart have the same
    part. *)
Theorem partIdxAtOffset_circular P f offset :
  0 < P ->
  Circular (Opts f) = true ->
  0 <= offset ->
  offset + MaxSize (Opts f) <= Int64.max_int ->
  P <= MaxSize (Opts f) ->
  MaxSize (Opts f) `mod` P = 0 ->
  exists i,
    partIdxAtOffset P f offset = Ret i /\
    0 <= i < MaxSize (Opts f) `div` P /\
    partIdxAtOffset P f (offset + MaxSize (Opts f)) = Ret i.
Proof.
  intros HP Hcirc Hoff Hrange Hmax Hmult. unfold Int64.max_int in Hrange.
  assert (Circular (Opts f) = true ->
          P <= MaxSize (Opts f) <= Int64.max_int) as Hok
    by (unfold Int64.max_int; lia).
  exists (partContaining P f offset).
  rewrite !partIdxAtOffset_nonneg by (try done; unfold Int64.max_int; lia).
  unfold partContaining. rewrite Hcirc.
  assert (0 < MaxSize (Opts f) `div` P) as Hparts
    by (apply Z.div_str_pos; lia).
  split; [done|]. split; [by apply Z.mod_pos_bound|].
  f_equal.
  pose proof (Z.div_mod (MaxSize (Opts f)) P ltac:(lia)) as Hdm.
  rewrite Hmult, Z.add_0_r in Hdm.
  rewrite Hdm at 1.
  rewrite (Z.mul_comm P), Z.div_add by lia.
  rewrite <- (Z.mul_1_l (MaxSize (Opts f) `div` P)) at 1.
  by rewrite Z.mod_add by lia.
Qed.

Lemma partIdxAtOffset_circular_witness :
  exists i,
    partIdxAtOffset 16 (plainFile "b" "c" (mkFileOpts 32 true false) 100) 40
    = Ret i /\
    0 <= i < 32 `div` 16 /\
    partIdxAtOffset 16 (plainFile "b" "c" (mkFileOpts 32 true false) 100)
      (40 + 32) = Ret i.
Proof.
  apply (partIdxAtOffset_circular 16
           (plainFile "b" "c" (mkFileOpts 32 true false) 100) 40);
    try reflexivity; simpl; unfold Int64.max_int; lia.
Defined.

(** *** The part map of a write *)

Section PartMap.

Variable P : Z.
Variable f : BlockFile.
Hypothesis P_pos : 0 < P.
Hypothesis plain : Circular (Opts f) = false.

Lemma computePartMapLoop_spec start endv qe :
  0 <= start <= endv ->
  endv + P <= Int64.max_int ->
  (forall i, start `div` P <= i -> (i * P < endv <-> i < qe)) ->
  forall (r n : nat) (i0 : Z) (m0 : gmap Z Z),
    (r <= n)%nat ->
    start `div` P <= i0 ->
    i0 + Z.of_nat r = qe ->
    exists m,
      computePartMapLoop P n f start endv (i0 * P) m0 = Ret m /\
      forall i, m !! i = if decide (i0 <= i < qe)
                         then Some (bytesInPart P start endv i) else m0 !! i.
Proof.
  intros Hstart Hrange Hqe. unfold Int64.max_int in Hrange.
  pose proof (Z.div_mod start P ltac:(lia)) as Hdm.
  pose proof (Z.mod_pos_bound start P P_pos) as Hmod.
  induction r as [|r IH]; intros n i0 m0 Hn Hi0 Hr.
  - exists m0. split.
    + assert (~ i0 * P < endv) by (rewrite Hqe by done; lia).
      destruct n; simpl; by destruct (Z.ltb_spec (i0 * P) endv); [lia|].
    + intros i. destruct (decide (i0 <= i < qe)); [lia|done].
  - destruct n as [|n]; [lia|].
    assert (i0 * P < endv) as Hlt by (rewrite Hqe by done; lia).
    assert (0 <= i0) as Hi0pos.
    { pose proof (Z.div_pos start P ltac:(lia) P_pos). lia. }
    simpl. destruct (Z.ltb_spec (i0 * P) endv); [|lia].
    unfold partIdxAtOffset. rewrite plain.
    rewrite go_div_pos by (unfold Int64.max_int; nia).
    simpl. rewrite Z.div_mul by lia.
    rewrite (Int64Facts.add_id (i0 * P) P)
      by (unfold Int64.in_range, Int64.min_int, Int64.max_int; nia).
    replace (i0 * P + P) with ((i0 + 1) * P) by lia.
    set (v := Int64.sub _ _).
    destruct (IH n (i0 + 1) (<[i0 := v]> m0)) as (m & Hm & Hlook); [lia..|].
    exists m. split; [done|].
    assert (v = bytesInPart P start endv i0) as Hv.
    { unfold v, bytesInPart.
      destruct (Z.ltb_spec (i0 * P) start), (Z.ltb_spec start ((i0 + 1) * P)),
        (Z.ltb_spec endv ((i0 + 1) * P)); simpl;
        rewrite ?(Int64Facts.sub_id start (i0 * P)),
          ?(Int64Facts.sub_id endv (i0 * P))
          by (unfold Int64.in_range, Int64.min_int, Int64.max_int; nia);
        rewrite Int64Facts.sub_id
          by (unfold Int64.in_range, Int64.min_int, Int64.max_int; nia);
        nia. }
    intros i. rewrite Hlook.
    destruct (decide (i0 + 1 <= i < qe)), (decide (i0 <= i < qe)); try lia.
    + done.
    + assert (i = i0) as -> by lia. by rewrite lookup_insert_eq, Hv.
    + rewrite lookup_insert_ne by lia. done.
Qed.

Lemma computePartMap_returns fuel start size :
  0 <= start -> 0 <= size ->
  start + size + P <= Int64.max_int ->
  (Z.to_nat (size `div` P + 2) <= fuel)%nat ->
  exists m,
    computePartMap P fuel f start size = Ret m /\
    forall i, m !! i = if decide (start `div` P <= i /\ i * P < start + size)
                       then Some (bytesInPart P start (start + size) i)
                       else None.
Proof.
  intros Hstart Hsize Hrange Hfuel. unfold Int64.max_int in Hrange.
  pose proof (Z.div_mod start P ltac:(lia)) as Hdm.
  pose proof (Z.mod_pos_bound start P P_pos) as Hmod.
  unfold computePartMap.
  rewrite Int64Facts.add_id
    by (unfold Int64.in_range, Int64.min_int, Int64.max_int; lia).
  rewrite go_mod_pos by lia. simpl.
  rewrite Int64Facts.sub_id
    by (unfold Int64.in_range, Int64.min_int, Int64.max_int; lia).
  replace (start - start `mod` P) with (start `div` P * P) by lia.
  set (endv := start + size).
  set (qe := (endv + P - 1) `div` P).
  assert (forall i, i * P < endv <-> i < qe) as Hqe.
  { intros i. unfold qe. split; intros Hi.
    - assert (i + 1 <= qe); [|lia]. apply Z.div_le_lower_bound; lia.
    - pose proof (Z.mul_div_le (endv + P - 1) P P_pos). nia. }
  assert (start `div` P <= qe) as Hle.
  { unfold qe. apply Z.div_le_mono; lia. }
  assert (qe - start `div` P <= size `div` P + 2) as Hcount.
  { unfold qe, endv.
    pose proof (div_add_bound start size P P_pos Hstart Hsize).
    assert ((start + size + P - 1) `div` P <= (start + size) `div` P + 1);
      [|lia].
    replace (start + size + P - 1) with (start + size - 1 + 1 * P) by lia.
    rewrite Z.div_add by lia.
    assert ((start + size - 1) `div` P <= (start + size) `div` P); [|lia].
    apply Z.div_le_mono; lia. }
  destruct (computePartMapLoop_spec start endv qe ltac:(lia)
              ltac:(unfold Int64.max_int; lia) ltac:(intros; apply Hqe)
              (Z.to_nat (qe - start `div` P)) fuel (start `div` P) ∅
              ltac:(lia) ltac:(lia) ltac:(lia)) as (m & Hm & Hlook).
  exists m. split; [done|].
  intros i. rewrite Hlook, lookup_empty.
  destruct (decide (start `div` P <= i < qe)),
    (decide (start `div` P <= i /\ i * P < endv)); try done.
  - exfalso. apply n. split; [lia|]. apply Hqe. lia.
  - exfalso. apply n. split; [lia|]. apply Hqe. lia.
Qed.

(** X4. For a file that is not circular, [computePartMap] maps each part
    that the range [[startOffset, startOffset + size)] begins in or reaches
    into to the number of bytes of the range that fall into that part, and
    holds no other part. *)
Theorem computePartMap_bytes_per_part fuel start size :
  0 <= start -> 0 <= size ->
  start + size + P <= Int64.max_int ->
  (Z.to_nat (size `div` P + 2) <= fuel)%nat ->
  exists m,
    computePartMap P fuel f start size = Ret m /\
    forall i, m !! i = if decide (start `div` P <= i /\ i * P < start + size)
                       then Some (bytesInPart P start (start + size) i)
                       else None.
Proof. exact (computePartMap_returns fuel start size). Qed.

(** X5. For a file that is not circular, the incomplete parts of a write
    are among its first and its last part: every part strictly between them
    is planned in full, so at most two parts are loaded before the write. *)
Theorem incompleteParts_first_or_last fuel start size :
  0 <= start -> 0 < size ->
  start + size + P <= Int64.max_int ->
  (Z.to_nat (size `div` P + 2) <= fuel)%nat ->
  exists m,
    computePartMap P fuel f start size = Ret m /\
    forall i, i ∈ incompletePartsFromMap P m ->
              i = start `div` P \/ i = (start + size - 1) `div` P.
Proof.
  intros Hstart Hsize Hrange Hfuel.
  destruct (computePartMap_returns fuel start size Hstart ltac:(lia)
              Hrange Hfuel) as (m & Hm & Hlook).
  exists m. split; [done|].
  intros i Hi. unfold incompletePartsFromMap in Hi.
  apply list_elem_of_fmap in Hi as ([i' v] & -> & Hiv).
  apply list_elem_of_filter in Hiv as [Hne Hiv]. simpl in *.
  apply elem_of_map_to_list in Hiv. rewrite Hlook in Hiv.
  destruct (decide _) as [[Hlo Hhi]|]; [|done].
  injection Hiv as <-.
  destruct (decide (i' = start `div` P)) as [|Hnf]; [by left|right].
  destruct (decide (i' = (start + size - 1) `div` P)) as [|Hnl]; [done|].
  exfalso. apply Hne. unfold bytesInPart.
  pose proof (Z.div_mod start P ltac:(lia)).
  pose proof (Z.mod_pos_bound start P P_pos).
  pose proof (Z.div_mod (start + size - 1) P ltac:(lia)).
  pose proof (Z.mod_pos_bound (start + size - 1) P P_pos).
  assert (i' < (start + size - 1) `div` P).
  { assert (i' <= (start + size - 1) `div` P); [|lia].
    apply Z.div_le_lower_bound; lia. }
  nia.
Qed.

End PartMap.

Lemma computePartMap_bytes_per_part_witness :
  exists m,
    computePartMap 16 8 (plainFile "b" "f" (mkFileOpts 0 false false) 4) 10 30
    = Ret m /\
    forall i, m !! i = if decide (10 `div` 16 <= i /\ i * 16 < 10 + 30)
                       then Some (bytesInPart 16 10 (10 + 30) i)
                       else None.
Proof.
  apply (computePartMap_bytes_per_part 16
           (plainFile "b" "f" (mkFileOpts 0 false false) 4)); side.
Defined.

Lemma incompleteParts_first_or_last_witness :
  exists m,
    computePartMap 16 8 (plainFile "b" "f" (mkFileOpts 0 false false) 4) 10 60
    = Ret m /\
    forall i, i ∈ incompletePartsFromMap 16 m ->
              i = 10 `div` 16 \/ i = (10 + 60 - 1) `div` 16.
Proof.
  apply (incompleteParts_first_or_last 16
           (plainFile "b" "f" (mkFileOpts 0 false false) 4)); side.
Defined.

(** X6. The parts [ReadAt] asks the backing store for include every part
    that holds a byte of the range read; there are
    [(offset + size) / partDataSize - offset / partDataSize + 1] of them. *)
Theorem ReadAt_parts_cover P f fuel offset size :
  0 < P ->
  (Circular (Opts f) = true -> P <= MaxSize (Opts f) <= Int64.max_int) ->
  0 <= offset -> 0 <= size ->
  offset + size + 2 * P <= Int64.max_int ->
  (Z.to_nat ((offset + size) `div` P - offset `div` P + 1) <= fuel)%nat ->
  exists partsNeeded,
    readAtPartsNeeded P fuel f offset size = Ret partsNeeded /\
    (forall b, offset <= b < offset + size ->
               partContaining P f b ∈ partsNeeded) /\
    Z.of_nat (length partsNeeded)
    = (offset + size) `div` P - offset `div` P + 1.
Proof.
  intros HP Hcirc Hoff Hsize Hrange Hfuel.
  eexists. split; [by apply readAtPartsNeeded_spec|].
  assert (offset `div` P <= (offset + size) `div` P) as Hmono
    by (apply Z.div_le_mono; lia).
  split.
  - intros b Hb. rewrite partContaining_fold by done.
    apply list_elem_of_fmap. exists (b `div` P). split; [done|].
    unfold partRange. apply elem_of_seqZ.
    assert (offset `div` P <= b `div` P) by (apply Z.div_le_mono; lia).
    assert (b `div` P <= (offset + size) `div` P)
      by (apply Z.div_le_mono; lia).
    lia.
  - unfold partRange. rewrite length_fmap, length_seqZ. lia.
Qed.

Lemma ReadAt_parts_cover_witness :
  exists partsNeeded,
    readAtPartsNeeded 16 8 (plainFile "b" "c" (mkFileOpts 32 true false) 100)
      70 20 = Ret partsNeeded /\
    (forall b, 70 <= b < 70 + 20 ->
               partContaining 16
                 (plainFile "b" "c" (mkFileOpts 32 true false) 100) b
               ∈ partsNeeded) /\
    Z.of_nat (length partsNeeded) = (70 + 20) `div` 16 - 70 `div` 16 + 1.
Proof.
  apply (ReadAt_parts_cover 16
           (plainFile "b" "c" (mkFileOpts 32 true false) 100)); side.
Defined.

(** ** The scan of FlushCache *)

(** X7. The scan of [FlushCache] lists a key exactly when its entry holds a
    dirty file buffer or a dirty part, and lists no key twice. *)
Theorem dirtyCacheKeys_spec (s : BlockStore) :
  NoDup (dirtyCacheKeys s) /\
  forall key, key ∈ dirtyCacheKeys s <->
              exists e, Cache s !! key = Some e /\ entryDirty e = true.
Proof.
  unfold dirtyCacheKeys.
  apply (map_fold_weak_ind
           (fun (keys : list cacheKey) (m : gmap cacheKey CacheEntry) =>
              NoDup keys /\
              forall key, key ∈ keys <->
                          exists e, m !! key = Some e /\ entryDirty e = true)).
  - split; [constructor|]. intros key. split.
    + by intros ?%elem_of_nil.
    + intros (e & He & _). by rewrite lookup_empty in He.
  - intros k e m keys Hk [Hnodup Hkeys].
    assert (k ∉ keys) as Hfresh.
    { intros (e' & He' & _)%Hkeys. congruence. }
    assert ((if fileEntryDirty e then keys ++ [k]
             else if existsb dataEntryDirty (DataEntries e)
                  then keys ++ [k] else keys)
            = if entryDirty e then keys ++ [k] else keys) as ->.
    { unfold entryDirty. by destruct (fileEntryDirty e). }
    destruct (entryDirty e) eqn:Hdirty.
    + split.
      * apply NoDup_app. split; [done|]. split; [|apply NoDup_singleton].
        intros x Hx ->%list_elem_of_singleton. done.
      * intros key. rewrite elem_of_app, list_elem_of_singleton, Hkeys.
        split.
        -- intros [(e' & He' & Hd)| ->].
           ++ exists e'. split; [|done].
              rewrite lookup_insert_ne; [done|]. congruence.
           ++ exists e. by rewrite lookup_insert_eq.
        -- intros (e' & He' & Hd).
           destruct (decide (k = key)) as [->|Hne]; [by right|left].
           rewrite lookup_insert_ne in He' by done. eauto.
    + split; [done|]. intros key. rewrite Hkeys. split.
      * intros (e' & He' & Hd). exists e'. split; [|done].
        rewrite lookup_insert_ne; [done|]. congruence.
      * intros (e' & He' & Hd).
        destruct (decide (k = key)) as [->|Hne].
        -- rewrite lookup_insert_eq in He'. congruence.
        -- rewrite lookup_insert_ne in He' by done. eauto.
Qed.

(** ** Deleting and making files, again *)

Section Lifecycle.

Context {D : Type} `{!BackingStore D}.

(** X8. When the backing store fails to delete, [DeleteFile] returns the
    failure wrapped and does not touch the cache. *)
Theorem DeleteFile_store_failure blockId name (w : World D) e d' :
  dbDeleteFile blockId name (db w) = (Some e, d') ->
  exists w',
    DeleteFile blockId name w
    = Ret (Some (ErrWrap "error deleting file" e), w') /\
    store w' = store w /\ db w' = d'.
Proof.
  intros Hdb. unfold DeleteFile. munfold. rewrite Hdb.
  eexists. split; [reflexivity|]. done.
Qed.

(** X9. When the backing store deletes, [DeleteFile] returns no error; an
    entry of the key that is pinned or has write intentions stays in the
    cache, marked deleted, any other entry of the key is removed, and the
    entries of other keys are left alone.  From then on [Stat] on the key
    yields no cached descriptor. *)
Theorem DeleteFile_success blockId name (w : World D) d' :
  dbDeleteFile blockId name (db w) = (None, d') ->
  exists w',
    DeleteFile blockId name w = Ret (None, w') /\
    db w' = d' /\
    Cache (store w') !! (blockId, name)
    = (e ← Cache (store w) !! (blockId, name);
       if inUse e then Some (setDeleted e true) else None) /\
    (forall key, key <> (blockId, name) ->
                 Cache (store w') !! key = Cache (store w) !! key) /\
    (Stat blockId name w' = Ret ((None, None), w') \/
     Stat blockId name w' = Ret (dbGetBlockFile blockId name d', w')).
Proof.
  intros Hdb. unfold DeleteFile, withLock, inUse. munfold. rewrite Hdb.
  simpl.
  destruct (Cache (store w) !! (blockId, name)) as [e|] eqn:He; simpl.
  - destruct (_ || _); simpl.
    + eexists. split; [reflexivity|]. simpl. split; [done|].
      rewrite lookup_insert_eq. split; [done|].
      split; [intros key Hkey; by rewrite lookup_insert_ne|].
      left. unfold Stat, getFileFromCache. munfold. simpl.
      by rewrite lookup_insert_eq.
    + eexists. split; [reflexivity|]. simpl. split; [done|].
      rewrite lookup_delete_eq. split; [done|].
      split; [intros key Hkey; by rewrite lookup_delete_ne|].
      right. unfold Stat, getFileFromCache. munfold. simpl.
      by rewrite lookup_delete_eq.
  - exists (mkWorld (store w) d' (clock w)). split; [done|]. simpl.
    split; [done|]. rewrite He. split; [done|]. split; [done|].
    right. unfold Stat, getFileFromCache. munfold. simpl. by rewrite He.
Qed.

(** X10. [MakeFile] with valid options on a key whose cache entry is not a
    deleted entry free of pins and intentions returns an error, ["file
    exists"] for a live entry and ["file is deleted but has active
    requests"] for a deleted one, and changes neither the cache nor the
    backing store. *)
Theorem MakeFile_entry_in_the_way P blockId name meta opts (w : World D) e :
  P <> 0 ->
  validOpts opts ->
  Cache (store w) !! (blockId, name) = Some e ->
  isDeadTombstone e = false ->
  MakeFile P blockId name meta opts w
  = Ret (Some (ErrMsg (if Deleted e
                       then "file is deleted but has active requests"
                       else "file exists")), w).
Proof.
  intros HP [Hmax Hcirc] He Hlive. unfold MakeFile.
  destruct (Z.ltb_spec (MaxSize opts) 0); [lia|].
  assert (Circular opts && (MaxSize opts <=? 0) = false) as ->.
  { destruct (Circular opts); [|done]. destruct (Hcirc eq_refl).
    simpl. apply Z.leb_gt. lia. }
  assert (Circular opts && IJson opts = false) as ->.
  { destruct (Circular opts); [|done]. by destruct (Hcirc eq_refl) as [_ ->]. }
  destruct (roundMaxSize_returns P opts HP) as (opts' & Hround & _).
  rewrite (M_bind_Ret _ _ w _ w (liftO_Ret _ _ w Hround)).
  unfold withLock, makeFileCheck, isDeadTombstone in *. munfold. rewrite He.
  destruct (Deleted e); simpl in *; [|done].
  by rewrite Hlive.
Qed.

(** X11. After a [MakeFile] that returns no error the cache holds no entry
    for the key (so the new file is read from the backing store), and the
    entries of the other keys are as before. *)
Theorem MakeFile_success_no_entry P blockId name meta opts (w w' : World D) :
  MakeFile P blockId name meta opts w = Ret (None, w') ->
  Cache (store w') !! (blockId, name) = None /\
  (forall key, key <> (blockId, name) ->
               Cache (store w') !! key = Cache (store w) !! key) /\
  NextIntentionId (store w') = NextIntentionId (store w).
Proof.
  unfold MakeFile.
  destruct (MaxSize opts <? 0); [done|].
  destruct (Circular opts && (MaxSize opts <=? 0)); [done|].
  destruct (Circular opts && IJson opts); [done|].
  intros (opts' & w1 & Hround & Hrest)%M_bind_inv.
  assert (w1 = w) as ->.
  { unfold liftO in Hround. destruct (roundMaxSize P opts); congruence. }
  apply M_bind_inv in Hrest as (cacheErr & w2 & Hcheck & Hrest).
  destruct (makeFileCheck_cases blockId name w)
    as [(e & Hl & _)|(w2' & Hl & Hstore & _)]; rewrite Hl in Hcheck.
  - injection Hcheck as <- <-. done.
  - injection Hcheck as <- <-.
    revert Hrest. munfold. destruct (dbInsertFile _ _) as [err d'].
    intros [= -> <-]. simpl. rewrite Hstore.
    unfold dropDeadTombstone.
    destruct (Cache (store w) !! (blockId, name)) as [e|] eqn:He.
    + destruct (isDeadTombstone e) eqn:Hdead; simpl.
      * rewrite lookup_delete_eq. split; [done|].
        split; [intros key Hkey; by rewrite lookup_delete_ne|done].
      * exfalso. revert Hl. unfold withLock, makeFileCheck. munfold.
        rewrite He. unfold isDeadTombstone in Hdead.
        destruct (Deleted e); simpl in *; [|done]. by rewrite Hdead.
    + by rewrite He.
Qed.

End Lifecycle.

Lemma DeleteFile_store_failure_witness :
  exists w',
    DeleteFile "b" "f" stubbornWorld
    = Ret (Some (ErrWrap "error deleting file" (ErrMsg "delete failed")), w') /\
    store w' = store stubbornWorld /\ db w' = db stubbornWorld.
Proof.
  apply (DeleteFile_store_failure "b" "f" stubbornWorld).
  reflexivity.
Defined.

Lemma DeleteFile_success_witness :
  exists w',
    DeleteFile "b" "f" circularWorld = Ret (None, w') /\
    db w' = mkMemDB ∅ ∅ false false /\
    Cache (store w') !! ("b", "f")%string
    = (e ← Cache (store circularWorld) !! ("b", "f")%string;
       if inUse e then Some (setDeleted e true) else None) /\
    (forall key, key <> ("b", "f")%string ->
                 Cache (store w') !! key = Cache (store circularWorld) !! key) /\
    (Stat "b" "f" w' = Ret ((None, None), w') \/
     Stat "b" "f" w'
     = Ret (dbGetBlockFile "b" "f" (mkMemDB ∅ ∅ false false), w')).
Proof.
  apply (DeleteFile_success "b" "f" circularWorld).
  vm_compute. reflexivity.
Defined.

Lemma MakeFile_entry_in_the_way_witness :
  MakeFile 16 "b" "f" None (mkFileOpts 0 false false) dirtyWorld
  = Ret (Some (ErrMsg (if Deleted dirtyEntry
                       then "file is deleted but has active requests"
                       else "file exists")), dirtyWorld).
Proof.
  apply (MakeFile_entry_in_the_way 16 "b" "f" None (mkFileOpts 0 false false)
           dirtyWorld dirtyEntry).
  - lia.
  - split; simpl; [lia|discriminate].
  - reflexivity.
  - reflexivity.
Defined.

Lemma MakeFile_success_no_entry_witness :
  exists w',
    MakeFile 16 "b" "f" None (mkFileOpts 0 false false)
      (mkWorld (store tombstoneWorld) emptyDB 0) = Ret (None, w') /\
    Cache (store w') !! ("b", "f")%string = None /\
    (forall key, key <> ("b", "f")%string ->
                 Cache (store w') !! key
                 = Cache (store tombstoneWorld) !! key) /\
    NextIntentionId (store w') = NextIntentionId (store tombstoneWorld).
Proof.
  eexists. split; [vm_compute; reflexivity|].
  eapply (MakeFile_success_no_entry 16 "b" "f" None
            (mkFileOpts 0 false false)
            (mkWorld (store tombstoneWorld) emptyDB 0)).
  vm_compute. reflexivity.
Defined.

(** ** Reading, again *)

Section ReadingMore.

Context {D : Type} `{!BackingStore D}.

Lemma Stat_world blockId name (w w' : World D) r :
  Stat blockId name w = Ret (r, w') -> w' = w.
Proof.
  unfold Stat, getFileFromCache. munfold.
  destruct (Cache (store w) !! (blockId, name)) as [e|]; simpl.
  - destruct (Deleted e); [congruence|].
    destruct (FileEntry e); simpl; congruence.
  - congruence.
Qed.

Lemma liftO_inv {A} (o : outcome A) (w w' : World D) a :
  liftO o w = Ret (a, w') -> o = Ret a /\ w' = w.
Proof. unfold liftO. destruct o; [|done..]. by intros [= -> ->]. Qed.

Lemma readAtPinned_world P fuel blockId name offset size (w w' : World D) r :
  readAtPinned P fuel blockId name offset size w = Ret (r, w') -> w' = w.
Proof.
  unfold readAtPinned.
  intros ([file err] & w1 & HStat & Hrest)%M_bind_inv.
  apply Stat_world in HStat as ->.
  destruct err; [by injection Hrest as _ <-|].
  destruct file as [file|]; [|done].
  apply M_bind_inv in Hrest as (parts & w1 & [_ ->]%liftO_inv & Hrest).
  apply M_bind_inv in Hrest as ([des err] & w1 & Hq & Hrest).
  unfold dbQuery in Hq. injection Hq as _ <-.
  destruct err; [by injection Hrest as _ <-|].
  apply M_bind_inv in Hrest as ([sd err] & w1 & Hlock & Hrest).
  assert (w1 = w) as ->.
  { revert Hlock. unfold withLockExists. munfold.
    destruct (Cache (store w) !! (blockId, name)) as [e|]; [|congruence].
    destruct (Deleted e); [congruence|].
    destruct (FileEntry e); [|congruence].
    destruct (readAtReconcile _ _ _ _ _); congruence. }
  destruct err; [by injection Hrest as _ <-|].
  apply M_bind_inv in Hrest as (rtn & w1 & [_ ->]%liftO_inv & Hrest).
  by injection Hrest as _ <-.
Qed.

(** X12. When [Stat] yields neither a file nor an error (the key's entry is
    marked deleted, or the backing store has no such file), [ReadAt]
    dereferences the nil descriptor and panics, whereas [ReadFile] returns
    the error ["file not found"]. *)
Theorem ReadAt_nil_file P fuel blockId name offset size (w w0 : World D) :
  Stat blockId name w = Ret ((None, None), w0) ->
  ReadAt P fuel blockId name offset size w = Panic NilDereference /\
  ReadFile P fuel blockId name w
  = Ret ((0, [], Some (ErrMsg "file not found")), w).
Proof.
  intros HStat. split.
  - destruct (Stat_pin _ _ _ _ _ HStat) as (w1 & Hpin & HStat1).
    unfold ReadAt. rewrite (M_bind_Ret _ _ _ _ _ Hpin).
    unfold readAtPinned. unfold mbind at 1, M_bind.
    by rewrite (M_bind_Ret _ _ _ _ _ HStat1).
  - pose proof (Stat_world _ _ _ _ _ HStat) as ->.
    unfold ReadFile. by rewrite (M_bind_Ret _ _ _ _ _ HStat).
Qed.

(** X13. [ReadAt] on a key that has a cache entry leaves the cache, the
    backing store and the clock exactly as they were, whatever it returns:
    the pin it takes is released, and nothing else is written. *)
Theorem ReadAt_read_only P fuel blockId name offset size (w w' : World D) e r :
  Cache (store w) !! (blockId, name) = Some e ->
  Int64.min_int <= PinCount e < Int64.max_int ->
  ReadAt P fuel blockId name offset size w = Ret (r, w') ->
  w' = w.
Proof.
  intros He Hpc. unfold ReadAt.
  intros ([] & w1 & Hpin & Hrest)%M_bind_inv.
  apply M_bind_inv in Hrest as (rtn & w2 & Hbody & Hrest).
  apply readAtPinned_world in Hbody as ->.
  apply M_bind_inv in Hrest as ([] & w3 & Hunpin & Hret).
  injection Hret as _ <-.
  revert Hpin Hunpin. unfold pinCacheEntry, unpinCacheEntry, withLock.
  munfold. rewrite He. intros [= <-]. simpl. rewrite lookup_insert_eq.
  intros [= <-]. simpl.
  rewrite insert_insert_eq.
  assert (Int64.sub (Int64.add (PinCount e) 1) 1 = PinCount e) as ->.
  { unfold Int64.min_int, Int64.max_int in Hpc.
    rewrite Int64Facts.add_id
      by (unfold Int64.in_range, Int64.min_int, Int64.max_int; lia).
    rewrite Int64Facts.sub_id
      by (unfold Int64.in_range, Int64.min_int, Int64.max_int; lia).
    lia. }
  assert (setPinCount (setPinCount e (Int64.add (PinCount e) 1)) (PinCount e)
          = e) as -> by by destruct e.
  rewrite insert_id by done.
  destruct w as [[cache next] d c]. done.
Qed.

(** X14. [ReadAt] does not load the descriptor into the cache: on a file
    that the backing store holds and the cache does not, it returns the
    error ["error reconciling cache entries: file not found"]. *)
Theorem ReadAt_uncached_file P fuel blockId name offset size
    (w w0 : World D) f :
  0 < P ->
  Stat blockId name w = Ret ((Some f, None), w0) ->
  cachedFile w (blockId, name) = None ->
  (Circular (Opts f) = true -> P <= MaxSize (Opts f) <= Int64.max_int) ->
  0 <= MaxSize (Opts f) ->
  0 <= offset -> 0 <= size ->
  offset + 2 * size + 2 * P <= Int64.max_int ->
  (forall partsNeeded,
      (dbGetFileParts blockId name partsNeeded (db w)).2 = None) ->
  (Z.to_nat (size `div` P + 2) <= fuel)%nat ->
  exists w',
    ReadAt P fuel blockId name offset size w
    = Ret ((0, [],
            Some (ErrWrap "error reconciling cache entries"
                    (ErrMsg "file not found"))), w').
Proof.
  intros HP HStat Hcached Hcirc Hmax Hoff Hsize Hrange Hdb Hfuel.
  unfold Int64.max_int in Hrange.
  destruct (Stat_pin _ _ _ _ _ HStat) as (w1 & Hpin & HStat1).
  (* after the pin the key has an entry without file buffer *)
  assert (exists e1, Cache (store w1) !! (blockId, name) = Some e1 /\
                     FileEntry e1 = None /\ db w1 = db w)
    as (e1 & He1 & Hfe1 & Hdb1).
  { revert Hpin Hcached. unfold pinCacheEntry, withLock, cachedFile. munfold.
    destruct (Cache (store w) !! (blockId, name)) as [e|]; intros [= <-];
      simpl; rewrite lookup_insert_eq.
    - destruct (FileEntry e) eqn:Hfe; [done|]. intros _.
      eexists. split; [done|]. by split.
    - intros _. eexists. split; [done|]. by split. }
  destruct (unpin_spec _ _ _ _ He1) as (w2 & Hunpin & _).
  exists w2. unfold ReadAt.
  rewrite (M_bind_Ret _ _ _ _ _ Hpin).
  rewrite (M_bind_Ret _ _ w1
             (0, [], Some (ErrWrap "error reconciling cache entries"
                             (ErrMsg "file not found"))) w1);
    [by rewrite (M_bind_Ret _ _ _ _ _ Hunpin)|].
  unfold readAtPinned. rewrite (M_bind_Ret _ _ _ _ _ HStat1).
  set (start := if Circular (Opts f) && (MaxSize (Opts f) <? size)
                then Int64.add offset (Int64.sub size (MaxSize (Opts f)))
                else offset).
  assert (0 <= start <= offset + size) as Hstart.
  { unfold start. destruct (Circular _ && _) eqn:Hc; [|lia].
    apply andb_true_iff in Hc as [_ Hc%Z.ltb_lt].
    rewrite Int64Facts.sub_id
      by (unfold Int64.in_range, Int64.min_int, Int64.max_int; lia).
    rewrite Int64Facts.add_id
      by (unfold Int64.in_range, Int64.min_int, Int64.max_int; lia).
    lia. }
  pose proof (div_add_bound start size P HP ltac:(lia) Hsize) as Hparts.
  rewrite (M_bind_Ret _ _ w1 _ w1
             (liftO_Ret _ _ w1
                (readAtPartsNeeded_spec P f HP Hcirc fuel start size
                   ltac:(lia) Hsize ltac:(unfold Int64.max_int; lia)
                   ltac:(lia)))).
  set (partsNeeded := foldPart P f <$> _).
  specialize (Hdb partsNeeded). rewrite <- Hdb1 in Hdb.
  destruct (dbGetFileParts blockId name partsNeeded (db w1))
    as [dataEntries err] eqn:Hquery.
  simpl in Hdb. subst err.
  rewrite (M_bind_Ret _ _ w1 (dataEntries, None) w1);
    [|unfold dbQuery; by rewrite Hquery].
  rewrite (M_bind_Ret _ _ w1 ((size, dataEntries),
                              Some (ErrMsg "file not found")) w1); [done|].
  unfold withLockExists. munfold. rewrite He1.
  destruct (Deleted e1); [done|]. by rewrite Hfe1.
Qed.

(** X15. On a cached file that is not circular, [ReadAt] returns the offset
    it was given and [min size (Size - offset)] bytes, none when the offset
    lies at or beyond the end of the file. *)
Theorem ReadAt_plain_length P fuel blockId name offset size (w : World D)
    e fe :
  0 < P ->
  Cache (store w) !! (blockId, name) = Some e ->
  Deleted e = false ->
  FileEntry e = Some fe ->
  Circular (Opts (File fe)) = false ->
  0 <= MaxSize (Opts (File fe)) ->
  0 <= offset -> 0 <= size ->
  0 <= Size (File fe) <= Int64.max_int ->
  offset + 2 * size + 2 * P <= Int64.max_int ->
  (forall partsNeeded,
      (dbGetFileParts blockId name partsNeeded (db w)).2 = None) ->
  (Z.to_nat (size `div` P + 2) <= fuel)%nat ->
  exists data w',
    ReadAt P fuel blockId name offset size w = Ret ((offset, data, None), w') /\
    Z.of_nat (length data) = Z.max 0 (Z.min size (Size (File fe) - offset)).
Proof.
  intros HP He Hdel Hfe Hplain Hmax Hoff Hsize Hfsize Hrange Hdb Hfuel.
  pose proof (ReadAt_returns P fuel blockId name offset size w e fe HP He
                Hdel Hfe) as Hret.
  rewrite Hplain in Hret. simpl in Hret.
  apply Hret; done.
Qed.

End ReadingMore.

Lemma ReadAt_nil_file_witness :
  ReadAt 16 8 "b" "f" 0 4 emptyWorld = Panic NilDereference /\
  ReadFile 16 8 "b" "f" emptyWorld
  = Ret ((0, [], Some (ErrMsg "file not found")), emptyWorld).
Proof.
  apply (ReadAt_nil_file 16 8 "b" "f" 0 4 emptyWorld emptyWorld).
  reflexivity.
Defined.

Lemma ReadAt_read_only_witness :
  exists r, ReadAt 16 8 "b" "f" 0 4 dirtyWorld = Ret (r, dirtyWorld).
Proof.
  destruct (ReadAt 16 8 "b" "f" 0 4 dirtyWorld) as [[r w']| |] eqn:Hread;
    [|vm_compute in Hread; discriminate..].
  exists r. do 2 f_equal.
  eapply (ReadAt_read_only 16 8 "b" "f" 0 4 dirtyWorld w' dirtyEntry r).
  - reflexivity.
  - simpl. unfold Int64.min_int, Int64.max_int. lia.
  - exact Hread.
Defined.

Lemma ReadAt_uncached_file_witness :
  exists w',
    ReadAt 16 8 "b" "f" 0 4 storedWorld
    = Ret ((0, [],
            Some (ErrWrap "error reconciling cache entries"
                    (ErrMsg "file not found"))), w').
Proof.
  apply (ReadAt_uncached_file 16 8 "b" "f" 0 4 storedWorld storedWorld
           (plainFile "b" "f" (mkFileOpts 0 false false) 4));
    first [side | discriminate | intros; reflexivity].
Defined.

Lemma ReadAt_plain_length_witness :
  exists data w',
    ReadAt 16 8 "b" "f" 2 10 dirtyWorld = Ret ((2, data, None), w') /\
    Z.of_nat (length data) = Z.max 0 (Z.min 10 (5 - 2)).
Proof.
  apply (ReadAt_plain_length 16 8 "b" "f" 2 10 dirtyWorld dirtyEntry
           (mkFileCacheEntry true false
              (plainFile "b" "f" (mkFileOpts 0 false false) 5)));
    first [side | intros; reflexivity].
Defined.

(** ** Listing files *)

Lemma strip_or_keep {T} (l : list (option T)) :
  (if existsb (fun x => bool_decide (x = None)) l then stripNils l else l)
  = Some <$> omap id l.
Proof.
  destruct (existsb _ l) eqn:Hex.
  - unfold stripNils. by rewrite stripNils_foldl.
  - induction l as [|[x|] l IH]; simpl in *; [done| |done].
    f_equal. by apply IH.
Qed.

Lemma omap_id_fmap {A B} (g : A -> option B) (l : list A) :
  omap id (g <$> l) = omap g l.
Proof.
  induction l as [|x l IH]; csimpl; [done|].
  rewrite IH. by destruct (g x).
Qed.

Section Listing.

Context {D : Type} `{!BackingStore D}.
Variable dbGetBlockFiles : string -> D -> list BlockFile * option error.

Lemma getFileFromCache_washOne (w : World D) (dbFile : BlockFile) :
  exists cacheFile ok,
    getFileFromCache (BlockId dbFile) (Name dbFile) w
    = Ret ((cacheFile, ok), w) /\
    washOne w dbFile = (if ok then cacheFile else Some dbFile).
Proof.
  unfold getFileFromCache, washOne. munfold.
  destruct (Cache (store w) !! (BlockId dbFile, Name dbFile)) as [e|]; simpl.
  - destruct (Deleted e); [by eexists _, _|].
    destruct (FileEntry e); by eexists _, _.
  - by eexists _, _.
Qed.

Lemma washFiles_spec (w : World D) (todo : list BlockFile) :
  forall (done_ : list (option BlockFile)) (hasNils : bool),
    washFiles (length done_) todo (done_ ++ (Some <$> todo)) hasNils w
    = Ret ((done_ ++ (washOne w <$> todo),
            hasNils
            || existsb (fun x => bool_decide (x = None)) (washOne w <$> todo)),
           w).
Proof.
  induction todo as [|dbFile todo IH]; intros done_ hasNils; simpl.
  - by rewrite orb_false_r.
  - destruct (getFileFromCache_washOne w dbFile)
      as (cacheFile & ok & Hget & Hwash).
    rewrite (M_bind_Ret _ _ _ _ _ Hget). rewrite Hwash.
    destruct ok.
    + rewrite insert_app_r_alt by lia. rewrite Nat.sub_diag. simpl.
      pose proof (IH (done_ ++ [cacheFile])
                    (match cacheFile with
                     | Some _ => hasNils | None => true end)) as IH'.
      rewrite length_app, <- app_assoc in IH'. simpl in IH'.
      rewrite Nat.add_1_r in IH'.
      etrans; [exact IH'|].
      rewrite <- app_assoc. simpl. do 3 f_equal.
      destruct cacheFile; simpl; [done|]. by rewrite orb_true_r.
    + pose proof (IH (done_ ++ [Some dbFile]) hasNils) as IH'.
      rewrite length_app, <- app_assoc in IH'. simpl in IH'.
      rewrite Nat.add_1_r in IH'.
      etrans; [exact IH'|].
      by rewrite <- app_assoc.
Qed.

(** X16. When the backing store lists the files of a block, [ListFiles]
    returns them in that order, each replaced by a deep copy of the cached
    descriptor if the cache holds one, left out if its cache entry is marked
    deleted, and as the backing store gave it otherwise; the world is not
    changed.  When the listing fails, [ListFiles] returns no files and the
    failure, wrapped. *)
Theorem ListFiles_washes blockId (w : World D) files err :
  dbGetBlockFiles blockId (db w) = (files, err) ->
  ListFiles dbGetBlockFiles blockId w
  = Ret (match err with
         | None => (Some <$> omap (washOne w) files, None)
         | Some e => ([], Some (ErrWrap "error getting block files" e))
         end, w).
Proof.
  intros Hdb. unfold ListFiles.
  rewrite (M_bind_Ret _ _ w (files, err) w); [|unfold dbQuery; by rewrite Hdb].
  destruct err; [done|].
  pose proof (washFiles_spec w files [] false) as Hwash. simpl in Hwash.
  rewrite (M_bind_Ret _ _ _ _ _ Hwash).
  unfold mret, M_ret. do 3 f_equal.
  by rewrite strip_or_keep, omap_id_fmap.
Qed.

End Listing.

(** In [listWorld], the listing of block ["b"] is the cached descriptor of
    ["f"] (size 5, not the stored size 0) and the stored record of ["h"];
    ["g"], marked deleted, is left out. *)
Lemma ListFiles_washes_witness :
  exists files,
    memGetBlockFiles "b" (db listWorld) = (files, None) /\
    ListFiles memGetBlockFiles "b" listWorld
    = Ret ((Some <$> omap (washOne listWorld) files, None), listWorld) /\
    Size <$> omap (washOne listWorld) files = [5; 9].
Proof.
  eexists. split; [vm_compute; reflexivity|]. split.
  - apply (ListFiles_washes memGetBlockFiles "b" listWorld _ None).
    vm_compute. reflexivity.
  - vm_compute. reflexivity.
Defined.

(** ** Flushing one entry *)

Lemma no_dirty_parts (l : list (option DataCacheEntry)) :
  bool_decide (length (omap isDirtyPart l) = 0%nat)
  = negb (existsb dataEntryDirty l).
Proof.
  induction l as [|[d|] l IH]; csimpl; [done| |done].
  unfold isDirtyPart. destruct (Dirty d); csimpl; [done|exact IH].
Qed.

Lemma markFlushing_dirty (l : list (option DataCacheEntry)) :
  existsb dataEntryDirty (markFlushing <$> l) = existsb dataEntryDirty l.
Proof.
  induction l as [|[d|] l IH]; csimpl; [done| |done].
  rewrite IH. by destruct (Dirty d) eqn:Hd; simpl; rewrite Hd.
Qed.

(** A call that leaves the parts as it got them leaves the slots as
    [getDirtyDataEntries] marked them. *)
Lemma putBack_untouched (l : list (option DataCacheEntry)) :
  putBack (markFlushing <$> l) (setFlushing <$> omap isDirtyPart l)
  = markFlushing <$> l.
Proof.
  induction l as [|[d|] l IH]; csimpl; [done| |by rewrite IH].
  destruct (Dirty d) eqn:Hd; csimpl; rewrite ?Hd; csimpl; by rewrite IH.
Qed.

(** A call that unsets the flags of every part it got leaves no slot
    dirty. *)
Lemma putBack_clean (l : list (option DataCacheEntry)) :
  existsb dataEntryDirty
    (putBack (markFlushing <$> l)
       (cleanPart <$> (setFlushing <$> omap isDirtyPart l)))
  = false.
Proof.
  induction l as [|[d|] l IH]; csimpl; [done| |exact IH].
  destruct (Dirty d) eqn:Hd; csimpl; rewrite ?Hd; csimpl; [exact IH|].
  by rewrite Hd.
Qed.

Section Flushing.

Context {D : Type} `{!BackingStore D}.
Variable dbWriteCacheEntry :
  option FileCacheEntry -> list DataCacheEntry -> D ->
  (option error * (option FileCacheEntry * list DataCacheEntry)) * D.

(** X17. [flushEntry] on an entry that is marked deleted, or has no file
    buffer, or holds nothing dirty, writes nothing to the backing store and
    returns no error; it removes the entry from the cache, unless the entry
    is pinned or has a write intention, in which case the cache stays as it
    is. *)
Theorem flushEntry_nothing_to_write (w : World D) (e : CacheEntry) :
  Cache (store w) !! (EntryBlockId e, EntryName e) = Some e ->
  nothingToFlush e = true ->
  exists w',
    flushEntry dbWriteCacheEntry (EntryBlockId e) (EntryName e) w
    = Ret (None, w') /\
    db w' = db w /\
    Cache (store w')
    = (if inUse e then Cache (store w)
       else delete (EntryBlockId e, EntryName e) (Cache (store w))).
Proof.
  intros He Hclean.
  assert (getDirtyDataEntries (EntryBlockId e) (EntryName e) w
          = Ret ((None, []), w)) as Hget.
  { unfold getDirtyDataEntries, nothingToFlush in *. munfold. rewrite He.
    destruct (Deleted e); [done|]. simpl in Hclean.
    destruct (FileEntry e) as [fe|]; [|done].
    rewrite no_dirty_parts. by rewrite Hclean. }
  unfold flushEntry. rewrite (M_bind_Ret _ _ _ _ _ Hget).
  unfold tryDeleteCacheEntry, inUse. munfold. rewrite He.
  destruct (0 <? PinCount e); simpl; [by eexists|].
  destruct (negb _); simpl; by eexists.
Qed.

(** X18. [flushEntry] on a live entry whose file buffer or one of whose
    parts is dirty hands [dbWriteCacheEntry] the file buffer and the dirty
    parts, in index order and marked flushing, and returns the error of that
    call; the store is as the call leaves it.  [flushEntry] itself unsets no
    flag.  Afterwards the entry is still in the cache, with its pins and
    intentions, and holds the buffers as the call left them: the file
    buffer, and every dirty part in the slot it came from; the other parts
    are as before.  So after a call that left the parts untouched the dirty
    parts are dirty and flushing, and after a call that unset [Dirty] and
    [Flushing] on the file buffer and on every part the entry has nothing
    left to flush. *)
Theorem flushEntry_writes_dirty (w : World D) (e : CacheEntry) err
    fileAfter partsAfter d' :
  Cache (store w) !! (EntryBlockId e, EntryName e) = Some e ->
  nothingToFlush e = false ->
  dbWriteCacheEntry (FileEntry e)
    (setFlushing <$> omap isDirtyPart (DataEntries e)) (db w)
  = ((err, (fileAfter, partsAfter)), d') ->
  let handed := setFlushing <$> omap isDirtyPart (DataEntries e) in
  let e' :=
    setFileEntry
      (setDataEntries e (putBack (markFlushing <$> DataEntries e) partsAfter))
      (match fileAfter with Some fe => Some fe | None => FileEntry e end) in
  (exists w',
      flushEntry dbWriteCacheEntry (EntryBlockId e) (EntryName e) w
      = Ret (err, w') /\
      db w' = d' /\
      Cache (store w')
      = <[(EntryBlockId e, EntryName e) := e']> (Cache (store w))) /\
  (partsAfter = handed ->
   DataEntries e' = markFlushing <$> DataEntries e /\
   existsb dataEntryDirty (DataEntries e')
   = existsb dataEntryDirty (DataEntries e)) /\
  (partsAfter = cleanPart <$> handed ->
   (exists fe, fileAfter = Some fe /\ FileDirty fe = false) ->
   nothingToFlush e' = true).
Proof.
  intros He Hdirty Hdb handed e'.
  unfold nothingToFlush in Hdirty.
  destruct (Deleted e) eqn:Hdel; [done|]. simpl in Hdirty.
  destruct (FileEntry e) as [fe|] eqn:Hfe; [|done].
  assert (forall l : list (option DataCacheEntry),
             (fun dce => match isDirtyPart dce with
                         | Some d => Some (setFlushing d)
                         | None => dce
                         end) <$> l = markFlushing <$> l) as Hmark.
  { intros l. apply list_fmap_ext. intros _ [d|] _; [|done].
    simpl. by destruct (Dirty d). }
  split; [|split].
  - eexists. split; [|split].
    + unfold flushEntry, getDirtyDataEntries, storeBuffers. munfold.
      rewrite He, Hdel, Hfe.
      rewrite no_dirty_parts, Hdirty. simpl.
      destruct (setFlushing <$> omap isDirtyPart (DataEntries e)) eqn:Hparts;
        rewrite Hdb; simpl; rewrite lookup_insert_eq; simpl;
        destruct err; reflexivity.
    + done.
    + simpl. rewrite insert_insert_eq, Hmark. subst e'.
      unfold setFileEntry, setDataEntries. simpl. by rewrite Hfe.
  - intros ->. subst e' handed. simpl. rewrite putBack_untouched.
    split; [done|]. apply markFlushing_dirty.
  - intros -> (fe' & -> & Hclean). subst e' handed.
    unfold nothingToFlush. simpl. rewrite Hdel, Hclean. simpl.
    by rewrite putBack_clean.
Qed.

End Flushing.

(** The deleted, pinned entry ["g"] of [listWorld] has nothing to flush and
    stays in the cache. *)
Lemma flushEntry_nothing_to_write_witness :
  exists e w',
    Cache (store listWorld) !! ("b", "g")%string = Some e /\
    flushEntry memWriteCacheEntry "b" "g" listWorld = Ret (None, w') /\
    db w' = db listWorld /\
    Cache (store w') = Cache (store listWorld).
Proof.
  eexists.
  destruct (flushEntry_nothing_to_write memWriteCacheEntry listWorld
              {| EntryBlockId := "b"; EntryName := "g"; WriteIntentions := ∅;
                 Deleted := true; PinCount := 1; FileEntry := None;
                 DataEntries := [] |}) as (w' & Hrun & Hdb & Hcache);
    [reflexivity|reflexivity|].
  exists w'. split; [reflexivity|]. split; [exact Hrun|].
  split; [exact Hdb|exact Hcache].
Defined.

(** Flushing [dirtyEntry] into the in-memory store, whose write unsets the
    flags: the store then has the descriptor and the part, and the entry
    has nothing left to flush. *)
Lemma flushEntry_writes_dirty_witness :
  exists w',
    flushEntry memWriteCacheEntry "b" "f" dirtyWorld = Ret (None, w') /\
    files (db w') !! ("b", "f")%string
    = Some (plainFile "b" "f" (mkFileOpts 0 false false) 5) /\
    parts (db w') !! ("b", "f")%string
    = Some {[ 0 := mkDataCacheEntry true true 0 (bytesA 5) ]} /\
    (nothingToFlush <$> Cache (store w') !! ("b", "f")%string) = Some true.
Proof.
  destruct (flushEntry_writes_dirty memWriteCacheEntry dirtyWorld dirtyEntry
              None
              (Some (mkFileCacheEntry false false
                       (plainFile "b" "f" (mkFileOpts 0 false false) 5)))
              [mkDataCacheEntry false false 0 (bytesA 5)]
              (mkMemDB
                 {[ ("b", "f")%string :=
                      plainFile "b" "f" (mkFileOpts 0 false false) 5 ]}
                 {[ ("b", "f")%string :=
                      {[ 0 := mkDataCacheEntry true true 0 (bytesA 5) ]} ]}
                 false false))
    as ((w' & Hrun & Hdb & Hcache) & _ & Hclean);
    [reflexivity|reflexivity|reflexivity|].
  exists w'. split; [exact Hrun|]. split; [|split].
  - rewrite Hdb. reflexivity.
  - rewrite Hdb. reflexivity.
  - rewrite Hcache. rewrite lookup_insert_eq. apply (f_equal Some).
    apply Hclean; [reflexivity|]. by eexists.
Defined.

(** ** Writing into a part *)

Lemma sliceRange_take {A} (l : list A) (hi : Z) :
  0 <= hi <= Z.of_nat (length l) ->
  sliceRange l 0 hi = Ret (take (Z.to_nat hi) l).
Proof.
  intros Hhi. unfold sliceRange.
  destruct (Z.leb_spec 0 0); [|lia].
  destruct (Z.leb_spec 0 hi); [|lia].
  destruct (Z.leb_spec hi (Z.of_nat (length l))); [|lia].
  simpl. by rewrite Z.sub_0_r.
Qed.

Lemma take_padded {A} (x : A) (l : list A) (n k1 k2 : nat) :
  (n <= length l + k1)%nat -> (n <= length l + k2)%nat ->
  take n (l ++ replicate k1 x) = take n (l ++ replicate k2 x).
Proof.
  intros H1 H2. rewrite !take_app, !take_replicate. do 2 f_equal. lia.
Qed.

Lemma Part_writeToPart_returns (P offset : Z) (data : list byte)
    (dce : DataCacheEntry) :
  0 <= offset < P -> P <= Int64.max_int ->
  let n := Z.min (Z.of_nat (length data)) (P - offset) in
  let old := if Flushing dce then [] else Data dce in
  Part.writeToPart P offset data dce
  = Ret (n, {| Dirty := true; Flushing := false; PartIdx := PartIdx dce;
               Data := take (Z.to_nat offset)
                         (old ++ replicate (Z.to_nat offset) x00)
                       ++ take (Z.to_nat n) data
                       ++ drop (Z.to_nat (offset + n)) old |}).
Proof.
  intros Hoff HP n old. unfold Part.writeToPart.
  set (d := if Flushing dce then Part.clonePart dce else dce).
  assert (Data d = old /\ Flushing d = false /\ PartIdx d = PartIdx dce)
    as (Hd & Hfl & Hidx).
  { subst d old. unfold Part.clonePart.
    destruct (Flushing dce) eqn:Hf; [|done].
    destruct (Dirty dce); simpl; unfold copyBytes; simpl; by rewrite drop_nil. }
  rewrite (Int64Facts.sub_id P offset)
    by (unfold Int64.in_range, Int64.min_int, Int64.max_int in *; lia).
  assert ((if P - offset <? Z.of_nat (length data)
           then P - offset else Z.of_nat (length data)) = n) as ->.
  { subst n. destruct (Z.ltb_spec (P - offset) (Z.of_nat (length data))); lia. }
  assert (0 <= n <= Z.of_nat (length data) /\ offset + n <= P) as (Hn & HnP)
    by (subst n; lia).
  rewrite (Int64Facts.add_id offset n)
    by (unfold Int64.in_range, Int64.min_int, Int64.max_int in *; lia).
  rewrite Hd, Hfl, Hidx.
  assert (length (backingArray P d)
          = (length old + (Z.to_nat P - length old))%nat) as Hcap.
  { unfold backingArray. by rewrite Hd, length_app, length_replicate. }
  rewrite (sliceRange_take data n) by lia.
  destruct (Z.ltb_spec (Z.of_nat (length old)) (offset + n)) as [Hshort|Hlong].
  - rewrite (sliceRange_take (backingArray P d)) by lia.
    cbn [mbind outcome_bind].
    rewrite sliceFrom_drop by (rewrite length_take; lia).
    cbn [mbind outcome_bind].
    do 3 f_equal.
    unfold copyBytes, backingArray. rewrite Hd.
    rewrite take_take, !length_take, length_drop, length_take, length_app,
      length_replicate.
    rewrite (drop_ge old) by lia. rewrite app_nil_r.
    rewrite drop_drop, drop_ge by (rewrite length_take, length_app,
                                    length_replicate; lia).
    rewrite app_nil_r. f_equal.
    + replace (Z.to_nat offset `min` Z.to_nat (offset + n))%nat
        with (Z.to_nat offset) by lia.
      apply take_padded; lia.
    + apply take_ge. rewrite length_take. lia.
  - cbn [mbind outcome_bind].
    rewrite sliceFrom_drop by lia. cbn [mbind outcome_bind].
    do 3 f_equal.
    unfold copyBytes. rewrite length_drop, length_take, drop_drop.
    rewrite take_app_le by lia. f_equal. f_equal.
    + apply take_ge. rewrite length_take. lia.
    + f_equal. lia.
Qed.

(** X19. A write of [data] at [offset] into a part that is not being flushed
    returns the number of bytes that fit, [min (len data) (partDataSize -
    offset)], and a dirty part whose bytes are the old ones (padded with
    zeros up to [offset]) with that many bytes of [data] laid over them at
    [offset].  When the part is being flushed the write goes to a clone, and
    the clone starts empty: none of the old bytes is carried over, the bytes
    before [offset] are zero and the part ends where the write ends. *)
Theorem writeToPart_spec (P offset : Z) (data : list byte)
    (dce : DataCacheEntry) :
  0 <= offset < P -> P <= Int64.max_int ->
  Z.of_nat (length (Data dce)) <= P ->
  let n := Z.min (Z.of_nat (length data)) (P - offset) in
  let old := if Flushing dce then [] else Data dce in
  Part.writeToPart P offset data dce
  = Ret (n, {| Dirty := true; Flushing := false; PartIdx := PartIdx dce;
               Data := take (Z.to_nat offset)
                         (old ++ replicate (Z.to_nat offset) x00)
                       ++ take (Z.to_nat n) data
                       ++ drop (Z.to_nat (offset + n)) old |}).
Proof.
  intros Hoff HP _. exact (Part_writeToPart_returns P offset data dce Hoff HP).
Qed.

(** Three bytes written at offset 2 into a part of eight bytes that holds
    five: the part then holds ["AAXXX"].  Into the same part while it is
    being flushed: two zero bytes and ["XXX"]. *)
Lemma writeToPart_spec_witness :
  Part.writeToPart 8 2 (replicate 3 x58)
    (mkDataCacheEntry false false 0 (bytesA 5))
  = Ret (3, mkDataCacheEntry true false 0
              (bytesA 2 ++ replicate 3 x58)) /\
  Part.writeToPart 8 2 (replicate 3 x58)
    (mkDataCacheEntry true true 0 (bytesA 5))
  = Ret (3, mkDataCacheEntry true false 0
              (replicate 2 x00 ++ replicate 3 x58)).
Proof.
  split.
  - apply (writeToPart_spec 8 2 (replicate 3 x58)
             (mkDataCacheEntry false false 0 (bytesA 5))); side.
  - apply (writeToPart_spec 8 2 (replicate 3 x58)
             (mkDataCacheEntry true true 0 (bytesA 5))); side.
Defined.

(** ** One round of the write into an entry *)

Lemma sliceIndex_Ret_inv {A} (l : list A) (i : Z) (x : A) :
  sliceIndex l i = Ret x -> 0 <= i /\ l !! Z.to_nat i = Some x.
Proof.
  unfold sliceIndex. destruct (Z.ltb_spec i 0); [done|].
  destruct (l !! Z.to_nat i); [|done]. intros [= ->]. done.
Qed.

Lemma sliceIndex_lookup {A} (l : list A) (i : Z) (x : A) :
  0 <= i -> l !! Z.to_nat i = Some x -> sliceIndex l i = Ret x.
Proof.
  intros Hi Hl. unfold sliceIndex. destruct (Z.ltb_spec i 0); [lia|].
  by rewrite Hl.
Qed.

(** [ensurePart] with [create]: the slot holds its part, or a fresh one. *)
Lemma ensurePart_create (pi : Z) (e : CacheEntry) :
  0 <= pi ->
  let des := grownTo (DataEntries e) pi in
  let dce := default (makeDataCacheEntry pi) (partAt des pi) in
  Entry.ensurePart pi true e
  = Ret (Some dce, setDataEntries e (<[Z.to_nat pi := Some dce]> des)).
Proof.
  intros Hpi des dce. unfold Entry.ensurePart. fold (grownTo (DataEntries e) pi).
  fold des.
  assert (Z.to_nat pi < length des)%nat as Hlt.
  { subst des. unfold grownTo. rewrite length_app, length_replicate. lia. }
  destruct (lookup_lt_is_Some_2 des (Z.to_nat pi) Hlt) as [slot Hslot].
  rewrite (sliceIndex_lookup _ _ _ Hpi Hslot). cbn [mbind outcome_bind].
  subst dce. unfold partAt. rewrite Hslot. destruct slot as [d|]; simpl.
  - cbn [mbind outcome_bind]. rewrite (sliceIndex_lookup _ _ _ Hpi Hslot).
    cbn [mbind outcome_bind]. by rewrite list_insert_id.
  - cbn [mbind outcome_bind].
    rewrite (sliceIndex_lookup _ pi (Some (makeDataCacheEntry pi)) Hpi)
      by (by apply list_lookup_insert_eq).
    done.
Qed.

(** [ensurePart] without [create]: the slots are grown, none is filled. *)
Lemma ensurePart_grow (pi : Z) (e : CacheEntry) :
  0 <= pi ->
  Entry.ensurePart pi false e
  = Ret (partAt (grownTo (DataEntries e) pi) pi,
         setDataEntries e (grownTo (DataEntries e) pi)).
Proof.
  intros Hpi. unfold Entry.ensurePart. fold (grownTo (DataEntries e) pi).
  set (des := grownTo (DataEntries e) pi).
  assert (Z.to_nat pi < length des)%nat as Hlt.
  { subst des. unfold grownTo. rewrite length_app, length_replicate. lia. }
  destruct (lookup_lt_is_Some_2 des (Z.to_nat pi) Hlt) as [slot Hslot].
  cbn [mbind outcome_bind].
  rewrite (sliceIndex_lookup _ _ _ Hpi Hslot). cbn [mbind outcome_bind].
  unfold partAt. rewrite Hslot. by destruct slot.
Qed.

(** [ensurePart] without [create] on a slot the entry has. *)
Lemma ensurePart_present (pi : Z) (e : CacheEntry) slot :
  0 <= pi ->
  DataEntries e !! Z.to_nat pi = Some slot ->
  Entry.ensurePart pi false e = Ret (slot, e).
Proof.
  intros Hpi Hslot. unfold Entry.ensurePart.
  pose proof (lookup_lt_Some _ _ _ Hslot) as Hlt.
  replace (Z.to_nat (pi + 1) - length (DataEntries e))%nat with 0%nat by lia.
  simpl replicate. rewrite app_nil_r. cbn [mbind outcome_bind].
  rewrite (sliceIndex_lookup _ _ _ Hpi Hslot). cbn [mbind outcome_bind].
  by destruct e.
Qed.

(** One round of the loop of [writeAt]: the part of the offset takes as
    much of the data as fits; a part that is being flushed is replaced by a
    clone, which has none of its bytes. *)
Lemma writeAtLoop_round (P : Z) (n : nat) (offset : Z) (data : list byte)
    (e : CacheEntry) (fe : FileCacheEntry) (pi : Z) :
  0 < P <= Int64.max_int ->
  FileEntry e = Some fe ->
  0 <= offset ->
  offset + Z.of_nat (length data) <= Int64.max_int ->
  data <> [] ->
  partIdxAtOffset P (File fe) offset = Ret pi ->
  0 <= pi ->
  let des := grownTo (DataEntries e) pi in
  let dce := default (makeDataCacheEntry pi) (partAt des pi) in
  let po := offset `mod` P in
  let nw := Z.min (Z.of_nat (length data)) (P - po) in
  let old := if Flushing dce then [] else Data dce in
  Entry.writeAtLoop P (S n) offset data e
  = Entry.writeAtLoop P n (offset + nw) (drop (Z.to_nat nw) data)
      (setDataEntries e
         (<[Z.to_nat pi :=
              Some {| Dirty := true; Flushing := false; PartIdx := PartIdx dce;
                      Data := take (Z.to_nat po)
                                (old ++ replicate (Z.to_nat po) x00)
                              ++ take (Z.to_nat nw) data
                              ++ drop (Z.to_nat (po + nw)) old |}]> des)).
Proof.
  intros HP Hfe Hoff Hend Hdata Hpi Hpi0 des dce po nw old.
  destruct data as [|b data0]; [done|]. set (data := b :: data0) in *.
  pose proof (Z.mod_pos_bound offset P ltac:(lia)) as Hpo. fold po in Hpo.
  assert (0 < nw <= Z.of_nat (length data)) as Hnw.
  { subst nw data. simpl length. lia. }
  cbn [Entry.writeAtLoop]. fold data.
  unfold partIdxAtOffset in Hpi.
  rewrite (go_div_pos offset P) in Hpi |- * by lia.
  cbn [mbind outcome_bind] in Hpi |- *. rewrite Hfe, Hpi.
  cbn [mbind outcome_bind].
  rewrite (go_mod_pos offset P) by lia. cbn [mbind outcome_bind]. fold po.
  rewrite (ensurePart_create pi e Hpi0). fold des dce.
  cbn [mbind outcome_bind].
  rewrite (Part_writeToPart_returns P po data dce) by (done || lia).
  fold nw old. cbn [mbind outcome_bind]. simpl DataEntries.
  assert (Z.to_nat pi < length des)%nat as Hlt.
  { subst des. unfold grownTo. rewrite length_app, length_replicate. lia. }
  rewrite (sliceIndex_lookup _ pi (Some dce) Hpi0)
    by (by apply list_lookup_insert_eq).
  cbn [mbind outcome_bind].
  rewrite (sliceFrom_drop data nw) by lia. cbn [mbind outcome_bind].
  rewrite (Int64Facts.add_id offset nw)
    by (unfold Int64.in_range, Int64.min_int, Int64.max_int in *; lia).
  by rewrite list_insert_insert_eq.
Qed.

(** ** Replacing the contents of a file *)

Lemma fileChunks_count (P len k : Z) :
  0 < P -> 0 <= k -> k * P < len -> len <= k * P + P ->
  (len + P - 1) `div` P = k + 1.
Proof.
  intros HP Hk Hlo Hhi. symmetry. apply (Z.div_unique_pos _ _ _ (len - k * P - 1)); lia.
Qed.

Lemma fileChunks_count_le (P len k : Z) :
  0 < P -> 0 <= k -> len <= k * P -> (len + P - 1) `div` P <= k.
Proof.
  intros HP Hk Hlen.
  assert ((len + P - 1) `div` P < k + 1); [|lia].
  apply Z.div_lt_upper_bound; nia.
Qed.

Lemma fileChunks_count_le_eq (P len k : Z) :
  0 < P -> len = k * P -> k = (len + P - 1) `div` P.
Proof.
  intros HP ->. apply (Z.div_unique_pos _ _ _ (P - 1)); lia.
Qed.

Lemma writeAtLoop_chunks (P : Z) (fe : FileCacheEntry) (full : list byte) :
  0 < P <= Int64.max_int ->
  Circular (Opts (File fe)) = false ->
  Z.of_nat (length full) <= Int64.max_int ->
  forall n k e,
    FileEntry e = Some fe ->
    0 <= k ->
    k <= (Z.of_nat (length full) + P - 1) `div` P ->
    DataEntries e = fileChunk P full <$> seqZ 0 k ->
    (length (drop (Z.to_nat (k * P)) full) <= n)%nat ->
    Entry.writeAtLoop P n (k * P) (drop (Z.to_nat (k * P)) full) e
    = Ret (setDataEntries e (fileChunks P full)).
Proof.
  intros HP Hcirc Hfull. unfold Int64.max_int in *.
  set (m := (Z.of_nat (length full) + P - 1) `div` P).
  assert (forall k, 0 <= k -> k <= m -> k * P < Z.of_nat (length full) + P)
    as Hm.
  { intros k Hk Hkm. subst m.
    pose proof (Z.mul_div_le (Z.of_nat (length full) + P - 1) P ltac:(lia)).
    nia. }
  induction n as [|n IH]; intros k e Hfe Hk Hkm Hdes Hn.
  - assert (drop (Z.to_nat (k * P)) full = []) as Hnil
      by (by apply nil_length_inv, Nat.le_0_r).
    rewrite Hnil. simpl.
    assert (k = m) as ->.
    { rewrite length_drop in Hn. apply Z.le_antisymm; [done|].
      subst m. apply fileChunks_count_le; lia. }
    unfold fileChunks. fold m. rewrite <- Hdes. by destruct e.
  - destruct (drop (Z.to_nat (k * P)) full) as [|b data0] eqn:Hdata.
    { simpl. assert (k = m) as ->.
      { apply (f_equal length) in Hdata. rewrite length_drop in Hdata.
        simpl in Hdata. apply Z.le_antisymm; [done|].
        subst m. apply fileChunks_count_le; lia. }
      unfold fileChunks. fold m. rewrite <- Hdes. by destruct e. }
    rewrite <- Hdata. set (data := drop (Z.to_nat (k * P)) full) in *.
    assert (Z.of_nat (length data) = Z.of_nat (length full) - k * P
            /\ 0 < Z.of_nat (length data)) as [Hlen Hpos].
    { split.
      - subst data. rewrite length_drop.
        assert (length (drop (Z.to_nat (k * P)) full) <> 0)%nat as Hne
          by (rewrite Hdata; done).
        rewrite length_drop in Hne. lia.
      - rewrite Hdata. simpl. lia. }
    assert (Entry.writeAtLoop P (S n) (k * P) data e
            = Entry.writeAtLoop P n (k * P + Z.min (Z.of_nat (length data)) P)
                (drop (Z.to_nat (Z.min (Z.of_nat (length data)) P)) data)
                (setDataEntries e (fileChunk P full <$> seqZ 0 (k + 1))))
      as ->.
    { assert (length (DataEntries e) = Z.to_nat k) as Hlk.
      { rewrite Hdes, length_fmap, length_seqZ. done. }
      assert (grownTo (DataEntries e) k = DataEntries e ++ [None]) as Hgrown.
      { unfold grownTo. rewrite Hlk.
        by replace (Z.to_nat (k + 1) - Z.to_nat k)%nat with 1%nat by lia. }
      assert (partAt (grownTo (DataEntries e) k) k = None) as Hpart.
      { unfold partAt. rewrite Hgrown, lookup_app_r by lia.
        by rewrite Hlk, Nat.sub_diag. }
      rewrite (writeAtLoop_round P n (k * P) data e fe k);
        [|unfold Int64.max_int; lia|done|nia|unfold Int64.max_int; nia
         |by rewrite Hdata| |done].
      - rewrite Hpart, Hgrown. simpl default. cbn [Flushing makeDataCacheEntry
                                                     PartIdx].
        rewrite Z.mod_mul, Z.sub_0_r by lia. do 2 f_equal.
        rewrite insert_app_r_alt by lia. rewrite Hlk, Nat.sub_diag. simpl.
        rewrite (seqZ_app 0 k 1) by lia. rewrite fmap_app, <- Hdes.
        f_equal. simpl. unfold fileChunk. do 3 f_equal.
        rewrite drop_nil, app_nil_r.
        replace ((Z.of_nat 0 + (0 + k)) * P) with (k * P) by lia. fold data.
        destruct (Z.le_ge_cases (Z.of_nat (length data)) P).
        + rewrite Z.min_l by lia. rewrite !take_ge; [done|lia..].
        + by rewrite Z.min_r by lia.
      - rewrite partIdxAtOffset_nonneg;
          [|lia|unfold Int64.max_int; nia|by rewrite Hcirc].
        unfold partContaining. rewrite Hcirc. by rewrite Z.div_mul by lia. }
    destruct (Z.le_gt_cases (Z.of_nat (length data)) P) as [Hshort|Hlong].
    + rewrite Z.min_l by lia. rewrite drop_ge by lia.
      assert (m = k + 1) as Hmk
        by (subst m; apply fileChunks_count; lia).
      unfold fileChunks. fold m. rewrite Hmk. by destruct n.
    + rewrite Z.min_r by lia.
      replace (k * P + P) with ((k + 1) * P) by lia.
      assert (drop (Z.to_nat P) data = drop (Z.to_nat ((k + 1) * P)) full)
        as Hrest.
      { subst data. rewrite drop_drop. f_equal. lia. }
      rewrite Hrest.
      assert (k + 1 <= m) as Hk1.
      { subst m. apply Z.div_le_lower_bound; nia. }
      rewrite (IH (k + 1)); [done|done|lia|done|done|].
      rewrite <- Hrest, length_drop.
      assert (length data <= S n)%nat by (rewrite Hdata; exact Hn). lia.
Qed.

Section Replacing.

Context {D : Type} `{!BackingStore D}.

(** A writer up to the point where the descriptor is loaded: the entry is
    pinned, carries the intention under the next id, and holds a file
    buffer. *)
Lemma write_prologue blockId name intention (w w0 : World D) f :
  Stat blockId name w = Ret ((Some f, None), w0) ->
  exists w1 w2 w3 e3 fe3,
    pinCacheEntry blockId name w = Ret (tt, w1) /\
    setWriteIntention blockId name intention w1
    = Ret (NextIntentionId (store w), w2) /\
    loadFileInfo blockId name w2 = Ret ((Some f, None), w3) /\
    Cache (store w3) !! (blockId, name) = Some e3 /\
    Deleted e3 = false /\
    FileEntry e3 = Some fe3 /\
    sameFile (File fe3) f /\
    DataEntries e3 = cachedData w (blockId, name) /\
    PinCount e3 = Int64.add (PinCount (entryAt w blockId name)) 1 /\
    WriteIntentions e3
    = <[NextIntentionId (store w) := intention]>
        (WriteIntentions (entryAt w blockId name)) /\
    db w3 = db w /\ clock w3 = clock w.
Proof.
  unfold Stat, pinCacheEntry, setWriteIntention, loadFileInfo,
    getFileFromCache, withLock, cachedData, entryAt.
  munfold. intros HStat.
  destruct (Cache (store w) !! (blockId, name)) as [e|] eqn:He; simpl in *.
  - destruct (Deleted e) eqn:Hdel; [done|].
    destruct (FileEntry e) as [fe|] eqn:Hfe.
    + injection HStat as <- <-.
      eexists _, _, _, _, fe. split; [reflexivity|]. split.
      { simpl. rewrite lookup_insert_eq. reflexivity. }
      split.
      { repeat (progress (simpl; rewrite ?lookup_insert_eq, ?Hdel, ?Hfe)).
        reflexivity. }
      split; [simpl; by rewrite lookup_insert_eq|].
      repeat split; try done.
      simpl. intros k. by destruct (Meta (File fe)).
    + destruct (dbGetBlockFile blockId name (db w)) as [dbFile err] eqn:Hdb.
      injection HStat as -> -> <-.
      eexists _, _, _, _, _. split; [reflexivity|]. split.
      { simpl. rewrite lookup_insert_eq. reflexivity. }
      split.
      { repeat (progress (simpl; rewrite ?lookup_insert_eq, ?Hdel, ?Hfe, ?Hdb)).
        reflexivity. }
      split; [simpl; by rewrite lookup_insert_eq|].
      repeat split; try done; simpl; try (by destruct (Meta f));
        intros k; by destruct (Meta f).
  - destruct (dbGetBlockFile blockId name (db w)) as [dbFile err] eqn:Hdb.
    injection HStat as -> -> <-.
    eexists _, _, _, _, _. split; [reflexivity|]. split.
    { simpl. rewrite lookup_insert_eq. reflexivity. }
    split.
    { repeat (progress (simpl; rewrite ?lookup_insert_eq, ?Hdb)).
      reflexivity. }
    split; [simpl; by rewrite lookup_insert_eq|].
    repeat split; try done; simpl; try (by destruct (Meta f));
      intros k; by destruct (Meta f).
Qed.

(** The write under the lock, on an entry that holds a file buffer. *)
Lemma lock_write P blockId name offset data replace (w : World D) e fe e' :
  Cache (store w) !! (blockId, name) = Some e ->
  Deleted e = false ->
  FileEntry e = Some fe ->
  writeAtToCache P (clock w) offset data replace e = Ret e' ->
  exists w',
    withLockExists blockId name tt
      (writeUnderLock P blockId name offset data replace) w
    = Ret ((tt, None), w') /\
    Cache (store w') !! (blockId, name) = Some e' /\
    db w' = db w /\ clock w' = clock w.
Proof.
  intros He Hdel Hfe Hwrite. unfold withLockExists, writeUnderLock.
  munfold. rewrite He, Hdel, Hfe, Hwrite.
  eexists. split; [reflexivity|]. simpl. by rewrite lookup_insert_eq.
Qed.

(** The two deferred calls of a writer. *)
Lemma write_epilogue {A} blockId name intentionId (rtn : A) (w : World D) e :
  Cache (store w) !! (blockId, name) = Some e ->
  exists w',
    (clearWriteIntention blockId name intentionId;;
     unpinCacheEntry blockId name;;
     mret rtn) w = Ret (rtn, w') /\
    Cache (store w') !! (blockId, name)
    = Some (setPinCount
              (setWriteIntentions e (delete intentionId (WriteIntentions e)))
              (Int64.sub (PinCount e) 1)) /\
    db w' = db w /\ clock w' = clock w.
Proof.
  intros He. unfold clearWriteIntention, unpinCacheEntry. munfold.
  rewrite He. simpl. rewrite lookup_insert_eq.
  eexists. split; [reflexivity|]. simpl. by rewrite lookup_insert_eq.
Qed.

(** [writeAtToCache] with [replace]: the parts are the chunks of the data,
    the size is the length of the data. *)
Lemma writeAtToCache_replace P now data e fe :
  0 < P <= Int64.max_int ->
  Z.of_nat (length data) <= Int64.max_int ->
  FileEntry e = Some fe ->
  Circular (Opts (File fe)) = false ->
  exists file',
    writeAtToCache P now 0 data true e
    = Ret (setFileEntry (setDataEntries e (fileChunks P data))
             (Some (mkFileCacheEntry true false file'))) /\
    sameFile file'
      (setModTs (setSize (File fe) (Z.of_nat (length data))) now).
Proof.
  intros HP Hlen Hfe Hcirc. unfold writeAtToCache, Entry.writeAt.
  pose proof (writeAtLoop_chunks P fe data HP Hcirc Hlen
                (length data) 0 (setDataEntries e [])) as Hloop.
  change (0 * P) with 0 in Hloop.
  change (drop (Z.to_nat 0) data) with data in Hloop.
  rewrite Hloop; [|done|lia| |done|lia]; last first.
  { apply Z.div_pos; lia. }
  cbn [mbind outcome_bind].
  unfold modifyFileData. simpl FileEntry. rewrite Hfe.
  rewrite (Int64Facts.add_id 0 (Z.of_nat (length data)))
    by (unfold Int64.in_range, Int64.min_int, Int64.max_int in *; lia).
  destruct (FileFlushing fe) eqn:Hfl; simpl; rewrite orb_true_r.
  - eexists. split; [reflexivity|].
    repeat split; try done. simpl. intros k. by destruct (Meta (File fe)).
  - rewrite ?Hfl. eexists. split; [reflexivity|]. by repeat split.
Qed.

Lemma WriteFile_run P blockId name (data : list byte)
    (w w1 w2 w3 : World D) f e3 fe3 e4 :
  pinCacheEntry blockId name w = Ret (tt, w1) ->
  setWriteIntention blockId name (mkWriteIntention None false true) w1
  = Ret (NextIntentionId (store w), w2) ->
  loadFileInfo blockId name w2 = Ret ((Some f, None), w3) ->
  Cache (store w3) !! (blockId, name) = Some e3 ->
  Deleted e3 = false ->
  FileEntry e3 = Some fe3 ->
  writeAtToCache P (clock w3) 0 data true e3 = Ret e4 ->
  exists w',
    WriteFile P blockId name data w = Ret (None, w') /\
    Cache (store w') !! (blockId, name)
    = Some (setPinCount
              (setWriteIntentions e4
                 (delete (NextIntentionId (store w)) (WriteIntentions e4)))
              (Int64.sub (PinCount e4) 1)) /\
    db w' = db w3 /\ clock w' = clock w3.
Proof.
  intros Hpin Hint Hload He3 Hdel Hfe Hwrite.
  destruct (lock_write P blockId name 0 data true w3 e3 fe3 e4
              He3 Hdel Hfe Hwrite) as (w4 & Hlock & He4 & Hdb4 & Hclock4).
  destruct (write_epilogue blockId name (NextIntentionId (store w))
              (None : option error) w4 e4 He4)
    as (w5 & Hend & He5 & Hdb5 & Hclock5).
  exists w5. split; [|split; [done|split; congruence]].
  unfold WriteFile.
  rewrite (M_bind_Ret _ _ _ _ _ Hpin).
  rewrite (M_bind_Ret _ _ _ _ _ Hint).
  rewrite (M_bind_Ret _ _ w2 None w4); [exact Hend|].
  rewrite (M_bind_Ret _ _ _ _ _ Hload).
  by rewrite (M_bind_Ret _ _ _ _ _ Hlock).
Qed.

(** X20. [WriteFile] on a file that exists and is not circular returns no
    error and leaves the backing store alone.  Afterwards the cache holds
    the data cut into parts of [partDataSize] bytes, each of them dirty,
    and [Stat] yields the descriptor with the length of the data as its
    size and the time of the write as its modification time. *)
Theorem WriteFile_replaces P blockId name (data : list byte) (w : World D) f :
  0 < P <= Int64.max_int ->
  Z.of_nat (length data) <= Int64.max_int ->
  Stat blockId name w = Ret ((Some f, None), w) ->
  Circular (Opts f) = false ->
  exists w' f',
    WriteFile P blockId name data w = Ret (None, w') /\
    db w' = db w /\
    cachedData w' (blockId, name) = fileChunks P data /\
    Stat blockId name w' = Ret ((Some f', None), w') /\
    sameFile f' (setModTs (setSize f (Z.of_nat (length data))) (clock w)).
Proof.
  intros HP Hlen HStat Hcirc.
  destruct (write_prologue blockId name (mkWriteIntention None false true)
              w w f HStat)
    as (w1 & w2 & w3 & e3 & fe3 & Hpin & Hint & Hload & He3 & Hdel & Hfe
        & Hsame & _ & _ & _ & Hdb3 & Hclock3).
  assert (Circular (Opts (File fe3)) = false) as Hcirc3.
  { destruct Hsame as (_ & _ & -> & _). done. }
  destruct (writeAtToCache_replace P (clock w3) data e3 fe3 HP Hlen Hfe Hcirc3)
    as (file' & Hwrite & Hfile').
  destruct (WriteFile_run P blockId name data w w1 w2 w3 f e3 fe3 _
              Hpin Hint Hload He3 Hdel Hfe Hwrite)
    as (w' & Hrun & He' & Hdb' & Hclock').
  eexists w', _. split; [exact Hrun|]. split; [congruence|]. split.
  { unfold cachedData. by rewrite He'. }
  split.
  { eapply Stat_cached; [exact He'|simpl; exact Hdel|reflexivity]. }
  destruct Hfile' as (? & ? & ? & ? & ? & ? & Hmeta).
  destruct Hsame as (? & ? & ? & ? & ? & ? & Hmeta3).
  repeat split; simpl in *; try congruence.
  intros k. rewrite <- Hmeta3, <- Hmeta. by destruct (Meta file').
Qed.

End Replacing.

(** ** The bytes a read returns *)

Section ReadingBytes.

Variable P : Z.
Variable f : BlockFile.
Hypothesis P_pos : 0 < P.
Hypothesis P_range : P <= Int64.max_int.
Hypothesis circular_ok :
  Circular (Opts f) = true -> P <= MaxSize (Opts f) <= Int64.max_int.

Lemma partData_bytes (des : gmap Z DataCacheEntry) (partIdx : Z) :
  exists partData,
    match des !! partIdx with
    | None => makeBytes P
    | Some d => sliceRange (backingArray P d) 0 P
    end = Ret partData /\
    length partData = Z.to_nat P /\
    forall j, (j < Z.to_nat P)%nat ->
              partData !! j
              = Some (byteOfPart (des !! partIdx) (Z.of_nat j)).
Proof.
  destruct (des !! partIdx) as [d|]; simpl.
  - assert (Z.to_nat P <= length (backingArray P d))%nat as Hcap.
    { unfold backingArray. rewrite length_app, length_replicate. lia. }
    rewrite sliceRange_take by lia.
    eexists. split; [reflexivity|]. split.
    + rewrite length_take. lia.
    + intros j Hj. rewrite lookup_take_lt by done. rewrite Nat2Z.id.
      unfold backingArray.
      destruct (Data d !! j) as [x|] eqn:Hx.
      * by rewrite (lookup_app_l_Some _ _ _ _ Hx).
      * apply lookup_ge_None in Hx. rewrite lookup_app_r by done.
        simpl. f_equal. apply lookup_replicate_2. lia.
  - unfold makeBytes. destruct (Z.ltb_spec P 0); [lia|].
    eexists. split; [reflexivity|]. split; [by rewrite length_replicate|].
    intros j Hj. by apply lookup_replicate_2.
Qed.

(** The assembling loop returns, for every position of the range, the byte
    of the part that holds the position. *)
Lemma readAtLoop_bytes (des : gmap Z DataCacheEntry) :
  forall (n : nat) (amt cur : Z) (acc : list byte),
    0 <= cur ->
    (Z.to_nat amt <= n)%nat ->
    cur + Z.max 0 amt <= Int64.max_int ->
    readAtLoop P n f des amt cur acc
    = Ret (acc ++ ((fun p => byteOfPart (des !! foldPart P f (p `div` P))
                                        (p `mod` P))
                   <$> seqZ cur amt)).
Proof.
  induction n as [|n IH]; intros amt cur acc Hcur Hn Hrange.
  - simpl. destruct (Z.ltb_spec 0 amt); [lia|].
    rewrite seqZ_nil by lia. by rewrite app_nil_r.
  - simpl. destruct (Z.ltb_spec 0 amt) as [Hpos|Hle]; last first.
    { rewrite seqZ_nil by lia. by rewrite app_nil_r. }
    pose proof P_range as HPr.
    unfold Int64.max_int in Hrange, HPr.
    rewrite partIdxAtOffset_nonneg; [|done|unfold Int64.max_int; lia|done].
    simpl. rewrite partContaining_fold by done.
    destruct (partData_bytes des (foldPart P f (cur `div` P)))
      as (partData & -> & HlenPD & Hbytes).
    simpl. rewrite go_mod_pos by lia. simpl.
    pose proof (Z.mod_pos_bound cur P P_pos) as Hmod.
    rewrite (Int64Facts.sub_id P (cur `mod` P))
      by (unfold Int64.in_range, Int64.min_int, Int64.max_int; lia).
    set (a := minInt64 (P - cur `mod` P) amt).
    assert (1 <= a <= amt /\ a <= P - cur `mod` P) as Ha.
    { unfold a, minInt64. destruct (Z.ltb_spec (P - cur `mod` P) amt); lia. }
    rewrite (Int64Facts.add_id (cur `mod` P) a)
      by (unfold Int64.in_range, Int64.min_int, Int64.max_int; lia).
    assert (sliceRange partData (cur `mod` P) (cur `mod` P + a)
            = Ret ((fun p => byteOfPart (des !! foldPart P f (p `div` P))
                                        (p `mod` P))
                   <$> seqZ cur a)) as ->.
    { unfold sliceRange.
      destruct (Z.leb_spec 0 (cur `mod` P)); [|lia].
      destruct (Z.leb_spec (cur `mod` P) (cur `mod` P + a)); [|lia].
      destruct (Z.leb_spec (cur `mod` P + a) (Z.of_nat (length partData)));
        [|lia].
      simpl. f_equal. apply list_eq. intros j.
      rewrite list_lookup_fmap.
      destruct (decide (j < Z.to_nat a)%nat) as [Hj|Hj].
      - rewrite lookup_take_lt by lia. rewrite lookup_drop.
        rewrite Hbytes by lia.
        rewrite (lookup_seqZ_lt cur a j) by lia. simpl.
        pose proof (Z.div_mod cur P ltac:(lia)) as Hdm.
        assert ((cur + Z.of_nat j) `div` P = cur `div` P) as ->.
        { symmetry.
          apply (Z.div_unique_pos _ _ _ (cur `mod` P + Z.of_nat j)); lia. }
        assert ((cur + Z.of_nat j) `mod` P = cur `mod` P + Z.of_nat j) as ->.
        { symmetry.
          apply (Z.mod_unique_pos _ _ (cur `div` P)); lia. }
        do 2 f_equal. lia.
      - rewrite lookup_take_ge by lia.
        rewrite (lookup_seqZ_ge cur a j) by lia. done. }
    simpl.
    rewrite (Int64Facts.sub_id amt a)
      by (unfold Int64.in_range, Int64.min_int, Int64.max_int; lia).
    rewrite (Int64Facts.add_id cur a)
      by (unfold Int64.in_range, Int64.min_int, Int64.max_int; lia).
    rewrite (IH (amt - a) (cur + a)); [|lia|lia|unfold Int64.max_int; lia].
    rewrite <- app_assoc, <- fmap_app. do 3 f_equal.
    rewrite <- seqZ_app by lia. f_equal. lia.
Qed.

End ReadingBytes.

(** The reconciliation lays the cached parts over the stored ones: of a
    part that was asked for, the reader sees the cached copy if there is
    one. *)
Lemma readAtReconcile_lookup offset size (partsNeeded : list Z)
    (dataEntries : gmap Z DataCacheEntry) entry fe :
  FileEntry entry = Some fe ->
  Forall (fun i => 0 <= i) partsNeeded ->
  exists dataEntries',
    readAtReconcile offset size partsNeeded dataEntries entry
    = Ret (if Size (File fe) <? Int64.add offset size
           then Int64.sub (Size (File fe)) offset else size,
           dataEntries') /\
    forall i, i ∈ partsNeeded ->
              dataEntries' !! i = visiblePart entry dataEntries i.
Proof.
  intros Hfe Hparts. unfold readAtReconcile. rewrite Hfe.
  set (F := fun (acc : outcome (gmap Z DataCacheEntry)) (partIdx : Z) =>
              de ← acc;
              if Z.of_nat (length (DataEntries entry)) <=? partIdx
              then Ret de
              else
                slot ← sliceIndex (DataEntries entry) partIdx;
                match slot with
                | None => Ret de
                | Some d => Ret (<[partIdx := d]> de)
                end).
  assert (forall de,
             exists de',
               foldl F (Ret de) partsNeeded = Ret de' /\
               forall i, 0 <= i ->
                         de' !! i
                         = if decide (i ∈ partsNeeded)
                           then visiblePart entry de i else de !! i)
    as Hfold.
  { induction Hparts as [|j parts Hj _ IH]; intros de.
    - exists de. split; [done|]. intros i _.
      destruct (decide (i ∈ [])) as [Hin|]; [|done]. by apply elem_of_nil in Hin.
    - assert (exists de1,
                 F (Ret de) j = Ret de1 /\
                 de1 !! j = visiblePart entry de j /\
                 (forall i, i <> j -> de1 !! i = de !! i) /\
                 (forall i, 0 <= i ->
                            visiblePart entry de1 i = visiblePart entry de i))
        as (de1 & HF & Hat & Hother & Hvis).
      { unfold F. cbn [mbind outcome_bind]. unfold visiblePart.
        destruct (Z.leb_spec (Z.of_nat (length (DataEntries entry))) j)
          as [Hge|Hlt].
        - exists de. split; [done|]. split; [|done].
          rewrite (lookup_ge_None_2 (DataEntries entry)) by lia. done.
        - destruct (DataEntries entry !! Z.to_nat j) as [slot|] eqn:Hslot;
            [|apply lookup_ge_None in Hslot; lia].
          rewrite (sliceIndex_lookup _ _ _ Hj Hslot).
          cbn [mbind outcome_bind].
          destruct slot as [d|].
          + exists (<[j := d]> de). split; [done|].
            split; [by rewrite lookup_insert_eq|].
            split; [intros i Hi; by rewrite lookup_insert_ne|].
            intros i Hi. destruct (decide (i = j)) as [->|Hne].
            * by rewrite Hslot.
            * by rewrite lookup_insert_ne.
          + by exists de. }
      destruct (IH de1) as (de' & Hrest & Hlook).
      exists de'. split.
      { change (foldl F (F (Ret de) j) parts = Ret de'). by rewrite HF. }
      intros i Hi. rewrite (Hlook i Hi).
      destruct (decide (i ∈ parts)) as [Hin|Hnin].
      + rewrite decide_True by (by right). by apply Hvis.
      + destruct (decide (i = j)) as [->|Hne].
        * rewrite decide_True by (by left). done.
        * rewrite decide_False; [by apply Hother|].
          intros [?|?]%elem_of_cons; done. }
  destruct (Hfold dataEntries) as (de' & -> & Hlook).
  exists de'. split; [done|].
  intros i Hin. rewrite Hlook.
  - by rewrite decide_True.
  - rewrite Forall_forall in Hparts. by apply Hparts.
Qed.

Section ReadingContents.

Context {D : Type} `{!BackingStore D}.

Lemma readAtPinned_bytes P fuel blockId name offset size (w : World D) e fe
    stored :
  0 < P ->
  Cache (store w) !! (blockId, name) = Some e ->
  Deleted e = false ->
  FileEntry e = Some fe ->
  (Circular (Opts (File fe)) = true ->
   P <= MaxSize (Opts (File fe)) <= Int64.max_int) ->
  0 <= MaxSize (Opts (File fe)) ->
  0 <= offset -> 0 <= size ->
  0 <= Size (File fe) <= Int64.max_int ->
  offset + 2 * size + 2 * P <= Int64.max_int ->
  (Z.to_nat (size `div` P + 2) <= fuel)%nat ->
  let start :=
    if Circular (Opts (File fe)) && (MaxSize (Opts (File fe)) <? size)
    then offset + (size - MaxSize (Opts (File fe))) else offset in
  dbGetFileParts blockId name
    (foldPart P (File fe)
     <$> partRange (start `div` P) ((start + size) `div` P)) (db w)
  = (stored, None) ->
  readAtPinned P fuel blockId name offset size w
  = Ret ((start,
          visibleByte P (File fe) e stored
          <$> seqZ start (Z.min size (Size (File fe) - start)),
          None), w).
Proof.
  intros HP He Hdel Hfe Hcirc Hmax Hoff Hsize Hfsize Hrange Hfuel start Hdb.
  unfold Int64.max_int in Hrange, Hfsize.
  assert (0 <= start <= offset + size) as Hstart.
  { unfold start. destruct (Circular _ && _) eqn:Hc; [|lia].
    apply andb_true_iff in Hc as [_ Hc%Z.ltb_lt]. lia. }
  assert ((if Circular (Opts (File fe)) && (MaxSize (Opts (File fe)) <? size)
           then Int64.add offset (Int64.sub size (MaxSize (Opts (File fe))))
           else offset) = start) as Hadj.
  { unfold start. destruct (Circular _ && _) eqn:Hc; [|done].
    apply andb_true_iff in Hc as [_ Hc%Z.ltb_lt].
    rewrite Int64Facts.sub_id
      by (unfold Int64.in_range, Int64.min_int, Int64.max_int; lia).
    apply Int64Facts.add_id.
    unfold Int64.in_range, Int64.min_int, Int64.max_int; lia. }
  clearbody start.
  unfold readAtPinned.
  rewrite (M_bind_Ret _ _ _ _ _ (Stat_cached _ _ _ _ _ He Hdel Hfe)).
  cbn [DeepCopy]. cbn [Opts]. rewrite Hadj.
  set (f := {| BlockId := BlockId (File fe); Name := Name (File fe);
               Opts := Opts (File fe); CreatedTs := CreatedTs (File fe);
               Size := Size (File fe); ModTs := ModTs (File fe);
               Meta := copyMeta (Meta (File fe)) |}).
  assert (Circular (Opts f) = true -> P <= MaxSize (Opts f) <= Int64.max_int)
    as Hcircf by exact Hcirc.
  pose proof (div_add_bound start size P HP ltac:(lia) Hsize) as Hparts.
  rewrite (M_bind_Ret _ _ w _ w
             (liftO_Ret _ _ w
                (readAtPartsNeeded_spec P f HP Hcircf fuel start size
                   ltac:(lia) Hsize ltac:(unfold Int64.max_int; lia)
                   ltac:(lia)))).
  change (foldPart P f) with (foldPart P (File fe)).
  set (partsNeeded := foldPart P (File fe) <$> _) in *.
  assert (Forall (fun i => 0 <= i) partsNeeded) as Hnonneg.
  { unfold partsNeeded, partRange. apply Forall_fmap, Forall_forall.
    intros i [j [-> Hj]%lookup_seqZ]%list_elem_of_lookup_1. simpl.
    apply foldPart_nonneg; [done| |intros Hc; by apply Hcirc].
    pose proof (Z.div_pos start P ltac:(lia) HP). lia. }
  rewrite (M_bind_Ret _ _ w (stored, None) w);
    [|unfold dbQuery; by rewrite Hdb].
  destruct (readAtReconcile_lookup start size partsNeeded stored e fe
              Hfe Hnonneg) as (dataEntries' & Hrec & Hlook).
  rewrite (Int64Facts.add_id start size) in Hrec
    by (unfold Int64.in_range, Int64.min_int, Int64.max_int; lia).
  set (size' := if Size (File fe) <? start + size
                then Int64.sub (Size (File fe)) start else size) in Hrec.
  rewrite (M_bind_Ret _ _ w ((size', dataEntries'), None) w); last first.
  { unfold withLockExists. munfold. rewrite He, Hdel, Hfe, Hrec. reflexivity. }
  cbn [fst snd].
  assert (size' = Z.min size (Size (File fe) - start)) as Hsize'.
  { unfold size'. destruct (Z.ltb_spec (Size (File fe)) (start + size)).
    - rewrite Int64Facts.sub_id
        by (unfold Int64.in_range, Int64.min_int, Int64.max_int; lia). lia.
    - lia. }
  rewrite (M_bind_Ret _ _ w _ w
             (liftO_Ret _ _ w
                (readAtLoop_bytes P f HP ltac:(unfold Int64.max_int; lia)
                   Hcircf dataEntries' (Z.to_nat size') size' start []
                   ltac:(lia) ltac:(lia) ltac:(unfold Int64.max_int; lia)))).
  unfold mret, M_ret. rewrite <- Hsize'. do 4 f_equal.
  apply list_fmap_ext. intros j p [-> Hj]%lookup_seqZ.
  unfold visibleByte. f_equal.
  change (foldPart P f) with (foldPart P (File fe)).
  apply Hlook. unfold partsNeeded, partRange.
  apply list_elem_of_fmap. eexists. split; [reflexivity|].
  apply elem_of_seqZ.
  assert (start `div` P <= (start + Z.of_nat j) `div` P)
    by (apply Z.div_le_mono; lia).
  assert ((start + Z.of_nat j) `div` P <= (start + size) `div` P)
    by (apply Z.div_le_mono; lia).
  lia.
Qed.

Lemma ReadAt_bytes_pinned P fuel blockId name offset size (w : World D) e fe
    stored :
  0 < P ->
  Cache (store w) !! (blockId, name) = Some e ->
  Deleted e = false ->
  FileEntry e = Some fe ->
  (Circular (Opts (File fe)) = true ->
   P <= MaxSize (Opts (File fe)) <= Int64.max_int) ->
  0 <= MaxSize (Opts (File fe)) ->
  0 <= offset -> 0 <= size ->
  0 <= Size (File fe) <= Int64.max_int ->
  offset + 2 * size + 2 * P <= Int64.max_int ->
  (Z.to_nat (size `div` P + 2) <= fuel)%nat ->
  let start :=
    if Circular (Opts (File fe)) && (MaxSize (Opts (File fe)) <? size)
    then offset + (size - MaxSize (Opts (File fe))) else offset in
  dbGetFileParts blockId name
    (foldPart P (File fe)
     <$> partRange (start `div` P) ((start + size) `div` P)) (db w)
  = (stored, None) ->
  exists w',
    ReadAt P fuel blockId name offset size w
    = Ret ((start,
            visibleByte P (File fe) e stored
            <$> seqZ start (Z.min size (Size (File fe) - start)),
            None), w') /\
    Cache (store w') !! (blockId, name)
    = Some (setPinCount e
              (Int64.sub (Int64.add (PinCount e) 1) 1)) /\
    db w' = db w.
Proof.
  intros HP He Hdel Hfe Hcirc Hmax Hoff Hsize Hfsize Hrange Hfuel start Hdb.
  destruct (pin_cached _ _ _ _ He) as (w1 & Hpin & He1 & Hdb1).
  pose proof (readAtPinned_bytes P fuel blockId name offset size w1
                (setPinCount e (Int64.add (PinCount e) 1)) fe stored
                HP He1 Hdel Hfe Hcirc Hmax Hoff Hsize Hfsize Hrange Hfuel)
    as Hbody.
  cbv zeta in Hbody. rewrite Hdb1 in Hbody. specialize (Hbody Hdb).
  destruct (unpin_spec _ _ _ _ He1) as (w2 & Hunpin & He2 & Hdb2 & _).
  exists w2. split; [|split; [exact He2|congruence]].
  unfold ReadAt.
  rewrite (M_bind_Ret _ _ _ _ _ Hpin).
  rewrite (M_bind_Ret _ _ _ _ _ Hbody).
  by rewrite (M_bind_Ret _ _ _ _ _ Hunpin).
Qed.

(** X21. [ReadAt] on a file whose descriptor is cached returns the bytes of
    the range, clamped to the size of the file, and each byte is the one a
    reader should see: the byte of the cached part if the cache holds the
    part, of the stored part otherwise, and zero where neither has the part
    or the part is shorter. *)
Theorem ReadAt_bytes P fuel blockId name offset size (w : World D) e fe
    stored :
  0 < P ->
  Cache (store w) !! (blockId, name) = Some e ->
  Deleted e = false ->
  FileEntry e = Some fe ->
  (Circular (Opts (File fe)) = true ->
   P <= MaxSize (Opts (File fe)) <= Int64.max_int) ->
  0 <= MaxSize (Opts (File fe)) ->
  0 <= offset -> 0 <= size ->
  0 <= Size (File fe) <= Int64.max_int ->
  offset + 2 * size + 2 * P <= Int64.max_int ->
  (Z.to_nat (size `div` P + 2) <= fuel)%nat ->
  let start :=
    if Circular (Opts (File fe)) && (MaxSize (Opts (File fe)) <? size)
    then offset + (size - MaxSize (Opts (File fe))) else offset in
  dbGetFileParts blockId name
    (foldPart P (File fe)
     <$> partRange (start `div` P) ((start + size) `div` P)) (db w)
  = (stored, None) ->
  exists w',
    ReadAt P fuel blockId name offset size w
    = Ret ((start,
            visibleByte P (File fe) e stored
            <$> seqZ start (Z.min size (Size (File fe) - start)),
            None), w').
Proof.
  intros HP He Hdel Hfe Hcirc Hmax Hoff Hsize Hfsize Hrange Hfuel start Hdb.
  destruct (ReadAt_bytes_pinned P fuel blockId name offset size w e fe stored
              HP He Hdel Hfe Hcirc Hmax Hoff Hsize Hfsize Hrange Hfuel Hdb)
    as (w' & Hrun & _).
  by exists w'.
Qed.

End ReadingContents.

(** ** Writing a file and reading it back *)

Lemma fileChunks_lookup (P : Z) (data : list byte) (p : Z) :
  0 < P -> 0 <= p < Z.of_nat (length data) ->
  fileChunks P data !! Z.to_nat (p `div` P)
  = Some (fileChunk P data (p `div` P)) /\
  byteOfPart (fileChunk P data (p `div` P)) (p `mod` P)
  = default x00 (data !! Z.to_nat p).
Proof.
  intros HP Hp.
  pose proof (Z.div_mod p P ltac:(lia)) as Hdm.
  pose proof (Z.mod_pos_bound p P HP) as Hmod.
  assert (0 <= p `div` P) as Hq by (apply Z.div_pos; lia).
  split.
  - unfold fileChunks. rewrite list_lookup_fmap.
    rewrite (lookup_seqZ_lt 0); [simpl; do 2 f_equal; lia|].
    assert (p `div` P < (Z.of_nat (length data) + P - 1) `div` P); [|lia].
    apply Z.div_lt_upper_bound; [lia|].
    pose proof (Z.div_mod (Z.of_nat (length data) + P - 1) P ltac:(lia)).
    pose proof (Z.mod_pos_bound (Z.of_nat (length data) + P - 1) P HP).
    nia.
  - unfold fileChunk, byteOfPart. simpl.
    rewrite lookup_take_lt by lia. rewrite lookup_drop.
    do 2 f_equal. nia.
Qed.

Section RoundTrip.

Context {D : Type} `{!BackingStore D}.

Lemma WriteFile_entry P blockId name (data : list byte) (w : World D) f :
  0 < P <= Int64.max_int ->
  Z.of_nat (length data) <= Int64.max_int ->
  Stat blockId name w = Ret ((Some f, None), w) ->
  Circular (Opts f) = false ->
  exists w' e' fe',
    WriteFile P blockId name data w = Ret (None, w') /\
    db w' = db w /\
    Cache (store w') !! (blockId, name) = Some e' /\
    Deleted e' = false /\
    FileEntry e' = Some fe' /\
    FileDirty fe' = true /\
    sameFile (File fe')
      (setModTs (setSize f (Z.of_nat (length data))) (clock w)) /\
    DataEntries e' = fileChunks P data /\
    PinCount e'
    = Int64.sub (Int64.add (PinCount (entryAt w blockId name)) 1) 1 /\
    WriteIntentions e'
    = delete (NextIntentionId (store w))
        (<[NextIntentionId (store w) := mkWriteIntention None false true]>
           (WriteIntentions (entryAt w blockId name))).
Proof.
  intros HP Hlen HStat Hcirc.
  destruct (write_prologue blockId name (mkWriteIntention None false true)
              w w f HStat)
    as (w1 & w2 & w3 & e3 & fe3 & Hpin & Hint & Hload & He3 & Hdel & Hfe
        & Hsame & _ & Hpc & Hwi & Hdb3 & Hclock3).
  assert (Circular (Opts (File fe3)) = false) as Hcirc3.
  { destruct Hsame as (_ & _ & -> & _). done. }
  destruct (writeAtToCache_replace P (clock w3) data e3 fe3 HP Hlen Hfe Hcirc3)
    as (file' & Hwrite & Hfile').
  destruct (WriteFile_run P blockId name data w w1 w2 w3 f e3 fe3 _
              Hpin Hint Hload He3 Hdel Hfe Hwrite)
    as (w' & Hrun & He' & Hdb' & Hclock').
  eexists w', _, _. split; [exact Hrun|]. split; [congruence|].
  split; [exact He'|]. split; [exact Hdel|]. split; [reflexivity|].
  split; [reflexivity|]. split.
  { destruct Hfile' as (? & ? & ? & ? & ? & ? & Hmeta).
    destruct Hsame as (? & ? & ? & ? & ? & ? & Hmeta3).
    repeat split; simpl in *; try congruence;
      intros k; by rewrite <- Hmeta3, <- Hmeta. }
  split; [reflexivity|]. simpl. by rewrite Hpc, Hwi.
Qed.

(** X22. After [WriteFile] has written [data] to a file that exists and is
    not circular, [ReadFile] returns offset 0 and exactly [data], whatever
    parts the backing store still holds for the file, as long as the store
    answers the request for parts without an error. *)
Theorem WriteFile_ReadFile P fuel blockId name (data : list byte)
    (w : World D) f :
  0 < P ->
  2 * Z.of_nat (length data) + 2 * P <= Int64.max_int ->
  Stat blockId name w = Ret ((Some f, None), w) ->
  Circular (Opts f) = false ->
  0 <= MaxSize (Opts f) ->
  (forall partsNeeded,
      (dbGetFileParts blockId name partsNeeded (db w)).2 = None) ->
  (Z.to_nat (Z.of_nat (length data) `div` P + 2) <= fuel)%nat ->
  exists w' w'',
    WriteFile P blockId name data w = Ret (None, w') /\
    ReadFile P fuel blockId name w' = Ret ((0, data, None), w'').
Proof.
  intros HP Hrange HStat Hcirc Hmax Hdb Hfuel.
  unfold Int64.max_int in Hrange.
  destruct (WriteFile_entry P blockId name data w f
              ltac:(unfold Int64.max_int; lia)
              ltac:(unfold Int64.max_int; lia) HStat Hcirc)
    as (w' & e' & fe' & Hrun & Hdb' & He' & Hdel & Hfe & _ & Hsame & Hdes & _).
  destruct Hsame as (_ & _ & Hopts & _ & Hsz & _). simpl in Hopts, Hsz.
  set (partsNeeded :=
         foldPart P (File fe')
         <$> partRange (0 `div` P)
               ((0 + Z.of_nat (length data)) `div` P)).
  specialize (Hdb partsNeeded). rewrite <- Hdb' in Hdb.
  destruct (dbGetFileParts blockId name partsNeeded (db w'))
    as [stored err] eqn:Hquery. simpl in Hdb. subst err.
  pose proof (ReadAt_bytes_pinned P fuel blockId name 0
                (Z.of_nat (length data)) w' e' fe' stored HP He' Hdel Hfe)
    as Hread.
  rewrite Hopts, Hcirc, Hsz in Hread. cbv zeta in Hread. simpl andb in Hread.
  cbv iota in Hread.
  destruct Hread as (w'' & Hread & _);
    [done|done|done|lia|unfold Int64.max_int; lia|
     unfold Int64.max_int; lia|done| |].
  { unfold partsNeeded in Hquery. unfold foldPart in *.
    rewrite Hopts, Hcirc in Hquery |- *. exact Hquery. }
  exists w', w''. split; [exact Hrun|].
  unfold ReadFile.
  rewrite (M_bind_Ret _ _ _ _ _ (Stat_cached _ _ _ _ _ He' Hdel Hfe)).
  cbn [DeepCopy Size]. rewrite Hsz, Hread. do 4 f_equal.
  rewrite Z.sub_0_r, Z.min_id.
  apply list_eq. intros j. rewrite list_lookup_fmap.
  destruct (decide (j < length data)%nat) as [Hj|Hj].
  - rewrite (lookup_seqZ_lt 0) by lia. simpl.
    destruct (fileChunks_lookup P data (Z.of_nat j) HP ltac:(lia))
      as [Hchunk Hbyte].
    unfold visibleByte, visiblePart, foldPart. rewrite Z.add_0_l.
    rewrite Hopts, Hcirc, Hdes, Hchunk. unfold fileChunk at 1.
    fold (fileChunk P data (Z.of_nat j `div` P)). rewrite Hbyte.
    rewrite Nat2Z.id.
    destruct (data !! j) eqn:Hdata; [done|].
    apply lookup_ge_None in Hdata. lia.
  - rewrite (lookup_seqZ_ge 0) by lia. simpl.
    symmetry. apply lookup_ge_None. lia.
Qed.

End RoundTrip.

(** ** Appending to a file the cache holds *)

Lemma fileChunk_prefix (P : Z) (full data : list byte) (i : Z) :
  0 < P -> 0 <= i -> (i + 1) * P <= Z.of_nat (length full) ->
  fileChunk P (full ++ data) i = fileChunk P full i.
Proof.
  intros HP Hi Hlen. unfold fileChunk. do 2 f_equal.
  rewrite drop_app_le by nia.
  apply take_app_le. rewrite length_drop. nia.
Qed.

Lemma fileChunks_prefix (P : Z) (full data : list byte) (k : Z) :
  0 < P -> k * P <= Z.of_nat (length full) ->
  fileChunk P (full ++ data) <$> seqZ 0 k = fileChunk P full <$> seqZ 0 k.
Proof.
  intros HP Hk. apply list_fmap_ext. intros j i [-> Hj]%lookup_seqZ.
  apply fileChunk_prefix; [done|lia|nia].
Qed.

Lemma grownTo_present (des : list (option DataCacheEntry)) (pi : Z) slot :
  des !! Z.to_nat pi = Some slot -> grownTo des pi = des.
Proof.
  intros Hslot%lookup_lt_Some. unfold grownTo.
  replace (Z.to_nat (pi + 1) - length des)%nat with 0%nat by lia.
  apply app_nil_r.
Qed.

(** One round of the write loop on a part the entry holds. *)
Lemma writeAtLoop_step (P : Z) (n : nat) (fe : FileCacheEntry) (offset : Z)
    (data : list byte) (e : CacheEntry) (dce : DataCacheEntry) :
  0 < P <= Int64.max_int ->
  FileEntry e = Some fe ->
  Circular (Opts (File fe)) = false ->
  0 <= offset ->
  offset + Z.of_nat (length data) <= Int64.max_int ->
  data <> [] ->
  DataEntries e !! Z.to_nat (offset `div` P) = Some (Some dce) ->
  Flushing dce = false ->
  Z.of_nat (length (Data dce)) <= P ->
  let po := offset `mod` P in
  let nw := Z.min (Z.of_nat (length data)) (P - po) in
  Entry.writeAtLoop P (S n) offset data e
  = Entry.writeAtLoop P n (offset + nw) (drop (Z.to_nat nw) data)
      (setDataEntries e
         (<[Z.to_nat (offset `div` P) :=
              Some {| Dirty := true; Flushing := false; PartIdx := PartIdx dce;
                      Data := take (Z.to_nat po)
                                (Data dce ++ replicate (Z.to_nat po) x00)
                              ++ take (Z.to_nat nw) data
                              ++ drop (Z.to_nat (po + nw)) (Data dce) |}]>
            (DataEntries e))).
Proof.
  intros HP Hfe Hcirc Hoff Hend Hdata Hslot Hfl Hlen po nw.
  assert (0 <= offset `div` P) as Hq by (apply Z.div_pos; lia).
  assert (partAt (grownTo (DataEntries e) (offset `div` P)) (offset `div` P)
          = Some dce) as Hpart.
  { unfold partAt. by rewrite (grownTo_present _ _ _ Hslot), Hslot. }
  rewrite (writeAtLoop_round P n offset data e fe (offset `div` P));
    [|done|done|done|done|done| |done].
  - rewrite Hpart, (grownTo_present _ _ _ Hslot). simpl default.
    by rewrite Hfl.
  - rewrite partIdxAtOffset_nonneg; [|lia|lia|by rewrite Hcirc].
    unfold partContaining. by rewrite Hcirc.
Qed.

Lemma writeAtLoop_append (P : Z) (fe : FileCacheEntry) (full data : list byte)
    (e : CacheEntry) (n : nat) :
  0 < P <= Int64.max_int ->
  FileEntry e = Some fe ->
  Circular (Opts (File fe)) = false ->
  Z.of_nat (length full) + Z.of_nat (length data) <= Int64.max_int ->
  DataEntries e = fileChunks P full ->
  (length data <= n)%nat ->
  Entry.writeAtLoop P n (Z.of_nat (length full)) data e
  = Ret (setDataEntries e (fileChunks P (full ++ data))).
Proof.
  intros HP Hfe Hcirc Hmax Hdes Hn.
  set (L := Z.of_nat (length full)) in *.
  pose proof (Z.div_mod L P ltac:(lia)) as Hdm.
  pose proof (Z.mod_pos_bound L P ltac:(lia)) as Hpo.
  assert (0 <= L `div` P) as Hq by (apply Z.div_pos; lia).
  destruct (decide (data = [])) as [->|Hne].
  { rewrite app_nil_r, <- Hdes. destruct n; by destruct e. }
  assert (0 < Z.of_nat (length data)) as Hpos.
  { destruct data; [done|simpl; lia]. }
  assert (Z.of_nat (length (full ++ data)) <= Int64.max_int) as Hmax'.
  { rewrite length_app. lia. }
  destruct (decide (L `mod` P = 0)) as [Hal|Hnal].
  - pose proof (writeAtLoop_chunks P fe (full ++ data) HP Hcirc Hmax'
                  n (L `div` P) e Hfe) as Hloop.
    replace (L `div` P * P) with L in Hloop by lia.
    assert (drop (Z.to_nat L) (full ++ data) = data) as Hd.
    { unfold L. rewrite Nat2Z.id. apply drop_app_length. }
    rewrite Hd in Hloop.
    apply Hloop; [done| | |done].
    + apply Z.div_le_lower_bound; [lia|]. rewrite length_app. lia.
    + rewrite Hdes, fileChunks_prefix by lia. unfold fileChunks.
      do 2 f_equal. fold L. symmetry. apply fileChunks_count_le_eq; lia.
  - destruct n as [|n]; [simpl in Hn; lia|].
    assert (fileChunks P full !! Z.to_nat (L `div` P)
            = Some (fileChunk P full (L `div` P))) as Hslot.
    { unfold fileChunks. rewrite list_lookup_fmap.
      rewrite (lookup_seqZ_lt 0); [simpl; do 2 f_equal; lia|].
      fold L. rewrite (fileChunks_count P L (L `div` P)) by lia. lia. }
    assert (take (Z.to_nat P) (drop (Z.to_nat (L `div` P * P)) full)
            = drop (Z.to_nat (L `div` P * P)) full) as Hold.
    { apply take_ge. rewrite length_drop. lia. }
    assert (length (drop (Z.to_nat (L `div` P * P)) full)
            = Z.to_nat (L `mod` P)) as Holdlen.
    { rewrite length_drop. lia. }
    rewrite (writeAtLoop_step P n fe L data e
               {| Dirty := true; Flushing := false; PartIdx := L `div` P;
                  Data := take (Z.to_nat P)
                            (drop (Z.to_nat (L `div` P * P)) full) |});
      [|done|done|done|lia|lia|done|by rewrite Hdes|done|
       simpl; rewrite length_take; lia].
    cbn [Data PartIdx]. rewrite Hold.
    set (nw := Z.min (Z.of_nat (length data)) (P - L `mod` P)).
    assert (take (Z.to_nat (L `mod` P))
              (drop (Z.to_nat (L `div` P * P)) full
               ++ replicate (Z.to_nat (L `mod` P)) x00)
            ++ take (Z.to_nat nw) data
            ++ drop (Z.to_nat (L `mod` P + nw))
                 (drop (Z.to_nat (L `div` P * P)) full)
            = take (Z.to_nat P)
                (drop (Z.to_nat (L `div` P * P)) (full ++ data))) as ->.
    { rewrite take_app_le by lia. rewrite take_ge by lia.
      rewrite (drop_ge (drop _ full)) by lia. rewrite app_nil_r.
      rewrite drop_app_le by lia. rewrite take_app, Holdlen.
      rewrite (take_ge (drop _ full)) by lia. f_equal.
      subst nw. destruct (Z.le_ge_cases (Z.of_nat (length data))
                            (P - L `mod` P)).
      - rewrite Z.min_l by lia. rewrite !take_ge; [done|lia..].
      - rewrite Z.min_r by lia. f_equal. lia. }
    fold (fileChunk P (full ++ data) (L `div` P)).
    assert (<[Z.to_nat (L `div` P) := fileChunk P (full ++ data) (L `div` P)]>
              (DataEntries e)
            = fileChunk P (full ++ data) <$> seqZ 0 (L `div` P + 1)) as Hdes'.
    { rewrite Hdes. unfold fileChunks. fold L.
      rewrite (fileChunks_count P L (L `div` P)) by lia.
      rewrite !(seqZ_app 0 (L `div` P) 1) by lia. rewrite !fmap_app.
      rewrite (fileChunks_prefix P full data) by lia.
      rewrite insert_app_r_alt
        by (rewrite length_fmap, length_seqZ; lia).
      rewrite length_fmap, length_seqZ. f_equal.
      replace (Z.to_nat (L `div` P) - Z.to_nat (L `div` P))%nat with 0%nat
        by lia.
      simpl; try done; do 2 f_equal; lia. }
    rewrite Hdes'.
    destruct (Z.le_gt_cases (Z.of_nat (length data)) (P - L `mod` P))
      as [Hshort|Hlong].
    + assert (nw = Z.of_nat (length data)) as -> by (subst nw; lia).
      rewrite drop_ge by lia.
      unfold fileChunks. rewrite length_app, Nat2Z.inj_add. fold L.
      rewrite (fileChunks_count P (L + Z.of_nat (length data)) (L `div` P))
        by lia.
      by destruct n.
    + assert (nw = P - L `mod` P) as -> by (subst nw; lia).
      pose proof (writeAtLoop_chunks P fe (full ++ data) HP Hcirc Hmax'
                    n (L `div` P + 1)
                    (setDataEntries e
                       (fileChunk P (full ++ data)
                        <$> seqZ 0 (L `div` P + 1))) Hfe) as Hloop.
      replace ((L `div` P + 1) * P) with (L + (P - L `mod` P)) in Hloop by lia.
      assert (drop (Z.to_nat (L + (P - L `mod` P))) (full ++ data)
              = drop (Z.to_nat (P - L `mod` P)) data) as Hrest.
      { rewrite drop_app_ge by lia. f_equal. lia. }
      rewrite Hrest in Hloop. rewrite Hloop; [done|lia| |done|].
      * apply Z.div_le_lower_bound; [lia|]. rewrite length_app. lia.
      * rewrite length_drop. simpl in Hn. lia.
Qed.

Section Appending.

Context {D : Type} `{!BackingStore D}.

(** [loadLastDataBlock] on an entry that holds every part of its file: the
    last part, if it is incomplete, is requested from the store and then
    skipped, because the entry has it already. *)
Lemma loadLastDataBlock_chunks P blockId name (w : World D) e fe full :
  0 < P <= Int64.max_int ->
  Cache (store w) !! (blockId, name) = Some e ->
  Deleted e = false ->
  FileEntry e = Some fe ->
  Circular (Opts (File fe)) = false ->
  Size (File fe) = Z.of_nat (length full) ->
  Z.of_nat (length full) <= Int64.max_int ->
  DataEntries e = fileChunks P full ->
  partsOnRequest blockId name (db w) ->
  exists w',
    loadLastDataBlock P blockId name w = Ret (None, w') /\
    Cache (store w') !! (blockId, name) = Some e /\
    db w' = db w /\ clock w' = clock w.
Proof.
  intros HP He Hdel Hfe Hcirc Hsize Hmax Hdes Hdb.
  set (L := Z.of_nat (length full)) in *.
  pose proof (Z.div_mod L P ltac:(lia)) as Hdm.
  pose proof (Z.mod_pos_bound L P ltac:(lia)) as Hpo.
  assert (0 <= L `div` P) as Hq by (apply Z.div_pos; lia).
  unfold loadLastDataBlock, withLockExists. munfold.
  rewrite He, Hdel, Hfe. unfold getLastIncompletePartNum.
  rewrite Hsize, (go_mod_pos L P) by lia. cbn [mbind outcome_bind].
  destruct (Z.eqb_spec (L `mod` P) 0) as [Hal|Hnal].
  { simpl. by exists w. }
  rewrite partIdxAtOffset_nonneg; [|lia|lia|by rewrite Hcirc].
  unfold partContaining. rewrite Hcirc.
  destruct (Z.eqb_spec (L `div` P) NoPartIdx) as [Heq|_];
    [unfold NoPartIdx in Heq; lia|].
  unfold loadDataParts, withLockExists. munfold.
  destruct (Hdb [L `div` P]) as [Herr Hdom].
  destruct (dbGetFileParts blockId name [L `div` P] (db w))
    as [partDataMap err] eqn:Hquery.
  simpl in Herr, Hdom. subst err.
  rewrite He, Hdel, Hfe. simpl maxOfIntArr.
  assert (fileChunks P full !! Z.to_nat (L `div` P)
          = Some (fileChunk P full (L `div` P))) as Hslot.
  { unfold fileChunks. rewrite list_lookup_fmap.
    rewrite (lookup_seqZ_lt 0); [simpl; do 2 f_equal; lia|].
    fold L. rewrite (fileChunks_count P L (L `div` P)) by lia. lia. }
  rewrite (ensurePart_present (L `div` P) e (fileChunk P full (L `div` P)))
    by (done || by rewrite Hdes).
  cbn [outcome_bind snd].
  assert (map_fold
            (fun (partIdx : Z) (partData : DataCacheEntry)
                 (acc : outcome CacheEntry) =>
               match acc with
               | Ret e0 =>
                   match sliceIndex (DataEntries e0) partIdx with
                   | Ret (Some _) => Ret e0
                   | Ret None =>
                       Ret (setDataEntries e0
                              (<[Z.to_nat partIdx := Some partData]>
                                 (DataEntries e0)))
                   | Panic p => Panic p
                   | OutOfFuel => OutOfFuel
                   end
               | Panic p => Panic p
               | OutOfFuel => OutOfFuel
               end) (Ret e) partDataMap = Ret e) as Hfold.
  { revert Hdom.
    apply (map_fold_weak_ind
             (fun r (m : gmap Z DataCacheEntry) =>
                (forall i, is_Some (m !! i) -> i ∈ [L `div` P]) -> r = Ret e)).
    - done.
    - intros i x m r Hnone IH Hdom.
      rewrite IH; last first.
      { intros j [y Hj]. apply Hdom. exists y.
        rewrite lookup_insert_ne; [done|]. intros ->. congruence. }
      assert (i = L `div` P) as ->.
      { assert (i ∈ [L `div` P]) as Hin
          by (apply Hdom; rewrite lookup_insert_eq; by eexists).
        by apply list_elem_of_singleton in Hin. }
      rewrite Hdes, (sliceIndex_lookup _ _ _ Hq Hslot). done. }
  rewrite Hfold. simpl.
  eexists. split; [reflexivity|]. simpl. by rewrite lookup_insert_eq.
Qed.

Lemma writeAtToCache_append P now data e fe full :
  0 < P <= Int64.max_int ->
  FileEntry e = Some fe ->
  Circular (Opts (File fe)) = false ->
  Size (File fe) = Z.of_nat (length full) ->
  Z.of_nat (length full) + Z.of_nat (length data) <= Int64.max_int ->
  DataEntries e = fileChunks P full ->
  exists file',
    writeAtToCache P now (Size (File fe)) data false e
    = Ret (setFileEntry (setDataEntries e (fileChunks P (full ++ data)))
             (Some (mkFileCacheEntry true false file'))) /\
    sameFile file'
      (setModTs (setSize (File fe)
                   (Z.of_nat (length full) + Z.of_nat (length data))) now).
Proof.
  intros HP Hfe Hcirc Hsize Hmax Hdes. unfold writeAtToCache, Entry.writeAt.
  rewrite Hsize.
  rewrite (writeAtLoop_append P fe full data e (length data))
    by done.
  cbn [mbind outcome_bind].
  unfold modifyFileData. simpl FileEntry. rewrite Hfe.
  rewrite (Int64Facts.add_id (Z.of_nat (length full)) (Z.of_nat (length data)))
    by (unfold Int64.in_range, Int64.min_int, Int64.max_int in *; lia).
  destruct (FileFlushing fe) eqn:Hfl; simpl; rewrite ?Hfl, orb_false_r, Hsize;
    (destruct (Z.ltb_spec (Z.of_nat (length full))
                (Z.of_nat (length full) + Z.of_nat (length data)));
     eexists; (split; [reflexivity|]);
     repeat split; simpl; try done; try lia;
     intros k; by destruct (Meta (File fe))).
Qed.

Lemma AppendData_entry P blockId name (data full : list byte)
    (w : World D) f :
  0 < P <= Int64.max_int ->
  Stat blockId name w = Ret ((Some f, None), w) ->
  Circular (Opts f) = false ->
  Size f = Z.of_nat (length full) ->
  cachedData w (blockId, name) = fileChunks P full ->
  Z.of_nat (length full) + Z.of_nat (length data) <= Int64.max_int ->
  partsOnRequest blockId name (db w) ->
  exists w' e' fe',
    AppendData P blockId name data w = Ret (None, w') /\
    db w' = db w /\
    Cache (store w') !! (blockId, name) = Some e' /\
    Deleted e' = false /\
    FileEntry e' = Some fe' /\
    sameFile (File fe')
      (setModTs (setSize f (Z.of_nat (length full) + Z.of_nat (length data)))
         (clock w)) /\
    DataEntries e' = fileChunks P (full ++ data).
Proof.
  intros HP HStat Hcirc Hsize Hcached Hmax Hdb.
  destruct (write_prologue blockId name (mkWriteIntention None true false)
              w w f HStat)
    as (w1 & w2 & w3 & e3 & fe3 & Hpin & Hint & Hload & He3 & Hdel & Hfe
        & Hsame & Hdes3 & _ & _ & Hdb3 & Hclock3).
  destruct Hsame as (Hbid & Hname & Hopts & Hcts & Hsz & Hmts & Hmeta3).
  assert (Circular (Opts (File fe3)) = false) as Hcirc3 by congruence.
  assert (Size (File fe3) = Z.of_nat (length full)) as Hsize3 by congruence.
  rewrite Hcached in Hdes3.
  destruct (loadLastDataBlock_chunks P blockId name w3 e3 fe3 full
              HP He3 Hdel Hfe Hcirc3 Hsize3 ltac:(lia) Hdes3
              ltac:(by rewrite Hdb3))
    as (w4 & Hlast & He4 & Hdb4 & Hclock4).
  destruct (writeAtToCache_append P (clock w4) data e3 fe3 full
              HP Hfe Hcirc3 Hsize3 Hmax Hdes3)
    as (file' & Hwrite & Hfile').
  destruct (lock_write P blockId name (Size (File fe3)) data false w4 e3 fe3 _
              He4 Hdel Hfe Hwrite) as (w5 & Hlock & He5 & Hdb5 & Hclock5).
  destruct (write_epilogue blockId name (NextIntentionId (store w))
              (None : option error) w5 _ He5)
    as (w6 & Hend & He6 & Hdb6 & Hclock6).
  eexists w6, _, _. split.
  { unfold AppendData.
    rewrite (M_bind_Ret _ _ _ _ _ Hpin).
    rewrite (M_bind_Ret _ _ _ _ _ Hint).
    rewrite (M_bind_Ret _ _ w2 None w5); [exact Hend|].
    rewrite (M_bind_Ret _ _ _ _ _ Hload).
    rewrite (M_bind_Ret _ _ _ _ _ Hlast).
    unfold appendDataToCache.
    rewrite (M_bind_Ret _ _ w4 (None : option error) w5); [done|].
    rewrite (M_bind_Ret _ _ w4 (tt, None) w5); [done|].
    unfold withLockExists. munfold. rewrite He4, Hdel, Hfe.
    revert Hlock. unfold withLockExists. munfold.
    by rewrite He4, Hdel, Hfe. }
  split; [congruence|]. split; [exact He6|]. split; [exact Hdel|].
  split; [reflexivity|]. split; [|reflexivity].
  destruct Hfile' as (? & ? & ? & ? & ? & ? & Hmeta).
  repeat split; simpl in *; try congruence;
    intros k; by rewrite <- Hmeta3, <- Hmeta.
Qed.

(** X23. [AppendData] on a file that is not circular and whose bytes the
    cache holds in full (as after [WriteFile], or a file that is still
    empty) returns no error and leaves the backing store alone; afterwards
    the cache holds the old bytes followed by the new ones, cut into parts,
    the size has grown by the length of the data and the modification time
    is the time of the call. *)
Theorem AppendData_appends P blockId name (data full : list byte)
    (w : World D) f :
  0 < P <= Int64.max_int ->
  Stat blockId name w = Ret ((Some f, None), w) ->
  Circular (Opts f) = false ->
  Size f = Z.of_nat (length full) ->
  cachedData w (blockId, name) = fileChunks P full ->
  Z.of_nat (length full) + Z.of_nat (length data) <= Int64.max_int ->
  partsOnRequest blockId name (db w) ->
  exists w' f',
    AppendData P blockId name data w = Ret (None, w') /\
    db w' = db w /\
    cachedData w' (blockId, name) = fileChunks P (full ++ data) /\
    Stat blockId name w' = Ret ((Some f', None), w') /\
    sameFile f'
      (setModTs (setSize f (Z.of_nat (length full) + Z.of_nat (length data)))
         (clock w)).
Proof.
  intros HP HStat Hcirc Hsize Hcached Hmax Hdb.
  destruct (AppendData_entry P blockId name data full w f
              HP HStat Hcirc Hsize Hcached Hmax Hdb)
    as (w' & e' & fe' & Hrun & Hdb' & He' & Hdel & Hfe & Hsame & Hdes).
  eexists w', _. split; [exact Hrun|]. split; [exact Hdb'|]. split.
  { unfold cachedData. by rewrite He'. }
  split; [exact (Stat_cached _ _ _ _ _ He' Hdel Hfe)|].
  destruct Hsame as (? & ? & ? & ? & ? & ? & Hmeta).
  repeat split; simpl in *; try congruence.
  intros k. rewrite <- Hmeta. by destruct (Meta (File fe')).
Qed.

End Appending.

Section Composition.

Context {D : Type} `{!BackingStore D}.

(** [ReadFile] on an entry that holds every part of its file returns the
    bytes of the parts. *)
Lemma ReadFile_chunks P fuel blockId name (w : World D) e fe full :
  0 < P ->
  2 * Z.of_nat (length full) + 2 * P <= Int64.max_int ->
  Cache (store w) !! (blockId, name) = Some e ->
  Deleted e = false ->
  FileEntry e = Some fe ->
  Circular (Opts (File fe)) = false ->
  0 <= MaxSize (Opts (File fe)) ->
  Size (File fe) = Z.of_nat (length full) ->
  DataEntries e = fileChunks P full ->
  (forall partsNeeded,
      (dbGetFileParts blockId name partsNeeded (db w)).2 = None) ->
  (Z.to_nat (Z.of_nat (length full) `div` P + 2) <= fuel)%nat ->
  exists w',
    ReadFile P fuel blockId name w = Ret ((0, full, None), w').
Proof.
  intros HP Hrange He Hdel Hfe Hcirc Hmax Hsz Hdes Hdb Hfuel.
  unfold Int64.max_int in Hrange.
  set (partsNeeded :=
         foldPart P (File fe)
         <$> partRange (0 `div` P)
               ((0 + Z.of_nat (length full)) `div` P)).
  specialize (Hdb partsNeeded).
  destruct (dbGetFileParts blockId name partsNeeded (db w))
    as [stored err] eqn:Hquery. simpl in Hdb. subst err.
  pose proof (ReadAt_bytes_pinned P fuel blockId name 0
                (Z.of_nat (length full)) w e fe stored HP He Hdel Hfe)
    as Hread.
  rewrite Hcirc, Hsz in Hread. cbv zeta in Hread. simpl andb in Hread.
  cbv iota in Hread.
  destruct Hread as (w' & Hread & _);
    [done|done|done|lia|unfold Int64.max_int; lia|
     unfold Int64.max_int; lia|done|exact Hquery|].
  exists w'.
  unfold ReadFile.
  rewrite (M_bind_Ret _ _ _ _ _ (Stat_cached _ _ _ _ _ He Hdel Hfe)).
  cbn [DeepCopy Size]. rewrite Hsz, Hread. do 4 f_equal.
  rewrite Z.sub_0_r, Z.min_id.
  apply list_eq. intros j. rewrite list_lookup_fmap.
  destruct (decide (j < length full)%nat) as [Hj|Hj].
  - rewrite (lookup_seqZ_lt 0) by lia. simpl.
    destruct (fileChunks_lookup P full (Z.of_nat j) HP ltac:(lia))
      as [Hchunk Hbyte].
    unfold visibleByte, visiblePart, foldPart. rewrite Z.add_0_l.
    rewrite Hcirc, Hdes, Hchunk. unfold fileChunk at 1.
    fold (fileChunk P full (Z.of_nat j `div` P)). rewrite Hbyte.
    rewrite Nat2Z.id.
    destruct (full !! j) eqn:Hfull; [done|].
    apply lookup_ge_None in Hfull. lia.
  - rewrite (lookup_seqZ_ge 0) by lia. simpl.
    symmetry. apply lookup_ge_None. lia.
Qed.

(** X24. On a file that exists and is not circular, [WriteFile] of one
    slice of bytes followed by [AppendData] of another, and then
    [ReadFile], returns offset 0 and the first slice followed by the
    second, as long as the store answers requests for parts without an
    error and with none but the parts asked for. *)
Theorem WriteFile_AppendData_ReadFile P fuel blockId name
    (data more : list byte) (w : World D) f :
  0 < P ->
  2 * (Z.of_nat (length data) + Z.of_nat (length more)) + 2 * P
  <= Int64.max_int ->
  Stat blockId name w = Ret ((Some f, None), w) ->
  Circular (Opts f) = false ->
  0 <= MaxSize (Opts f) ->
  partsOnRequest blockId name (db w) ->
  (Z.to_nat ((Z.of_nat (length data) + Z.of_nat (length more)) `div` P + 2)
   <= fuel)%nat ->
  exists w1 w2 w3,
    WriteFile P blockId name data w = Ret (None, w1) /\
    AppendData P blockId name more w1 = Ret (None, w2) /\
    ReadFile P fuel blockId name w2 = Ret ((0, data ++ more, None), w3).
Proof.
  intros HP Hrange HStat Hcirc Hmax Hdb Hfuel.
  unfold Int64.max_int in Hrange.
  destruct (WriteFile_entry P blockId name data w f
              ltac:(unfold Int64.max_int; lia)
              ltac:(unfold Int64.max_int; lia) HStat Hcirc)
    as (w1 & e1 & fe1 & Hwrite & Hdb1 & He1 & Hdel1 & Hfe1 & _ & Hsame1
        & Hdes1 & _).
  destruct Hsame1 as (_ & _ & Hopts1 & _ & Hsz1 & _).
  simpl in Hopts1, Hsz1.
  destruct (AppendData_entry P blockId name more data w1 _
              ltac:(unfold Int64.max_int; lia)
              (Stat_cached _ _ _ _ _ He1 Hdel1 Hfe1))
    as (w2 & e2 & fe2 & Happend & Hdb2 & He2 & Hdel2 & Hfe2 & Hsame2 & Hdes2).
  { simpl. congruence. }
  { simpl. exact Hsz1. }
  { unfold cachedData. by rewrite He1. }
  { unfold Int64.max_int. lia. }
  { by rewrite Hdb1. }
  destruct Hsame2 as (_ & _ & Hopts2 & _ & Hsz2 & _).
  simpl in Hopts2, Hsz2.
  destruct (ReadFile_chunks P fuel blockId name w2 e2 fe2 (data ++ more))
    as (w3 & Hread); try done.
  - rewrite length_app. unfold Int64.max_int. lia.
  - congruence.
  - congruence.
  - rewrite length_app. lia.
  - intros partsNeeded. rewrite Hdb2, Hdb1. apply Hdb.
  - rewrite length_app, Nat2Z.inj_add. exact Hfuel.
  - by exists w1, w2, w3.
Qed.

End Composition.

(** ** The scenarios of the properties on contents *)

Lemma MemDB_partsOnRequest blockId name (d : MemDB) :
  partsOnRequest blockId name d.
Proof.
  intros partIdxs. split; [reflexivity|]. simpl.
  intros i [x Hx]. by apply map_lookup_filter_Some in Hx as [_ Hin].
Qed.

(** Forty bytes written to the plain file of [storedWorld], with parts of
    sixteen bytes. *)
Lemma WriteFile_replaces_witness :
  exists w' f',
    WriteFile 16 "b" "f" (bytesA 40) storedWorld = Ret (None, w') /\
    db w' = db storedWorld /\
    cachedData w' ("b", "f")%string = fileChunks 16 (bytesA 40) /\
    Stat "b" "f" w' = Ret ((Some f', None), w') /\
    sameFile f'
      (setModTs (setSize (plainFile "b" "f" (mkFileOpts 0 false false) 4)
                   (Z.of_nat (length (bytesA 40))))
         (clock storedWorld)).
Proof.
  apply (WriteFile_replaces 16 "b" "f" (bytesA 40) storedWorld
           (plainFile "b" "f" (mkFileOpts 0 false false) 4)); side.
Defined.

(** Ten bytes asked of [dirtyEntry], which holds five. *)
Lemma ReadAt_bytes_witness :
  exists w',
    ReadAt 16 8 "b" "f" 0 10 dirtyWorld = Ret ((0, bytesA 5, None), w').
Proof.
  destruct (ReadAt_bytes 16 8 "b" "f" 0 10 dirtyWorld dirtyEntry
              (mkFileCacheEntry true false
                 (plainFile "b" "f" (mkFileOpts 0 false false) 5)) ∅)
    as (w' & Hrun); first [side | discriminate | idtac].
  exists w'. rewrite Hrun. reflexivity.
Defined.

Lemma WriteFile_ReadFile_witness :
  exists w' w'',
    WriteFile 16 "b" "f" (bytesA 40) storedWorld = Ret (None, w') /\
    ReadFile 16 8 "b" "f" w' = Ret ((0, bytesA 40, None), w'').
Proof.
  apply (WriteFile_ReadFile 16 8 "b" "f" (bytesA 40) storedWorld
           (plainFile "b" "f" (mkFileOpts 0 false false) 4));
    first [side | intros; reflexivity].
Defined.

(** Three bytes appended to the empty file of [stubbornWorld]. *)
Lemma AppendData_appends_witness :
  exists w' f',
    AppendData 16 "b" "f" (bytesA 3) stubbornWorld = Ret (None, w') /\
    db w' = db stubbornWorld /\
    cachedData w' ("b", "f")%string = fileChunks 16 ([] ++ bytesA 3) /\
    Stat "b" "f" w' = Ret ((Some f', None), w') /\
    sameFile f'
      (setModTs (setSize (plainFile "b" "f" (mkFileOpts 0 false false) 0)
                   (Z.of_nat (length (@nil byte))
                    + Z.of_nat (length (bytesA 3))))
         (clock stubbornWorld)).
Proof.
  apply (AppendData_appends 16 "b" "f" (bytesA 3) [] stubbornWorld
           (plainFile "b" "f" (mkFileOpts 0 false false) 0));
    first [side | apply MemDB_partsOnRequest].
Defined.

Lemma WriteFile_AppendData_ReadFile_witness :
  exists w1 w2 w3,
    WriteFile 16 "b" "f" (bytesA 40) storedWorld = Ret (None, w1) /\
    AppendData 16 "b" "f" (bytesA 3) w1 = Ret (None, w2) /\
    ReadFile 16 8 "b" "f" w2 = Ret ((0, bytesA 40 ++ bytesA 3, None), w3).
Proof.
  apply (WriteFile_AppendData_ReadFile 16 8 "b" "f" (bytesA 40) (bytesA 3)
           storedWorld (plainFile "b" "f" (mkFileOpts 0 false false) 4));
    first [side | apply MemDB_partsOnRequest].
Defined.

(** ** Reading a range of a file the cache holds *)

Section Slices.

Context {D : Type} `{!BackingStore D}.

(** X25. [ReadAt] on a file that is not circular and whose bytes the cache
    holds in full returns the given offset and the bytes of the range, cut
    short at the end of the file: [size] bytes from [offset] on, or fewer if
    the file ends before. *)
Theorem ReadAt_slice P fuel blockId name offset size (w : World D) e fe
    (full : list byte) :
  0 < P ->
  Cache (store w) !! (blockId, name) = Some e ->
  Deleted e = false ->
  FileEntry e = Some fe ->
  Circular (Opts (File fe)) = false ->
  0 <= MaxSize (Opts (File fe)) ->
  Size (File fe) = Z.of_nat (length full) ->
  DataEntries e = fileChunks P full ->
  0 <= offset -> 0 <= size ->
  Z.of_nat (length full) <= Int64.max_int ->
  offset + 2 * size + 2 * P <= Int64.max_int ->
  (forall partsNeeded,
      (dbGetFileParts blockId name partsNeeded (db w)).2 = None) ->
  (Z.to_nat (size `div` P + 2) <= fuel)%nat ->
  exists w',
    ReadAt P fuel blockId name offset size w
    = Ret ((offset,
            take (Z.to_nat size) (drop (Z.to_nat offset) full),
            None), w').
Proof.
  intros HP He Hdel Hfe Hcirc Hmax Hsz Hdes Hoff Hsize Hlen Hrange Hdb Hfuel.
  unfold Int64.max_int in Hrange, Hlen.
  set (partsNeeded :=
         foldPart P (File fe)
         <$> partRange (offset `div` P) ((offset + size) `div` P)).
  specialize (Hdb partsNeeded).
  destruct (dbGetFileParts blockId name partsNeeded (db w))
    as [stored err] eqn:Hquery. simpl in Hdb. subst err.
  pose proof (ReadAt_bytes_pinned P fuel blockId name offset size w e fe
                stored HP He Hdel Hfe) as Hread.
  rewrite Hcirc, Hsz in Hread. cbv zeta in Hread. simpl andb in Hread.
  cbv iota in Hread.
  destruct Hread as (w' & Hread & _);
    [done|done|done|done|unfold Int64.max_int; lia|
     unfold Int64.max_int; lia|done|exact Hquery|].
  exists w'. rewrite Hread. do 4 f_equal.
  apply list_eq. intros j. rewrite list_lookup_fmap.
  destruct (decide (Z.of_nat j
                    < Z.min size (Z.of_nat (length full) - offset)))
    as [Hj|Hj].
  - rewrite (lookup_seqZ_lt offset) by lia. simpl.
    destruct (fileChunks_lookup P full (offset + Z.of_nat j) HP ltac:(lia))
      as [Hchunk Hbyte].
    unfold visibleByte, visiblePart, foldPart.
    rewrite Hcirc, Hdes, Hchunk. unfold fileChunk at 1.
    fold (fileChunk P full ((offset + Z.of_nat j) `div` P)). rewrite Hbyte.
    rewrite lookup_take_lt by lia. rewrite lookup_drop.
    replace (Z.to_nat (offset + Z.of_nat j)) with (Z.to_nat offset + j)%nat
      by lia.
    destruct (full !! (Z.to_nat offset + j)%nat) eqn:Hfull; [done|].
    apply lookup_ge_None in Hfull. lia.
  - rewrite (lookup_seqZ_ge offset) by lia. simpl.
    symmetry. apply lookup_ge_None. rewrite length_take, length_drop. lia.
Qed.

End Slices.

(** Two bytes from offset 2 of the five bytes ["A"] that [dirtyEntry]
    holds. *)
Lemma ReadAt_slice_witness :
  exists w',
    ReadAt 16 8 "b" "f" 2 2 dirtyWorld
    = Ret ((2, take (Z.to_nat 2) (drop (Z.to_nat 2) (bytesA 5)), None), w').
Proof.
  apply (ReadAt_slice 16 8 "b" "f" 2 2 dirtyWorld dirtyEntry
           (mkFileCacheEntry true false
              (plainFile "b" "f" (mkFileOpts 0 false false) 5))
           (bytesA 5));
    first [side | intros; reflexivity].
Defined.

(** ** Writing into a file the cache holds *)

Lemma chunk_lookup (np a : nat) (l : list byte) (j : nat) :
  take np (drop a l) !! j
  = if decide (j < np)%nat then l !! (a + j)%nat else None.
Proof.
  destruct (decide (j < np)%nat).
  - rewrite lookup_take_lt by done. by rewrite lookup_drop.
  - by rewrite lookup_take_ge by lia.
Qed.

Lemma overlay_lookup (full : list byte) (offset : Z) (data : list byte)
    (p : nat) :
  0 <= offset <= Z.of_nat (length full) ->
  overlay full offset data !! p
  = if decide (p < Z.to_nat offset)%nat then full !! p
    else if decide (p < Z.to_nat offset + length data)%nat
         then data !! (p - Z.to_nat offset)%nat
         else full !! p.
Proof.
  intros Hoff. unfold overlay.
  destruct (decide (p < Z.to_nat offset)%nat).
  - rewrite lookup_app_l by (rewrite length_take; lia).
    by rewrite lookup_take_lt.
  - rewrite lookup_app_r by (rewrite length_take; lia).
    rewrite length_take.
    replace (Z.to_nat offset `min` length full)%nat with (Z.to_nat offset)
      by lia.
    destruct (decide (p < Z.to_nat offset + length data)%nat).
    + by rewrite lookup_app_l by lia.
    + rewrite lookup_app_r by lia. rewrite lookup_drop. f_equal. lia.
Qed.

Lemma overlay_length (full : list byte) (offset : Z) (data : list byte) :
  0 <= offset <= Z.of_nat (length full) ->
  Z.of_nat (length (overlay full offset data))
  = Z.max (Z.of_nat (length full)) (offset + Z.of_nat (length data)).
Proof.
  intros Hoff. unfold overlay.
  rewrite !length_app, length_take, length_drop. lia.
Qed.

Lemma overlay_nil (full : list byte) (offset : Z) :
  overlay full offset [] = full.
Proof.
  unfold overlay. simpl. rewrite Nat.add_0_r. apply take_drop.
Qed.

Lemma overlay_overlay (full : list byte) (offset : Z) (d1 d2 : list byte) :
  0 <= offset <= Z.of_nat (length full) ->
  overlay (overlay full offset d1) (offset + Z.of_nat (length d1)) d2
  = overlay full offset (d1 ++ d2).
Proof.
  intros Hoff. apply list_eq. intros p.
  pose proof (overlay_length full offset d1 Hoff) as Hlen.
  rewrite !overlay_lookup by lia. rewrite length_app.
  repeat (destruct (decide _)); try lia; try done.
  - by rewrite lookup_app_l by lia.
  - rewrite lookup_app_r by lia. f_equal. lia.
Qed.

Lemma overlay_append (full data : list byte) :
  overlay full (Z.of_nat (length full)) data = full ++ data.
Proof.
  unfold overlay. rewrite Nat2Z.id, take_ge by lia.
  rewrite drop_ge by lia. by rewrite app_nil_r.
Qed.

(** The chunks of a file after a write that stays within part [i]. *)
Lemma fileChunk_overlay_other (P : Z) (cur d1 : list byte) (offset i i' : Z) :
  0 < P -> 0 <= offset <= Z.of_nat (length cur) ->
  i = offset `div` P ->
  offset `mod` P + Z.of_nat (length d1) <= P ->
  0 <= i' -> i' <> i ->
  fileChunk P (overlay cur offset d1) i' = fileChunk P cur i'.
Proof.
  intros HP Hoff -> Hfit Hi' Hne.
  pose proof (Z.div_mod offset P ltac:(lia)) as Hdm.
  pose proof (Z.mod_pos_bound offset P HP) as Hpo.
  unfold fileChunk. do 2 f_equal. apply list_eq. intros j.
  rewrite !chunk_lookup. destruct (decide (j < Z.to_nat P)%nat); [|done].
  rewrite overlay_lookup by done.
  repeat (destruct (decide _)); try done; exfalso; nia.
Qed.

Lemma fileChunk_overlay_same (P : Z) (cur d1 : list byte) (offset : Z) :
  0 < P -> 0 <= offset <= Z.of_nat (length cur) ->
  offset `mod` P + Z.of_nat (length d1) <= P ->
  let po := offset `mod` P in
  let old := take (Z.to_nat P)
               (drop (Z.to_nat (offset `div` P * P)) cur) in
  take (Z.to_nat po) (old ++ replicate (Z.to_nat po) x00)
  ++ d1 ++ drop (Z.to_nat (po + Z.of_nat (length d1))) old
  = take (Z.to_nat P)
      (drop (Z.to_nat (offset `div` P * P)) (overlay cur offset d1)).
Proof.
  intros HP Hoff Hfit po old.
  pose proof (Z.div_mod offset P ltac:(lia)) as Hdm.
  pose proof (Z.mod_pos_bound offset P HP) as Hpo. fold po in Hdm, Hpo, Hfit.
  assert (0 <= offset `div` P) as Hq by (apply Z.div_pos; lia).
  assert (Z.to_nat po <= length old)%nat as Hold.
  { unfold old. rewrite length_take, length_drop. nia. }
  rewrite take_app_le by done.
  apply list_eq. intros j.
  rewrite chunk_lookup, overlay_lookup by done.
  destruct (decide (j < Z.to_nat po)%nat) as [Hj|Hj].
  - rewrite lookup_app_l by (rewrite length_take; lia).
    rewrite lookup_take_lt by done. unfold old. rewrite chunk_lookup.
    repeat (destruct (decide _)); try done; exfalso; nia.
  - rewrite lookup_app_r by (rewrite length_take; lia).
    rewrite length_take.
    replace (Z.to_nat po `min` length old)%nat with (Z.to_nat po) by lia.
    destruct (decide (j < Z.to_nat po + length d1)%nat) as [Hj'|Hj'].
    + rewrite lookup_app_l by lia.
      repeat (destruct (decide _)); try (exfalso; nia).
      f_equal. nia.
    + rewrite lookup_app_r by lia. rewrite lookup_drop.
      unfold old. rewrite chunk_lookup.
      repeat (destruct (decide _)); try done; try (exfalso; nia).
      f_equal. nia.
Qed.

Lemma fileChunks_count_bounds (P len : Z) :
  0 < P -> 0 <= len ->
  let m := (len + P - 1) `div` P in
  len <= m * P /\ m * P < len + P /\ 0 <= m.
Proof.
  intros HP Hlen m.
  pose proof (Z.div_mod (len + P - 1) P ltac:(lia)) as Hdm.
  pose proof (Z.mod_pos_bound (len + P - 1) P HP) as Hmod.
  fold m in Hdm.
  assert (0 <= m) by (apply Z.div_pos; lia). nia.
Qed.

Lemma fileChunks_count_unique (P len m : Z) :
  0 < P -> len <= m * P -> m * P < len + P ->
  (len + P - 1) `div` P = m.
Proof.
  intros HP Hlo Hhi. symmetry.
  apply (Z.div_unique_pos _ _ _ (len + P - 1 - m * P)); lia.
Qed.

(** One round of the write loop into a part the file has. *)
Lemma writeAtLoop_round_existing (P : Z) (n : nat) (fe : FileCacheEntry)
    (cur data : list byte) (offset : Z) (j : nat) (e : CacheEntry) :
  0 < P <= Int64.max_int ->
  FileEntry e = Some fe ->
  Circular (Opts (File fe)) = false ->
  0 <= offset <= Z.of_nat (length cur) ->
  offset + Z.of_nat (length data) <= Int64.max_int ->
  data <> [] ->
  DataEntries e = fileChunks P cur ++ replicate j None ->
  offset `div` P < (Z.of_nat (length cur) + P - 1) `div` P ->
  let nw := Z.min (Z.of_nat (length data)) (P - offset `mod` P) in
  let cur' := overlay cur offset (take (Z.to_nat nw) data) in
  Entry.writeAtLoop P (S n) offset data e
  = Entry.writeAtLoop P n (offset + nw) (drop (Z.to_nat nw) data)
      (setDataEntries e (fileChunks P cur' ++ replicate j None)) /\
  (Z.of_nat (length cur') + P - 1) `div` P
  = (Z.of_nat (length cur) + P - 1) `div` P.
Proof.
  intros HP Hfe Hcirc Hoff Hend Hdata Hdes Hi nw cur'.
  set (i := offset `div` P) in *. set (po := offset `mod` P) in *.
  set (m := (Z.of_nat (length cur) + P - 1) `div` P) in *.
  pose proof (Z.div_mod offset P ltac:(lia)) as Hdm. fold i po in Hdm.
  pose proof (Z.mod_pos_bound offset P ltac:(lia)) as Hpo. fold po in Hpo.
  assert (0 <= i) as Hi0 by (apply Z.div_pos; lia).
  destruct (fileChunks_count_bounds P (Z.of_nat (length cur))
              ltac:(lia) ltac:(lia)) as (Hm1 & Hm2 & Hm0).
  fold m in Hm1, Hm2, Hm0.
  assert (0 < Z.of_nat (length data)) as Hpos.
  { destruct data; [done|simpl; lia]. }
  assert (1 <= nw <= Z.of_nat (length data) /\ po + nw <= P) as Hnw
    by (subst nw; fold po; lia).
  assert (length (take (Z.to_nat nw) data) = Z.to_nat nw) as Hd1
    by (rewrite length_take; lia).
  assert (Z.of_nat (length cur')
          = Z.max (Z.of_nat (length cur)) (offset + nw)) as Hlen'.
  { unfold cur'. rewrite overlay_length by done. rewrite Hd1. lia. }
  assert ((Z.of_nat (length cur') + P - 1) `div` P = m) as Hm'.
  { apply fileChunks_count_unique; [lia| |]; rewrite Hlen'; nia. }
  split; [|exact Hm'].
  assert (fileChunks P cur !! Z.to_nat i = Some (fileChunk P cur i)) as Hslot.
  { unfold fileChunks. rewrite list_lookup_fmap.
    rewrite (lookup_seqZ_lt 0); [simpl; do 2 f_equal; lia|]. fold m. lia. }
  rewrite (writeAtLoop_step P n fe offset data e
             {| Dirty := true; Flushing := false; PartIdx := i;
                Data := take (Z.to_nat P) (drop (Z.to_nat (i * P)) cur) |});
    [|done|done|done|lia|done|done| |done|simpl; rewrite length_take; lia];
    last first.
  { fold i. rewrite Hdes. rewrite lookup_app_l; [exact Hslot|].
    by eapply lookup_lt_Some. }
  fold i po nw. cbn [Data PartIdx]. do 2 f_equal.
  pose proof (fileChunk_overlay_same P cur (take (Z.to_nat nw) data) offset
                ltac:(lia) Hoff) as Hsame.
  fold po i in Hsame. rewrite Hd1 in Hsame. cbv zeta in Hsame.
  rewrite Z2Nat.id in Hsame by lia. rewrite Hsame by lia.
  fold cur'. fold (fileChunk P cur' i).
  rewrite Hdes. rewrite insert_app_l by (by eapply lookup_lt_Some).
  f_equal. unfold fileChunks. rewrite Hm'. fold m.
  apply list_eq. intros k.
  destruct (decide (k = Z.to_nat i)) as [->|Hk].
  - rewrite list_lookup_insert_eq
      by (rewrite length_fmap, length_seqZ; lia).
    rewrite list_lookup_fmap, (lookup_seqZ_lt 0) by lia. simpl.
    do 2 f_equal. lia.
  - rewrite list_lookup_insert_ne by done. rewrite !list_lookup_fmap.
    destruct (seqZ 0 m !! k) as [i'|] eqn:Hi'; [|done]. simpl. f_equal.
    apply lookup_seqZ in Hi' as [-> Hk'].
    symmetry. apply (fileChunk_overlay_other P cur _ offset i);
      [lia|done|done|rewrite Hd1; fold po; lia|lia|lia].
Qed.

(** One round of the write loop into a part past the end of the file. *)
Lemma writeAtLoop_round_fresh (P : Z) (n : nat) (fe : FileCacheEntry)
    (cur data : list byte) (offset : Z) (j : nat) (e : CacheEntry) :
  0 < P <= Int64.max_int ->
  FileEntry e = Some fe ->
  Circular (Opts (File fe)) = false ->
  0 <= offset <= Z.of_nat (length cur) ->
  offset + Z.of_nat (length data) <= Int64.max_int ->
  data <> [] ->
  DataEntries e = fileChunks P cur ++ replicate j None ->
  (Z.of_nat (length cur) + P - 1) `div` P <= offset `div` P ->
  let nw := Z.min (Z.of_nat (length data)) (P - offset `mod` P) in
  let cur' := overlay cur offset (take (Z.to_nat nw) data) in
  Entry.writeAtLoop P (S n) offset data e
  = Entry.writeAtLoop P n (offset + nw) (drop (Z.to_nat nw) data)
      (setDataEntries e (fileChunks P cur' ++ replicate (j - 1) None)) /\
  (Z.of_nat (length cur') + P - 1) `div` P
  = (Z.of_nat (length cur) + P - 1) `div` P + 1 /\
  offset `div` P = (Z.of_nat (length cur) + P - 1) `div` P.
Proof.
  intros HP Hfe Hcirc Hoff Hend Hdata Hdes Hi nw cur'.
  set (i := offset `div` P) in *. set (po := offset `mod` P) in *.
  set (m := (Z.of_nat (length cur) + P - 1) `div` P) in *.
  pose proof (Z.div_mod offset P ltac:(lia)) as Hdm. fold i po in Hdm.
  pose proof (Z.mod_pos_bound offset P ltac:(lia)) as Hpo. fold po in Hpo.
  destruct (fileChunks_count_bounds P (Z.of_nat (length cur))
              ltac:(lia) ltac:(lia)) as (Hm1 & Hm2 & Hm0).
  fold m in Hm1, Hm2, Hm0.
  assert (i = m /\ po = 0 /\ offset = Z.of_nat (length cur)
          /\ offset = m * P) as (Him & Hpo0 & Hofflen & Hoffm) by nia.
  assert (0 < Z.of_nat (length data)) as Hpos.
  { destruct data; [done|simpl; lia]. }
  assert (nw = Z.min (Z.of_nat (length data)) P) as Hnw
    by (subst nw; fold po; lia).
  assert (length (take (Z.to_nat nw) data) = Z.to_nat nw) as Hd1
    by (rewrite length_take; lia).
  assert (cur' = cur ++ take (Z.to_nat nw) data) as Hcur'.
  { unfold cur'. rewrite Hofflen. apply overlay_append. }
  assert ((Z.of_nat (length cur') + P - 1) `div` P = m + 1) as Hm'.
  { apply fileChunks_count_unique; [lia| |];
      rewrite Hcur', length_app, Hd1; lia. }
  split; [|split; [exact Hm'|exact Him]].
  assert (length (fileChunks P cur) = Z.to_nat m) as Hlc.
  { unfold fileChunks. fold m. by rewrite length_fmap, length_seqZ. }
  assert (grownTo (DataEntries e) m
          = fileChunks P cur ++ None :: replicate (j - 1) None) as Hgrown.
  { unfold grownTo. rewrite Hdes, length_app, length_replicate, Hlc.
    rewrite <- app_assoc, <- replicate_add.
    set (k := (j + (Z.to_nat (m + 1) - (Z.to_nat m + j)))%nat).
    by assert (k = S (j - 1)) as -> by lia. }
  assert (partAt (grownTo (DataEntries e) m) m = None) as Hpart.
  { unfold partAt. rewrite Hgrown, lookup_app_r by lia.
    by rewrite Hlc, Nat.sub_diag. }
  rewrite (writeAtLoop_round P n offset data e fe m);
    [|done|done|lia|done|done| |lia].
  - rewrite Hpart, Hgrown. simpl default.
    cbn [Flushing makeDataCacheEntry PartIdx]. fold po nw. rewrite Hpo0.
    do 2 f_equal.
    rewrite insert_app_r_alt by lia. rewrite Hlc, Nat.sub_diag. simpl.
    unfold fileChunks at 2. rewrite Hm'.
    rewrite (seqZ_app 0 m 1) by lia. rewrite fmap_app, <- app_assoc.
    rewrite Hcur', (fileChunks_prefix P cur) by lia.
    unfold fileChunks. fold m. f_equal. simpl. f_equal.
    replace (Z.of_nat 0 + (0 + m)) with m by lia.
    unfold fileChunk. do 2 f_equal.
    rewrite <- Hoffm, Hofflen, Nat2Z.id, drop_app_length.
    rewrite drop_nil, app_nil_r.
    rewrite take_take. rewrite Hnw.
    destruct (Z.le_ge_cases (Z.of_nat (length data)) P).
    + rewrite Z.min_l by lia. rewrite !take_ge; [done|lia..].
    + rewrite Z.min_r by lia. f_equal. lia.
  - rewrite partIdxAtOffset_nonneg; [|lia|lia|by rewrite Hcirc].
    unfold partContaining. rewrite Hcirc. by fold i; rewrite Him.
Qed.

(** The write loop on an entry that holds every part of its file, followed
    by nil slots that the write fills: the parts become those of the file
    with the data laid over it. *)
Lemma writeAtLoop_overlay (P : Z) (fe : FileCacheEntry) :
  0 < P <= Int64.max_int ->
  Circular (Opts (File fe)) = false ->
  forall (n : nat) (cur data : list byte) (offset : Z) (j : nat)
         (e : CacheEntry),
    FileEntry e = Some fe ->
    0 <= offset <= Z.of_nat (length cur) ->
    Z.of_nat (length cur) <= Int64.max_int ->
    offset + Z.of_nat (length data) <= Int64.max_int ->
    DataEntries e = fileChunks P cur ++ replicate j None ->
    (length data <= n)%nat ->
    j = 0%nat \/
    (Z.of_nat (length cur) + P - 1) `div` P + Z.of_nat j
    <= (offset + Z.of_nat (length data) - 1) `div` P + 1 ->
    Entry.writeAtLoop P n offset data e
    = Ret (setDataEntries e (fileChunks P (overlay cur offset data))).
Proof.
  intros HP Hcirc.
  assert (forall (cur : list byte) (offset : Z) (j : nat) (e : CacheEntry),
             0 <= offset <= Z.of_nat (length cur) ->
             DataEntries e = fileChunks P cur ++ replicate j None ->
             j = 0%nat \/
             (Z.of_nat (length cur) + P - 1) `div` P + Z.of_nat j
             <= (offset + Z.of_nat (length (@nil byte)) - 1) `div` P + 1 ->
             Ret e
             = Ret (setDataEntries e (fileChunks P (overlay cur offset []))))
    as Hbase.
  { intros cur offset j e Hoff Hdes Hj.
    assert (j = 0%nat) as ->.
    { destruct Hj as [|Hj]; [done|]. simpl in Hj.
      destruct (fileChunks_count_bounds P (Z.of_nat (length cur))
                  ltac:(lia) ltac:(lia)) as (Hm1 & Hm2 & Hm0).
      assert ((offset + 0 - 1) `div` P
              < (Z.of_nat (length cur) + P - 1) `div` P); [|lia].
      apply Z.div_lt_upper_bound; [lia|]. nia. }
    rewrite overlay_nil, <- (app_nil_r (fileChunks P cur)).
    simpl in Hdes. rewrite <- Hdes. by destruct e. }
  induction n as [|n IH];
    intros cur data offset j e Hfe Hoff Hcur Hend Hdes Hn Hj.
  - assert (data = []) as -> by (by apply nil_length_inv, Nat.le_0_r).
    by apply (Hbase cur offset j e).
  - destruct (decide (data = [])) as [->|Hne].
    { by apply (Hbase cur offset j e). }
    set (nw := Z.min (Z.of_nat (length data)) (P - offset `mod` P)).
    set (cur' := overlay cur offset (take (Z.to_nat nw) data)).
    pose proof (Z.div_mod offset P ltac:(lia)) as Hdm.
    pose proof (Z.mod_pos_bound offset P ltac:(lia)) as Hpo.
    assert (0 < Z.of_nat (length data)) as Hpos.
    { destruct data; [done|simpl; lia]. }
    assert (1 <= nw <= Z.of_nat (length data)
            /\ offset `mod` P + nw <= P) as Hnw by (subst nw; lia).
    assert (length (take (Z.to_nat nw) data) = Z.to_nat nw) as Hd1
      by (rewrite length_take; lia).
    assert (Z.of_nat (length cur')
            = Z.max (Z.of_nat (length cur)) (offset + nw)) as Hlen'.
    { unfold cur'. rewrite overlay_length by done. rewrite Hd1. lia. }
    assert (overlay cur' (offset + nw) (drop (Z.to_nat nw) data)
            = overlay cur offset data) as Hov.
    { unfold cur'.
      replace (offset + nw)
        with (offset + Z.of_nat (length (take (Z.to_nat nw) data)))
        by (rewrite Hd1; lia).
      rewrite overlay_overlay by done. by rewrite take_drop. }
    assert (drop (Z.to_nat nw) data = [] ->
            (offset + Z.of_nat (length data) - 1) `div` P
            = offset `div` P) as Hlast.
    { intros Hnil. apply (f_equal length) in Hnil.
      rewrite length_drop in Hnil. simpl in Hnil.
      symmetry.
      apply (Z.div_unique_pos _ _ _
               (offset `mod` P + Z.of_nat (length data) - 1)); lia. }
    destruct (Z.lt_ge_cases (offset `div` P)
                ((Z.of_nat (length cur) + P - 1) `div` P)) as [Hin|Hout].
    + destruct (writeAtLoop_round_existing P n fe cur data offset j e
                  HP Hfe Hcirc Hoff Hend Hne Hdes Hin) as [Hround Hm'].
      fold nw cur' in Hround, Hm'. rewrite Hround.
      rewrite (IH cur' (drop (Z.to_nat nw) data) (offset + nw) j);
        [by rewrite Hov|done|lia|lia|rewrite length_drop; lia|done|
         rewrite length_drop; lia|].
      destruct Hj as [Hj|Hj]; [by left|].
      destruct (decide (drop (Z.to_nat nw) data = [])) as [Hnil|Hnn].
      * left. rewrite (Hlast Hnil) in Hj. lia.
      * right. rewrite Hm', length_drop.
        replace (offset + nw + Z.of_nat (length data - Z.to_nat nw))
          with (offset + Z.of_nat (length data)) by lia.
        exact Hj.
    + destruct (writeAtLoop_round_fresh P n fe cur data offset j e
                  HP Hfe Hcirc Hoff Hend Hne Hdes ltac:(lia))
        as (Hround & Hm' & Hi).
      fold nw cur' in Hround, Hm'. rewrite Hround.
      rewrite (IH cur' (drop (Z.to_nat nw) data) (offset + nw) (j - 1)%nat);
        [by rewrite Hov|done|lia|lia|rewrite length_drop; lia|done|
         rewrite length_drop; lia|].
      destruct (decide (j - 1 = 0)%nat) as [Hj0|Hj1]; [by left|].
      destruct Hj as [Hj|Hj]; [lia|].
      destruct (decide (drop (Z.to_nat nw) data = [])) as [Hnil|Hnn].
      * rewrite (Hlast Hnil) in Hj. lia.
      * right. rewrite Hm', length_drop.
        replace (offset + nw + Z.of_nat (length data - Z.to_nat nw))
          with (offset + Z.of_nat (length data)) by lia.
        lia.
Qed.

Lemma maxOfIntArr_bounds (arr : list Z) (B : Z) :
  0 <= B -> Forall (fun x => 0 <= x <= B) arr ->
  0 <= maxOfIntArr arr <= B.
Proof.
  intros HB Harr. destruct arr as [|v arr]; simpl; [lia|].
  apply Forall_cons in Harr as [Hv Harr].
  destruct (maxOfIntArr_foldl arr v) as ([->|Hr] & _ & _); [done|].
  rewrite Forall_forall in Harr. by apply Harr.
Qed.

Section WritingAt.

Context {D : Type} `{!BackingStore D}.

Lemma setWriteIntention_cached blockId name intention (w : World D) e :
  Cache (store w) !! (blockId, name) = Some e ->
  exists w',
    setWriteIntention blockId name intention w
    = Ret (NextIntentionId (store w), w') /\
    Cache (store w') !! (blockId, name)
    = Some (setWriteIntentions e
              (<[NextIntentionId (store w) := intention]>
                 (WriteIntentions e))) /\
    db w' = db w /\ clock w' = clock w.
Proof.
  intros He. unfold setWriteIntention. munfold. rewrite He.
  eexists. split; [reflexivity|]. simpl. by rewrite lookup_insert_eq.
Qed.

Lemma clearWriteIntention_cached blockId name intentionId (w : World D) e :
  Cache (store w) !! (blockId, name) = Some e ->
  exists w',
    clearWriteIntention blockId name intentionId w = Ret (tt, w') /\
    Cache (store w') !! (blockId, name)
    = Some (setWriteIntentions e (delete intentionId (WriteIntentions e))) /\
    db w' = db w /\ clock w' = clock w.
Proof.
  intros He. unfold clearWriteIntention. munfold. rewrite He.
  eexists. split; [reflexivity|]. simpl. by rewrite lookup_insert_eq.
Qed.

(** [loadDataParts] when the store holds none of the parts: the entry gets
    nil slots up to the largest part asked for. *)
Lemma loadDataParts_nothing blockId name (partIdxs : list Z) (w : World D)
    e fe :
  Cache (store w) !! (blockId, name) = Some e ->
  Deleted e = false ->
  FileEntry e = Some fe ->
  dbGetFileParts blockId name partIdxs (db w) = (∅, None) ->
  0 <= maxOfIntArr partIdxs ->
  exists w',
    loadDataParts blockId name partIdxs w = Ret (None, w') /\
    Cache (store w') !! (blockId, name)
    = Some (setDataEntries e
              (DataEntries e
               ++ replicate (Z.to_nat (maxOfIntArr partIdxs + 1)
                             - length (DataEntries e)) None)) /\
    db w' = db w /\ clock w' = clock w.
Proof.
  intros He Hdel Hfe Hdb Hmax. unfold loadDataParts, withLockExists. munfold.
  rewrite Hdb, He, Hdel, Hfe. rewrite (ensurePart_grow _ e Hmax).
  cbn [outcome_bind snd]. rewrite map_fold_empty. unfold grownTo.
  eexists. split; [reflexivity|]. simpl. by rewrite lookup_insert_eq.
Qed.

Lemma writeAtToCache_overlay P now offset data e fe cur (j : nat) :
  0 < P <= Int64.max_int ->
  FileEntry e = Some fe ->
  Circular (Opts (File fe)) = false ->
  Size (File fe) = Z.of_nat (length cur) ->
  0 <= offset <= Z.of_nat (length cur) ->
  Z.of_nat (length cur) + Z.of_nat (length data) <= Int64.max_int ->
  DataEntries e = fileChunks P cur ++ replicate j None ->
  j = 0%nat \/
  (Z.of_nat (length cur) + P - 1) `div` P + Z.of_nat j
  <= (offset + Z.of_nat (length data) - 1) `div` P + 1 ->
  exists file',
    writeAtToCache P now offset data false e
    = Ret (setFileEntry
             (setDataEntries e (fileChunks P (overlay cur offset data)))
             (Some (mkFileCacheEntry true false file'))) /\
    sameFile file'
      (setModTs (setSize (File fe)
                   (Z.of_nat (length (overlay cur offset data)))) now).
Proof.
  intros HP Hfe Hcirc Hsize Hoff Hmax Hdes Hj.
  unfold writeAtToCache, Entry.writeAt.
  rewrite (writeAtLoop_overlay P fe HP Hcirc (length data) cur data
             offset j e) by (done || lia).
  cbn [mbind outcome_bind].
  unfold modifyFileData. simpl FileEntry. rewrite Hfe.
  rewrite (Int64Facts.add_id offset (Z.of_nat (length data)))
    by (unfold Int64.in_range, Int64.min_int, Int64.max_int in *; lia).
  rewrite overlay_length by done.
  destruct (FileFlushing fe) eqn:Hfl; simpl; rewrite ?Hfl, orb_false_r, Hsize;
    (destruct (Z.ltb_spec (Z.of_nat (length cur))
                (offset + Z.of_nat (length data)));
     eexists; (split; [reflexivity|]);
     repeat split; simpl; try done; try lia;
     intros k; by destruct (Meta (File fe))).
Qed.

Lemma WriteAt_entry P fuel blockId name offset (data full : list byte)
    (w : World D) f :
  0 < P ->
  Stat blockId name w = Ret ((Some f, None), w) ->
  Circular (Opts f) = false ->
  Size f = Z.of_nat (length full) ->
  cachedData w (blockId, name) = fileChunks P full ->
  0 <= offset <= Z.of_nat (length full) ->
  data <> [] ->
  Z.of_nat (length full) + Z.of_nat (length data) + P <= Int64.max_int ->
  (forall partIdxs,
      dbGetFileParts blockId name partIdxs (db w) = (∅, None)) ->
  (Z.to_nat (Z.of_nat (length data) `div` P + 2) <= fuel)%nat ->
  exists w' e' fe',
    WriteAt P fuel blockId name offset data w = Ret (None, w') /\
    db w' = db w /\
    Cache (store w') !! (blockId, name) = Some e' /\
    Deleted e' = false /\
    FileEntry e' = Some fe' /\
    sameFile (File fe')
      (setModTs (setSize f (Z.of_nat (length (overlay full offset data))))
         (clock w)) /\
    DataEntries e' = fileChunks P (overlay full offset data).
Proof.
  intros HP HStat Hcirc Hsize Hcached Hoff Hne Hmax Hdb Hfuel.
  unfold Int64.max_int in Hmax.
  assert (0 < Z.of_nat (length data)) as Hpos.
  { destruct data; [done|simpl; lia]. }
  destruct (pin_load _ _ _ _ _ HStat)
    as (w1 & w2 & e2 & fe2 & Hpin & Hload & He2 & Hdel & Hfe & Hsame & Hdes2
        & Hdb2 & Hclock2 & _).
  destruct Hsame as (Hbid & Hname & Hopts & Hcts & Hsz & Hmts & Hmeta2).
  assert (Circular (Opts (File fe2)) = false) as Hcirc2 by congruence.
  assert (Size (File fe2) = Z.of_nat (length full)) as Hsize2 by congruence.
  rewrite Hcached in Hdes2.
  destruct (computePartMap_returns P f HP Hcirc fuel offset
              (Z.of_nat (length data)) ltac:(lia) ltac:(lia)
              ltac:(unfold Int64.max_int; lia) Hfuel)
    as (partMap & HpartMap & Hkeys).
  set (last := (offset + Z.of_nat (length data) - 1) `div` P).
  assert (0 <= last) as Hlast by (apply Z.div_pos; lia).
  assert (0 <= maxOfIntArr (incompletePartsFromMap P partMap) <= last)
    as HmaxPart.
  { apply maxOfIntArr_bounds; [done|]. apply Forall_forall.
    intros i Hi. unfold incompletePartsFromMap in Hi.
    apply list_elem_of_fmap in Hi as ([i' v] & -> & Hiv).
    apply list_elem_of_filter in Hiv as [_ Hiv]. simpl in *.
    apply elem_of_map_to_list in Hiv. rewrite Hkeys in Hiv.
    destruct (decide _) as [[Hlo Hhi]|]; [|done].
    pose proof (Z.div_pos offset P ltac:(lia) HP).
    split; [lia|]. unfold last. apply Z.div_le_lower_bound; lia. }
  set (intention := mkWriteIntention (Some partMap) false false).
  destruct (setWriteIntention_cached blockId name intention w2 e2 He2)
    as (w3 & Hint & He3 & Hdb3 & Hclock3).
  set (e3 := setWriteIntentions e2 _) in He3.
  destruct (loadDataParts_nothing blockId name
              (incompletePartsFromMap P partMap) w3 e3 fe2 He3 Hdel Hfe)
    as (w4 & Hparts & He4 & Hdb4 & Hclock4).
  { rewrite Hdb3, Hdb2. apply Hdb. }
  { lia. }
  set (j := (Z.to_nat (maxOfIntArr (incompletePartsFromMap P partMap) + 1)
             - length (DataEntries e3))%nat) in He4.
  set (e4 := setDataEntries e3 _) in He4.
  assert (length (fileChunks P full)
          = Z.to_nat ((Z.of_nat (length full) + P - 1) `div` P)) as Hlc.
  { unfold fileChunks. by rewrite length_fmap, length_seqZ. }
  destruct (fileChunks_count_bounds P (Z.of_nat (length full))
              HP ltac:(lia)) as (_ & _ & Hm0).
  destruct (writeAtToCache_overlay P (clock w4) offset data e4 fe2 full j)
    as (file' & Hwrite & Hfile'); try done.
  { unfold Int64.max_int. lia. }
  { unfold Int64.max_int. lia. }
  { simpl. by rewrite Hdes2. }
  { destruct (decide (j = 0%nat)) as [|Hj]; [by left|right].
    subst j. simpl in Hj |- *. rewrite Hdes2, Hlc in Hj |- *. fold last. lia. }
  destruct (lock_write P blockId name offset data false w4 e4 fe2 _
              He4 Hdel Hfe Hwrite) as (w5 & Hlock & He5 & Hdb5 & Hclock5).
  destruct (clearWriteIntention_cached blockId name
              (NextIntentionId (store w2)) w5 _ He5)
    as (w6 & Hclear & He6 & Hdb6 & Hclock6).
  destruct (unpin_spec _ _ _ _ He6) as (w7 & Hunpin & He7 & Hdb7 & Hclock7).
  eexists w7, _, _. split.
  { eapply WriteAt_pinned; [exact Hpin| |exact Hunpin].
    unfold writeAtPinned. rewrite (M_bind_Ret _ _ _ _ _ Hload).
    destruct (Z.ltb_spec offset 0); [lia|].
    destruct (Z.ltb_spec (Size f) offset); [lia|].
    rewrite Hcirc. unfold writeAtParts.
    rewrite (M_bind_Ret _ _ w2 _ w2 (liftO_Ret _ _ w2 HpartMap)).
    rewrite (M_bind_Ret _ _ _ _ _ Hint).
    rewrite (M_bind_Ret _ _ w3 None w5).
    - by rewrite (M_bind_Ret _ _ _ _ _ Hclear).
    - rewrite (M_bind_Ret _ _ _ _ _ Hparts).
      by rewrite (M_bind_Ret _ _ _ _ _ Hlock). }
  split; [congruence|]. split; [exact He7|]. split; [exact Hdel|].
  split; [reflexivity|]. split; [|reflexivity].
  destruct Hfile' as (? & ? & ? & ? & ? & ? & Hmeta).
  repeat split; simpl in *; try congruence;
    intros k; by rewrite <- Hmeta2, <- Hmeta.
Qed.

(** X26. [WriteAt] of data that is not empty, at an offset within or at the
    end of a file that is not circular and whose bytes the cache holds in
    full, none of them flushed to the store yet, returns no error and
    leaves the store alone.  Afterwards the cache holds the bytes of the
    file with the data laid over them from the offset on, cut into parts;
    the size is the larger of the old size and the end of the write, and
    the modification time is the time of the call. *)
Theorem WriteAt_overlays P fuel blockId name offset (data full : list byte)
    (w : World D) f :
  0 < P ->
  Stat blockId name w = Ret ((Some f, None), w) ->
  Circular (Opts f) = false ->
  Size f = Z.of_nat (length full) ->
  cachedData w (blockId, name) = fileChunks P full ->
  0 <= offset <= Z.of_nat (length full) ->
  data <> [] ->
  Z.of_nat (length full) + Z.of_nat (length data) + P <= Int64.max_int ->
  (forall partIdxs,
      dbGetFileParts blockId name partIdxs (db w) = (∅, None)) ->
  (Z.to_nat (Z.of_nat (length data) `div` P + 2) <= fuel)%nat ->
  exists w' f',
    WriteAt P fuel blockId name offset data w = Ret (None, w') /\
    db w' = db w /\
    cachedData w' (blockId, name) = fileChunks P (overlay full offset data) /\
    Stat blockId name w' = Ret ((Some f', None), w') /\
    Size f' = Z.max (Z.of_nat (length full))
                (offset + Z.of_nat (length data)) /\
    ModTs f' = clock w.
Proof.
  intros HP HStat Hcirc Hsize Hcached Hoff Hne Hmax Hdb Hfuel.
  destruct (WriteAt_entry P fuel blockId name offset data full w f
              HP HStat Hcirc Hsize Hcached Hoff Hne Hmax Hdb Hfuel)
    as (w' & e' & fe' & Hrun & Hdb' & He' & Hdel & Hfe & Hsame & Hdes).
  eexists w', _. split; [exact Hrun|]. split; [exact Hdb'|]. split.
  { unfold cachedData. by rewrite He'. }
  split; [exact (Stat_cached _ _ _ _ _ He' Hdel Hfe)|].
  destruct Hsame as (_ & _ & _ & _ & Hsz & Hmts & _). simpl in *.
  rewrite overlay_length in Hsz by done. done.
Qed.

End WritingAt.

(** Two bytes ["X"] written at offset 2 of the five bytes ["A"] that
    [dirtyEntry] holds. *)
Lemma WriteAt_overlays_witness :
  exists w' f',
    WriteAt 16 8 "b" "f" 2 (replicate 2 x58) dirtyWorld = Ret (None, w') /\
    db w' = db dirtyWorld /\
    cachedData w' ("b", "f")%string
    = fileChunks 16 (overlay (bytesA 5) 2 (replicate 2 x58)) /\
    Stat "b" "f" w' = Ret ((Some f', None), w') /\
    Size f' = Z.max (Z.of_nat (length (bytesA 5)))
                (2 + Z.of_nat (length (replicate 2 x58))) /\
    ModTs f' = clock dirtyWorld.
Proof.
  apply (WriteAt_overlays 16 8 "b" "f" 2 (replicate 2 x58) (bytesA 5)
           dirtyWorld (plainFile "b" "f" (mkFileOpts 0 false false) 5));
    first [side | discriminate | intros; reflexivity].
Defined.

(** ** Pins and write intentions are released on every path *)

Lemma outcome_bind_inv {A B} (m : outcome A) (f : A -> outcome B) (b : B) :
  m ≫= f = Ret b -> exists a, m = Ret a /\ f a = Ret b.
Proof. destruct m as [a| |]; [by exists a|done|done]. Qed.

Lemma ensurePart_pins partIdx create e slot e' :
  Entry.ensurePart partIdx create e = Ret (slot, e') ->
  PinCount e' = PinCount e /\ WriteIntentions e' = WriteIntentions e /\
  FileEntry e' = FileEntry e.
Proof.
  unfold Entry.ensurePart.
  intros (des & _ & Hrest)%outcome_bind_inv.
  apply outcome_bind_inv in Hrest as (rtn & _ & Hret).
  by injection Hret as <- <-.
Qed.

Lemma writeAtLoop_pins P :
  forall n offset data e e',
    Entry.writeAtLoop P n offset data e = Ret e' ->
    PinCount e' = PinCount e /\ WriteIntentions e' = WriteIntentions e /\
    FileEntry e' = FileEntry e.
Proof.
  induction n as [|n IH]; intros offset data e e'.
  - destruct data; [by intros [= <-]|done].
  - destruct data as [|b data0]; [by intros [= <-]|].
    cbn [Entry.writeAtLoop].
    intros (partIdx0 & _ & Hrest)%outcome_bind_inv.
    destruct (FileEntry e) as [fe|] eqn:Hfe0; [|done].
    apply outcome_bind_inv in Hrest as (partIdx & _ & Hrest).
    apply outcome_bind_inv in Hrest as (partOffset & _ & Hrest).
    apply outcome_bind_inv in Hrest as ([partData entry1] & Hens & Hrest).
    destruct partData as [dce|]; [|done].
    apply outcome_bind_inv in Hrest as ([nw newDce] & _ & Hrest).
    apply outcome_bind_inv in Hrest as (slot & _ & Hrest).
    apply outcome_bind_inv in Hrest as (data' & _ & Hrest).
    apply IH in Hrest as (Hpc & Hwi & Hfe). simpl in Hpc, Hwi, Hfe.
    apply ensurePart_pins in Hens as (Hpc1 & Hwi1 & Hfe1).
    repeat split; congruence.
Qed.

Lemma modifyFileData_pins fn e e' :
  modifyFileData fn e = Ret e' ->
  PinCount e' = PinCount e /\ WriteIntentions e' = WriteIntentions e.
Proof.
  unfold modifyFileData. destruct (FileEntry e) as [fe|]; [|done].
  intros (fe1 & _ & Hrest)%outcome_bind_inv.
  apply outcome_bind_inv in Hrest as (file' & _ & Hret).
  by injection Hret as <-.
Qed.

Lemma writeAtToCache_pins P now offset data replace e e' :
  writeAtToCache P now offset data replace e = Ret e' ->
  PinCount e' = PinCount e /\ WriteIntentions e' = WriteIntentions e.
Proof.
  unfold writeAtToCache, Entry.writeAt.
  intros (e1 & Hloop & Hmod)%outcome_bind_inv.
  apply writeAtLoop_pins in Hloop as (Hpc & Hwi & _).
  apply modifyFileData_pins in Hmod as (Hpc' & Hwi').
  destruct replace; simpl in *; split; congruence.
Qed.

Section Pins.

Context {D : Type} `{!BackingStore D}.

Lemma keepsPins_bind {A B} key (m : M D A) (f : A -> M D B) :
  keepsPins key m -> (forall a, keepsPins key (f a)) ->
  keepsPins key (m ≫= f).
Proof.
  intros Hm Hf w e r w' He (a & w1 & Hrun & Hrest)%M_bind_inv.
  destruct (Hm w e a w1 He Hrun) as (Hid & e1 & He1 & Hpc & Hwi).
  destruct (Hf a w1 e1 r w' He1 Hrest) as (Hid' & e' & He' & Hpc' & Hwi').
  split; [congruence|]. exists e'. repeat split; congruence.
Qed.

Lemma keepsPins_still {A} key (m : M D A) :
  (forall w r w', m w = Ret (r, w') -> store w' = store w) ->
  keepsPins key m.
Proof.
  intros Hm w e r w' He Hrun. rewrite (Hm w r w' Hrun).
  split; [done|]. by exists e.
Qed.

Lemma keepsPins_mret {A} key (a : A) : keepsPins key (mret a : M D A).
Proof. apply keepsPins_still. by intros w r w' [= _ <-]. Qed.

Lemma keepsPins_liftO {A} key (o : outcome A) :
  keepsPins key (liftO o : M D A).
Proof.
  apply keepsPins_still. intros w r w' Hrun.
  by apply liftO_inv in Hrun as [_ ->].
Qed.

Lemma keepsPins_dbQuery {A} key (q : D -> A) : keepsPins key (dbQuery q).
Proof. apply keepsPins_still. by intros w r w' [= _ <-]. Qed.

(** A callback under [withLockExists] that stores an entry with the pins
    of the one it was given. *)
Lemma keepsPins_withLockExists {R} blockId name (r0 : R)
    (f : CacheEntry -> M D (R * option error)) :
  (forall (w : World D) e r w',
      Cache (store w) !! (blockId, name) = Some e ->
      f e w = Ret (r, w') ->
      NextIntentionId (store w') = NextIntentionId (store w) /\
      exists e',
        Cache (store w') !! (blockId, name) = Some e' /\
        PinCount e' = PinCount e /\
        WriteIntentions e' = WriteIntentions e) ->
  keepsPins (blockId, name) (withLockExists blockId name r0 f).
Proof.
  intros Hf w e r w' He. unfold withLockExists. munfold. rewrite He.
  destruct (Deleted e); [intros [= <- <-]; split; [done|by exists e]|].
  destruct (FileEntry e); [|intros [= <- <-]; split; [done|by exists e]].
  by apply Hf.
Qed.

Lemma loadFileInfo_keeps blockId name :
  keepsPins (blockId, name) (loadFileInfo blockId name).
Proof.
  intros w e r w' He.
  unfold loadFileInfo, getFileFromCache, withLock. munfold. rewrite He.
  destruct (Deleted e) eqn:Hdel.
  { intros [= <- <-]. split; [done|by exists e]. }
  destruct (FileEntry e) as [fe|] eqn:Hfe.
  { simpl. intros [= <- <-]. split; [done|by exists e]. }
  destruct (dbGetBlockFile blockId name (db w)) as [dbFile [err|]].
  { intros [= <- <-]. split; [done|by exists e]. }
  destruct dbFile as [dbf|]; [|intros [= <- <-]; split; [done|by exists e]].
  rewrite He, Hdel, Hfe. simpl.
  intros [= <- <-]. split; [done|]. simpl. rewrite lookup_insert_eq.
  by eexists.
Qed.

Lemma loadDataParts_keeps blockId name partIdxs :
  keepsPins (blockId, name) (loadDataParts blockId name partIdxs).
Proof.
  unfold loadDataParts.
  apply keepsPins_bind; [apply keepsPins_dbQuery|]. intros [partDataMap err].
  destruct err; [apply keepsPins_mret|].
  apply keepsPins_bind; [|intros; apply keepsPins_mret].
  apply keepsPins_withLockExists. intros w e r w' He.
  intros ([slot0 entry1] & w1 & [Hens ->]%liftO_inv & Hrest)%M_bind_inv.
  apply M_bind_inv in Hrest as (entry2 & w2 & [Hfold ->]%liftO_inv & Hrest).
  simpl in Hfold.
  revert Hrest. munfold. intros [= <- <-].
  split; [done|]. simpl. rewrite lookup_insert_eq. eexists. split; [done|].
  apply ensurePart_pins in Hens as (Hpc & Hwi & _).
  rewrite <- Hpc, <- Hwi. revert entry2 Hfold.
  apply (map_fold_weak_ind
           (fun (r : outcome CacheEntry) (_ : gmap Z DataCacheEntry) =>
              forall entry2, r = Ret entry2 ->
                             PinCount entry2 = PinCount entry1 /\
                             WriteIntentions entry2
                             = WriteIntentions entry1)).
  - by intros entry2 [= <-].
  - intros i x m acc _ IH entry2.
    intros (e0 & -> & Hrest)%outcome_bind_inv.
    apply outcome_bind_inv in Hrest as (slot & _ & Hret).
    destruct (IH e0 eq_refl) as [Hpc0 Hwi0].
    destruct slot; injection Hret as <-; done.
Qed.

Lemma loadLastDataBlock_keeps P blockId name :
  keepsPins (blockId, name) (loadLastDataBlock P blockId name).
Proof.
  unfold loadLastDataBlock.
  apply keepsPins_bind.
  - apply keepsPins_withLockExists. intros w e r w' He.
    destruct (FileEntry e); [|done].
    intros (partIdx & w1 & [_ ->]%liftO_inv & [= <- <-])%M_bind_inv.
    split; [done|by exists e].
  - intros [partIdx err]. destruct err; [apply keepsPins_mret|].
    destruct (partIdx =? NoPartIdx); [apply keepsPins_mret|].
    apply loadDataParts_keeps.
Qed.

Lemma lockedWrite_keeps P blockId name offset data replace :
  keepsPins (D := D) (blockId, name)
    (withLockExists blockId name tt
       (writeUnderLock P blockId name offset data replace)).
Proof.
  apply keepsPins_withLockExists. intros w e r w' He. unfold writeUnderLock.
  intros (now & w1 & [= <- <-] & Hrest)%M_bind_inv.
  apply M_bind_inv in Hrest as (e1 & w1 & [Hwrite ->]%liftO_inv & Hrest).
  revert Hrest. munfold. intros [= <- <-].
  split; [done|]. simpl. rewrite lookup_insert_eq. eexists. split; [done|].
  by apply writeAtToCache_pins in Hwrite.
Qed.

Lemma appendDataToCache_keeps P blockId name data :
  keepsPins (D := D) (blockId, name) (appendDataToCache P blockId name data).
Proof.
  unfold appendDataToCache.
  apply keepsPins_bind; [|intros; apply keepsPins_mret].
  apply keepsPins_withLockExists. intros w e r w' He.
  destruct (FileEntry e) as [fe|]; [|done].
  unfold writeUnderLock.
  intros (now & w1 & [= <- <-] & Hrest)%M_bind_inv.
  apply M_bind_inv in Hrest as (e1 & w1 & [Hwrite ->]%liftO_inv & Hrest).
  revert Hrest. munfold. intros [= <- <-].
  split; [done|]. simpl. rewrite lookup_insert_eq. eexists. split; [done|].
  by apply writeAtToCache_pins in Hwrite.
Qed.

(** The frame of a writer: pin, intention, body, and the two deferred
    calls. *)
Lemma pinned_intent_frame {A} blockId name intention (body : M D A)
    (w : World D) r w' :
  keepsPins (blockId, name) body ->
  Int64.min_int <= PinCount (entryAt w blockId name) < Int64.max_int ->
  WriteIntentions (entryAt w blockId name) !! NextIntentionId (store w)
  = None ->
  (pinCacheEntry blockId name;;
   intentionId ← setWriteIntention blockId name intention;
   rtn ← body;
   clearWriteIntention blockId name intentionId;;
   unpinCacheEntry blockId name;;
   mret rtn) w = Ret (r, w') ->
  exists e',
    Cache (store w') !! (blockId, name) = Some e' /\
    PinCount e' = PinCount (entryAt w blockId name) /\
    WriteIntentions e' = WriteIntentions (entryAt w blockId name).
Proof.
  intros Hbody Hpc Hfresh.
  intros ([] & w1 & Hpin & Hrest)%M_bind_inv.
  apply M_bind_inv in Hrest as (intentionId & w2 & Hint & Hrest).
  apply M_bind_inv in Hrest as (rtn & w3 & Hrun & Hrest).
  apply M_bind_inv in Hrest as ([] & w4 & Hclear & Hrest).
  apply M_bind_inv in Hrest as ([] & w5 & Hunpin & [= _ <-]).
  set (e0 := entryAt w blockId name) in *.
  assert (Cache (store w1) !! (blockId, name)
          = Some (setPinCount e0 (Int64.add (PinCount e0) 1)) /\
          NextIntentionId (store w1) = NextIntentionId (store w))
    as [He1 Hid1].
  { revert Hpin. unfold pinCacheEntry, withLock, e0, entryAt. munfold.
    destruct (Cache (store w) !! (blockId, name)) as [e|]; simpl;
      intros [= <-]; simpl; by rewrite lookup_insert_eq. }
  assert (intentionId = NextIntentionId (store w) /\
          Cache (store w2) !! (blockId, name)
          = Some (setWriteIntentions
                    (setPinCount e0 (Int64.add (PinCount e0) 1))
                    (<[NextIntentionId (store w) := intention]>
                       (WriteIntentions e0))))
    as [-> He2].
  { revert Hint. unfold setWriteIntention. munfold. rewrite He1, Hid1.
    intros [= <- <-]. simpl. by rewrite lookup_insert_eq. }
  destruct (Hbody w2 _ rtn w3 He2 Hrun) as (_ & e3 & He3 & Hpc3 & Hwi3).
  simpl in Hpc3, Hwi3.
  revert Hclear. unfold clearWriteIntention. munfold. rewrite He3.
  intros [= <-].
  revert Hunpin. unfold unpinCacheEntry. munfold. simpl.
  rewrite lookup_insert_eq. intros [= <-]. simpl.
  rewrite lookup_insert_eq. eexists. split; [reflexivity|]. simpl. split.
  - rewrite Hpc3.
    rewrite (Int64Facts.add_id (PinCount e0) 1)
      by (unfold Int64.in_range, Int64.min_int, Int64.max_int in *; lia).
    rewrite Int64Facts.sub_id
      by (unfold Int64.in_range, Int64.min_int, Int64.max_int in *; lia).
    lia.
  - rewrite Hwi3. rewrite delete_insert_eq. by apply delete_id.
Qed.

(** The frame of [WriteMeta]: pin, body, and the deferred unpin. *)
Lemma pinned_frame {A} blockId name (body : M D A) (w : World D) r w' :
  keepsPins (blockId, name) body ->
  Int64.min_int <= PinCount (entryAt w blockId name) < Int64.max_int ->
  (pinCacheEntry blockId name;;
   rtn ← body;
   unpinCacheEntry blockId name;;
   mret rtn) w = Ret (r, w') ->
  exists e',
    Cache (store w') !! (blockId, name) = Some e' /\
    PinCount e' = PinCount (entryAt w blockId name) /\
    WriteIntentions e' = WriteIntentions (entryAt w blockId name).
Proof.
  intros Hbody Hpc.
  intros ([] & w1 & Hpin & Hrest)%M_bind_inv.
  apply M_bind_inv in Hrest as (rtn & w2 & Hrun & Hrest).
  apply M_bind_inv in Hrest as ([] & w3 & Hunpin & [= _ <-]).
  set (e0 := entryAt w blockId name) in *.
  assert (Cache (store w1) !! (blockId, name)
          = Some (setPinCount e0 (Int64.add (PinCount e0) 1))) as He1.
  { revert Hpin. unfold pinCacheEntry, withLock, e0, entryAt. munfold.
    destruct (Cache (store w) !! (blockId, name)) as [e|]; simpl;
      intros [= <-]; simpl; by rewrite lookup_insert_eq. }
  destruct (Hbody w1 _ rtn w2 He1 Hrun) as (_ & e2 & He2 & Hpc2 & Hwi2).
  simpl in Hpc2, Hwi2.
  revert Hunpin. unfold unpinCacheEntry. munfold. rewrite He2.
  intros [= <-]. simpl.
  rewrite lookup_insert_eq. eexists. split; [reflexivity|]. simpl.
  split; [|done]. rewrite Hpc2.
  rewrite (Int64Facts.add_id (PinCount e0) 1)
    by (unfold Int64.in_range, Int64.min_int, Int64.max_int in *; lia).
  rewrite Int64Facts.sub_id
    by (unfold Int64.in_range, Int64.min_int, Int64.max_int in *; lia).
  lia.
Qed.

(** X27. Whatever [WriteFile], [AppendData] and [WriteMeta] return, an
    error included, when they return the entry of the key is in the cache
    with the pin count and the write intentions it had before the call
    (those of a fresh entry if the key had none): the pin and the intention
    they take are released on every path, and the entry they create is
    never removed. *)
Theorem writers_release_pins P blockId name (w : World D) :
  Int64.min_int <= PinCount (entryAt w blockId name) < Int64.max_int ->
  WriteIntentions (entryAt w blockId name) !! NextIntentionId (store w)
  = None ->
  let released (w' : World D) :=
    exists e',
      Cache (store w') !! (blockId, name) = Some e' /\
      PinCount e' = PinCount (entryAt w blockId name) /\
      WriteIntentions e' = WriteIntentions (entryAt w blockId name) in
  (forall data r w',
      WriteFile P blockId name data w = Ret (r, w') -> released w') /\
  (forall data r w',
      AppendData P blockId name data w = Ret (r, w') -> released w') /\
  (forall meta merge r w',
      WriteMeta blockId name meta merge w = Ret (r, w') -> released w').
Proof.
  intros Hpc Hfresh released. split; [|split].
  - intros data r w' Hrun.
    eapply (pinned_intent_frame blockId name _ _ w r w'); [|done|done|].
    2: exact Hrun.
    apply keepsPins_bind; [apply loadFileInfo_keeps|]. intros [file err].
    destruct err; [apply keepsPins_mret|].
    apply keepsPins_bind; [apply lockedWrite_keeps|].
    intros; apply keepsPins_mret.
  - intros data r w' Hrun.
    eapply (pinned_intent_frame blockId name _ _ w r w'); [|done|done|].
    2: exact Hrun.
    apply keepsPins_bind; [apply loadFileInfo_keeps|]. intros [file err].
    destruct err; [apply keepsPins_mret|].
    apply keepsPins_bind; [apply loadLastDataBlock_keeps|]. intros err.
    destruct err; [apply keepsPins_mret|].
    apply keepsPins_bind; [apply appendDataToCache_keeps|]. intros err.
    destruct err; apply keepsPins_mret.
  - intros meta merge r w' Hrun.
    eapply (pinned_frame blockId name _ w r w'); [|done|].
    2: exact Hrun.
    apply keepsPins_bind; [apply loadFileInfo_keeps|]. intros [file err].
    destruct err; [apply keepsPins_mret|].
    apply keepsPins_bind; [|intros; apply keepsPins_mret].
    apply keepsPins_withLockExists. intros w0 e r0 w0' He.
    intros (e1 & w1 & [Hmod ->]%liftO_inv & Hrest)%M_bind_inv.
    revert Hrest. munfold. intros [= <- <-].
    split; [done|]. simpl. rewrite lookup_insert_eq. eexists. split; [done|].
    by apply modifyFileData_pins in Hmod.
Qed.

End Pins.

(** [WriteFile] on a key that has neither a file nor a cache entry returns
    an error, and leaves behind an entry without pins or intentions. *)
Lemma writers_release_pins_witness :
  exists w' e',
    WriteFile 16 "b" "f" (bytesA 3) emptyWorld
    = Ret (Some (ErrWrap "error loading file info" (ErrMsg "file not found")),
           w') /\
    Cache (store w') !! ("b", "f")%string = Some e' /\
    PinCount e' = 0 /\
    WriteIntentions e' = ∅.
Proof.
  destruct (WriteFile 16 "b" "f" (bytesA 3) emptyWorld)
    as [[r w']| |] eqn:Hrun; [|vm_compute in Hrun; discriminate..].
  destruct (writers_release_pins 16 "b" "f" emptyWorld) as (Hwrite & _).
  - replace (PinCount (entryAt emptyWorld "b" "f")) with 0 by reflexivity.
    unfold Int64.min_int, Int64.max_int. lia.
  - reflexivity.
  - destruct (Hwrite _ _ _ Hrun) as (e' & He' & Hpc & Hwi).
    exists w', e'.
    split; [|split; [exact He'|split; [exact Hpc|exact Hwi]]].
    vm_compute in Hrun. by injection Hrun as <- <-.
Defined.

(** ** A file from its creation on *)

Section Lifetime.

Context {D : Type} `{!BackingStore D}.

(** What a [MakeFile] that returns no error leaves: no cache entry for the
    key, and in the store the outcome of inserting the new descriptor. *)
Lemma MakeFile_inserted P blockId name meta opts (w w1 : World D) :
  Circular opts = false ->
  MakeFile P blockId name meta opts w = Ret (None, w1) ->
  0 <= MaxSize opts /\
  Cache (store w1) !! (blockId, name) = None /\
  clock w1 = clock w /\
  dbInsertFile {| BlockId := blockId; Name := name; Size := 0;
                  CreatedTs := clock w; ModTs := clock w; Opts := opts;
                  Meta := meta |} (db w) = (None, db w1).
Proof.
  intros Hcirc. unfold MakeFile. rewrite Hcirc. simpl.
  destruct (Z.ltb_spec (MaxSize opts) 0) as [|Hmax]; [done|].
  unfold roundMaxSize. rewrite Hcirc.
  intros (opts' & w0 & [= <- <-] & Hrest)%M_bind_inv.
  apply M_bind_inv in Hrest as (cacheErr & w2 & Hcheck & Hrest).
  destruct (makeFileCheck_cases blockId name w)
    as [(e & Hl & _)|(w2' & Hl & Hstore & Hdb2 & Hclock2)];
    rewrite Hl in Hcheck.
  - injection Hcheck as <- <-. done.
  - injection Hcheck as <- <-.
    revert Hrest. munfold. rewrite Hdb2, Hclock2.
    destruct (dbInsertFile _ _) as [err d'].
    intros [= -> <-]. simpl. rewrite Hstore.
    split; [done|]. split; [|done].
    unfold dropDeadTombstone.
    destruct (Cache (store w) !! (blockId, name)) as [e|] eqn:He.
    + destruct (isDeadTombstone e) eqn:Hdead; simpl.
      * by rewrite lookup_delete_eq.
      * exfalso. revert Hl. unfold withLock, makeFileCheck. munfold.
        rewrite He. unfold isDeadTombstone in Hdead.
        destruct (Deleted e); simpl in *; [|done]. by rewrite Hdead.
    + by rewrite He.
Qed.

(** X28. On a store that hands back the descriptor it was given to insert,
    and answers requests for parts without an error and with none but the
    parts asked for: after a [MakeFile] of a file that is not circular has
    returned no error, [Stat] yields the new descriptor, of size 0 and with
    the options as given; [AppendData] then returns no error, and
    [ReadFile] after it returns offset 0 and exactly the bytes appended. *)
Theorem MakeFile_AppendData_ReadFile P fuel blockId name meta opts
    (data : list byte) (w w1 : World D) :
  0 < P ->
  2 * Z.of_nat (length data) + 2 * P <= Int64.max_int ->
  (Z.to_nat (Z.of_nat (length data) `div` P + 2) <= fuel)%nat ->
  Circular opts = false ->
  (forall file d d',
      dbInsertFile file d = (None, d') ->
      dbGetBlockFile (BlockId file) (Name file) d' = (Some file, None)) ->
  (forall d, partsOnRequest blockId name d) ->
  MakeFile P blockId name meta opts w = Ret (None, w1) ->
  exists f w2 w3,
    Stat blockId name w1 = Ret ((Some f, None), w1) /\
    Size f = 0 /\ Opts f = opts /\
    AppendData P blockId name data w1 = Ret (None, w2) /\
    ReadFile P fuel blockId name w2 = Ret ((0, data, None), w3).
Proof.
  intros HP Hrange Hfuel Hcirc Hlaw Hparts Hmake.
  unfold Int64.max_int in Hrange.
  destruct (MakeFile_inserted P blockId name meta opts w w1 Hcirc Hmake)
    as (Hmax & Hnone & Hclock & Hins).
  apply Hlaw in Hins. simpl in Hins.
  set (f := {| BlockId := blockId; Name := name; Size := 0;
               CreatedTs := clock w; ModTs := clock w; Opts := opts;
               Meta := meta |}) in *.
  assert (Stat blockId name w1 = Ret ((Some f, None), w1)) as HStat.
  { unfold Stat, getFileFromCache. munfold. by rewrite Hnone, Hins. }
  destruct (AppendData_entry P blockId name data [] w1 f
              ltac:(unfold Int64.max_int; lia) HStat Hcirc eq_refl)
    as (w2 & e2 & fe2 & Happend & Hdb2 & He2 & Hdel2 & Hfe2 & Hsame2 & Hdes2).
  { unfold cachedData, fileChunks. rewrite Hnone. simpl length.
    by rewrite Z.div_small by lia. }
  { simpl. unfold Int64.max_int. lia. }
  { apply Hparts. }
  destruct Hsame2 as (_ & _ & Hopts2 & _ & Hsz2 & _).
  simpl in Hopts2, Hsz2, Hdes2.
  destruct (ReadFile_chunks P fuel blockId name w2 e2 fe2 data)
    as (w3 & Hread); try done.
  - congruence.
  - congruence.
  - intros partsNeeded. apply Hparts.
  - by exists f, w2, w3.
Qed.

End Lifetime.

(** The file ["f"] made in [emptyWorld] on the in-memory store, and three
    bytes appended to it. *)
Lemma MakeFile_AppendData_ReadFile_witness :
  exists w1,
    MakeFile 16 "b" "f" None (mkFileOpts 0 false false) emptyWorld
    = Ret (None, w1) /\
    exists f w2 w3,
      Stat "b" "f" w1 = Ret ((Some f, None), w1) /\
      Size f = 0 /\ Opts f = mkFileOpts 0 false false /\
      AppendData 16 "b" "f" (bytesA 3) w1 = Ret (None, w2) /\
      ReadFile 16 8 "b" "f" w2 = Ret ((0, bytesA 3, None), w3).
Proof.
  destruct (MakeFile 16 "b" "f" None (mkFileOpts 0 false false) emptyWorld)
    as [[r w1]| |] eqn:Hmake; [|vm_compute in Hmake; discriminate..].
  assert (r = None) as -> by (vm_compute in Hmake; congruence).
  exists w1. split; [reflexivity|].
  apply (MakeFile_AppendData_ReadFile 16 8 "b" "f" None
           (mkFileOpts 0 false false) (bytesA 3) emptyWorld w1);
    try side; try exact Hmake.
  - intros file d d'. simpl.
    destruct (insertFails d); [done|].
    destruct (files d !! (BlockId file, Name file)); [done|].
    intros [= <-]. simpl. by rewrite lookup_insert_eq.
  - intros d. apply MemDB_partsOnRequest.
Defined.

(** * Writing into a circular file *)

Lemma partContaining_nonneg (P : Z) (f : BlockFile) (p : Z) :
  0 < P -> 0 <= p ->
  (Circular (Opts f) = true -> P <= MaxSize (Opts f)) ->
  0 <= partContaining P f p.
Proof.
  intros HP Hp Hcirc. unfold partContaining.
  destruct (Circular (Opts f)).
  - apply Z.mod_pos_bound, Z.div_str_pos. specialize (Hcirc eq_refl). lia.
  - by apply Z.div_pos.
Qed.

(** Two positions less than a window apart do not share a slot. *)
Lemma slots_distinct (P : Z) (f : BlockFile) (p q : Z) :
  0 < P ->
  (Circular (Opts f) = true -> P <= MaxSize (Opts f)) ->
  0 <= p < q ->
  (Circular (Opts f) = true -> q - p < MaxSize (Opts f) `div` P * P) ->
  partContaining P f q = partContaining P f p ->
  q `mod` P = p `mod` P ->
  False.
Proof.
  intros HP HM Hpq Hwin Hpart Hmod. unfold partContaining in Hpart.
  pose proof (Z.div_mod p P ltac:(lia)) as Hp.
  pose proof (Z.div_mod q P ltac:(lia)) as Hq.
  destruct (Circular (Opts f)).
  - specialize (HM eq_refl). specialize (Hwin eq_refl).
    set (M := MaxSize (Opts f) `div` P) in *.
    assert (0 < M) as HMpos by (apply Z.div_str_pos; lia).
    pose proof (Z.div_mod (p `div` P) M ltac:(lia)) as Hp'.
    pose proof (Z.div_mod (q `div` P) M ltac:(lia)) as Hq'.
    set (a := p `div` P) in *. set (b := q `div` P) in *.
    set (ka := a `div` M) in *. set (kb := b `div` M) in *.
    assert (q - p = M * P * (kb - ka)) as Hdiff by nia.
    assert (0 < kb - ka) as Hk by nia.
    nia.
  - nia.
Qed.

(** The bytes of a part after a write into it. *)
Lemma written_part_new (old data : list byte) (po nw j : nat) :
  (nw <= length data)%nat -> (j < nw)%nat ->
  (take po (old ++ replicate po x00) ++ take nw data ++ drop (po + nw) old)
  !! (po + j)%nat = data !! j.
Proof.
  intros Hnw Hj.
  assert (length (take po (old ++ replicate po x00)) = po) as Hlen.
  { rewrite length_take, length_app, length_replicate. lia. }
  rewrite lookup_app_r by lia. rewrite Hlen.
  replace (po + j - po)%nat with j by lia.
  rewrite lookup_app_l by (rewrite length_take; lia).
  by apply lookup_take_lt.
Qed.

Lemma written_part_old (old data : list byte) (po nw o : nat) b :
  (nw <= length data)%nat ->
  old !! o = Some b ->
  ~ (po <= o < po + nw)%nat ->
  (take po (old ++ replicate po x00) ++ take nw data ++ drop (po + nw) old)
  !! o = Some b.
Proof.
  intros Hnw Hb Hout.
  assert (length (take po (old ++ replicate po x00)) = po) as Hlen.
  { rewrite length_take, length_app, length_replicate. lia. }
  pose proof (lookup_lt_Some _ _ _ Hb) as Hlt.
  destruct (decide (o < po)%nat) as [Hlo|Hhi].
  - rewrite lookup_app_l by lia. rewrite lookup_take_lt by done.
    by rewrite lookup_app_l.
  - rewrite lookup_app_r by lia. rewrite Hlen.
    rewrite lookup_app_r by (rewrite length_take; lia).
    rewrite length_take, lookup_drop. rewrite <- Hb. f_equal. lia.
Qed.

(** The loop of [writeAt], whatever the entry holds: it returns; of the
    bytes it writes, those less than a window before the end of the write
    are in the cache afterwards, each in the part and at the offset of its
    position; and a byte of a part that is not being flushed stays where it
    is unless the write goes over it. *)
Lemma writeAtLoop_window (P : Z) (fe : FileCacheEntry) :
  0 < P <= Int64.max_int ->
  (Circular (Opts (File fe)) = true ->
   P <= MaxSize (Opts (File fe)) <= Int64.max_int) ->
  forall (n : nat) (offset : Z) (data : list byte) (e : CacheEntry),
    FileEntry e = Some fe ->
    0 <= offset ->
    offset + Z.of_nat (length data) <= Int64.max_int ->
    (length data <= n)%nat ->
    exists e',
      Entry.writeAtLoop P n offset data e = Ret e' /\
      FileEntry e' = Some fe /\
      Deleted e' = Deleted e /\
      (forall p b,
          offset <= p < offset + Z.of_nat (length data) ->
          (Circular (Opts (File fe)) = true ->
           offset + Z.of_nat (length data)
           - MaxSize (Opts (File fe)) `div` P * P <= p) ->
          data !! Z.to_nat (p - offset) = Some b ->
          exists d,
            DataEntries e' !! Z.to_nat (partContaining P (File fe) p)
            = Some (Some d) /\
            Flushing d = false /\
            Data d !! Z.to_nat (p `mod` P) = Some b) /\
      (forall i d (o : nat) b,
          0 <= i ->
          DataEntries e !! Z.to_nat i = Some (Some d) ->
          Flushing d = false ->
          Data d !! o = Some b ->
          (forall q, offset <= q < offset + Z.of_nat (length data) ->
                     partContaining P (File fe) q = i ->
                     Z.to_nat (q `mod` P) = o -> False) ->
          exists d',
            DataEntries e' !! Z.to_nat i = Some (Some d') /\
            Flushing d' = false /\
            Data d' !! o = Some b).
Proof.
  intros HP Hcirc.
  assert (Circular (Opts (File fe)) = true -> P <= MaxSize (Opts (File fe)))
    as Hcirc' by (intros Hc; specialize (Hcirc Hc); lia).
  induction n as [|n IH]; intros offset data e Hfe Hoff Hend Hn;
    (destruct (decide (data = [])) as [->|Hne];
     [exists e; split; [done|]; split; [done|]; split; [done|]; split;
      [intros p b Hp; simpl in Hp; lia
      |intros i d o b _ Hd Hfl Hb _; by exists d]|]).
  { destruct data; [done|simpl in Hn; lia]. }
  set (pi := partContaining P (File fe) offset).
  assert (partIdxAtOffset P (File fe) offset = Ret pi) as Hpi.
  { apply partIdxAtOffset_nonneg; [lia| |done].
    pose proof (Nat2Z.is_nonneg (length data)). lia. }
  assert (0 <= pi) as Hpi0 by (by apply partContaining_nonneg; [lia|..]).
  pose proof (writeAtLoop_round P n offset data e fe pi HP Hfe Hoff Hend Hne
                Hpi Hpi0) as Hround.
  cbv zeta in Hround.
  set (des := grownTo (DataEntries e) pi) in *.
  set (dce := default (makeDataCacheEntry pi) (partAt des pi)) in *.
  set (po := offset `mod` P) in *.
  set (nw := Z.min (Z.of_nat (length data)) (P - po)) in *.
  set (old := if Flushing dce then [] else Data dce) in *.
  set (d1 := {| Dirty := true; Flushing := false; PartIdx := PartIdx dce;
                Data := take (Z.to_nat po)
                          (old ++ replicate (Z.to_nat po) x00)
                        ++ take (Z.to_nat nw) data
                        ++ drop (Z.to_nat (po + nw)) old |}) in *.
  set (e1 := setDataEntries e (<[Z.to_nat pi := Some d1]> des)) in *.
  pose proof (Z.mod_pos_bound offset P ltac:(lia)) as Hpo. fold po in Hpo.
  pose proof (Z.div_mod offset P ltac:(lia)) as Hdm. fold po in Hdm.
  assert (0 < Z.of_nat (length data)) as Hpos.
  { destruct data; [done|simpl; lia]. }
  assert (0 < nw <= Z.of_nat (length data) /\ po + nw <= P) as Hnw
    by (subst nw; lia).
  assert (Z.to_nat pi < length des)%nat as Hlt.
  { subst des. unfold grownTo. rewrite length_app, length_replicate. lia. }
  assert (DataEntries e1 !! Z.to_nat pi = Some (Some d1)) as He1pi.
  { subst e1. simpl. by apply list_lookup_insert_eq. }
  assert (Z.to_nat (po + nw) = (Z.to_nat po + Z.to_nat nw)%nat) as Hsum
    by lia.
  destruct (IH (offset + nw) (drop (Z.to_nat nw) data) e1)
    as (e' & Hrun & Hfe' & Hdel' & HW & HF).
  { done. }
  { lia. }
  { rewrite length_drop. lia. }
  { rewrite length_drop. lia. }
  assert (offset + nw + Z.of_nat (length (drop (Z.to_nat nw) data))
          = offset + Z.of_nat (length data)) as Hsame.
  { rewrite length_drop. lia. }
  rewrite Hsame in HW, HF.
  (* positions of the first round *)
  assert (forall p, offset <= p < offset + nw ->
                    partContaining P (File fe) p = pi /\
                    p `mod` P = po + (p - offset)) as Hfirst.
  { intros p Hp.
    assert (p `div` P = offset `div` P /\ p `mod` P = po + (p - offset))
      as [Hq Hr].
    { assert (p = P * (offset `div` P) + (po + (p - offset))) as Heq by lia.
      split.
      - symmetry. apply (Z.div_unique_pos _ _ _ (po + (p - offset))); lia.
      - symmetry. apply (Z.mod_unique_pos _ _ (offset `div` P)); lia. }
    split; [|done]. subst pi. unfold partContaining. by rewrite Hq. }
  exists e'. split; [by rewrite Hround|]. split; [done|].
  split; [by rewrite Hdel'|]. split.
  - intros p b Hp Hwin Hb.
    destruct (Z.lt_ge_cases p (offset + nw)) as [Hin|Hafter].
    + destruct (Hfirst p ltac:(lia)) as [Hslot Hmod].
      rewrite Hslot.
      apply (HF pi d1 (Z.to_nat (p `mod` P)) b); [done|done|done| |].
      * rewrite Hmod. simpl Data.
        replace (Z.to_nat (po + (p - offset)))
          with (Z.to_nat po + Z.to_nat (p - offset))%nat by lia.
        rewrite Hsum, written_part_new by lia. done.
      * intros q Hq Hqslot Hqmod.
        apply (slots_distinct P (File fe) p q); [lia|done|lia| | |].
        -- intros Hc. specialize (Hwin Hc). lia.
        -- by rewrite Hslot.
        -- pose proof (Z.mod_pos_bound q P ltac:(lia)).
           pose proof (Z.mod_pos_bound p P ltac:(lia)). lia.
    + apply (HW p b); [lia|done|].
      rewrite lookup_drop. rewrite <- Hb. f_equal. lia.
  - intros i d o b Hi Hd Hfl Hb Hno.
    destruct (decide (i = pi)) as [->|Hne'].
    + assert (des = DataEntries e) as Hdes
        by (subst des; by eapply grownTo_present).
      assert (dce = d) as Hdce.
      { subst dce. unfold partAt. by rewrite Hdes, Hd. }
      assert (old = Data d) as Hold by (subst old; by rewrite Hdce, Hfl).
      apply (HF pi d1 o b); [done|done|done| |].
      * simpl Data. rewrite Hsum, Hold. apply written_part_old; [lia|done|].
        intros Ho.
        apply (Hno (offset + (Z.of_nat o - po))); [lia| |].
        -- by apply Hfirst; lia.
        -- destruct (Hfirst (offset + (Z.of_nat o - po)) ltac:(lia))
             as [_ ->]. lia.
      * intros q Hq. apply Hno. lia.
    + apply (HF i d o b); [done| |done|done|].
      * subst e1. simpl. rewrite list_lookup_insert_ne by lia.
        subst des. unfold grownTo. rewrite lookup_app_l; [done|].
        by eapply lookup_lt_Some.
      * intros q Hq. apply Hno. lia.
Qed.

(** The part map of a write into any file: the loop returns, and every part
    it names has an index that is not negative. *)
Lemma computePartMapLoop_keys (P : Z) (f : BlockFile) (start endv : Z) :
  0 < P ->
  (Circular (Opts f) = true -> P <= MaxSize (Opts f) <= Int64.max_int) ->
  endv + P <= Int64.max_int ->
  forall (n : nat) (t : Z) (m0 : gmap Z Z),
    0 <= t ->
    endv <= t + Z.of_nat n * P ->
    map_Forall (fun k _ => 0 <= k) m0 ->
    exists m,
      computePartMapLoop P n f start endv t m0 = Ret m /\
      map_Forall (fun k _ => 0 <= k) m.
Proof.
  intros HP Hcirc Hrange. unfold Int64.max_int in Hrange.
  induction n as [|n IH]; intros t m0 Ht Hfuel Hm0.
  - exists m0. split; [|done]. simpl.
    by destruct (Z.ltb_spec t endv); [lia|].
  - rewrite Nat2Z.inj_succ in Hfuel.
    cbn [computePartMapLoop].
    destruct (Z.ltb_spec t endv) as [Hlt|Hge]; [|by exists m0].
    rewrite partIdxAtOffset_nonneg
      by (done || (unfold Int64.max_int; lia)).
    cbn [mbind outcome_bind].
    rewrite (Int64Facts.add_id t P)
      by (unfold Int64.in_range, Int64.min_int, Int64.max_int; lia).
    apply IH; [lia|lia|].
    apply map_Forall_insert_2; [|done].
    apply partContaining_nonneg; [done|done|].
    intros Hc. specialize (Hcirc Hc). lia.
Qed.

Lemma computePartMap_keys (P : Z) (f : BlockFile) (fuel : nat)
    (start size : Z) :
  0 < P ->
  (Circular (Opts f) = true -> P <= MaxSize (Opts f) <= Int64.max_int) ->
  0 <= start -> 0 <= size ->
  start + size + P <= Int64.max_int ->
  (Z.to_nat (size `div` P + 2) <= fuel)%nat ->
  exists m,
    computePartMap P fuel f start size = Ret m /\
    map_Forall (fun k _ => 0 <= k) m.
Proof.
  intros HP Hcirc Hstart Hsize Hrange Hfuel. unfold Int64.max_int in Hrange.
  pose proof (Z.div_mod start P ltac:(lia)) as Hdm.
  pose proof (Z.mod_pos_bound start P HP) as Hmod.
  pose proof (Z.div_mod size P ltac:(lia)) as Hdm'.
  pose proof (Z.mod_pos_bound size P HP) as Hmod'.
  assert (0 <= size `div` P) by (by apply Z.div_pos).
  unfold computePartMap.
  rewrite Int64Facts.add_id
    by (unfold Int64.in_range, Int64.min_int, Int64.max_int; lia).
  rewrite go_mod_pos by lia. cbn [mbind outcome_bind].
  rewrite Int64Facts.sub_id
    by (unfold Int64.in_range, Int64.min_int, Int64.max_int; lia).
  assert (0 <= start `div` P) by (by apply Z.div_pos).
  apply computePartMapLoop_keys; [done|done|unfold Int64.max_int; lia|nia|
                                  |apply map_Forall_empty].
  assert (size `div` P + 2 <= Z.of_nat fuel) by lia. nia.
Qed.

Section CircularWrite.

Context {D : Type} `{!BackingStore D}.

(** [loadDataParts] on a store that answers: it returns no error, and the
    entry keeps its file buffer. *)
Lemma loadDataParts_loads blockId name (partIdxs : list Z) (w : World D)
    e fe :
  Cache (store w) !! (blockId, name) = Some e ->
  Deleted e = false ->
  FileEntry e = Some fe ->
  partsOnRequest blockId name (db w) ->
  Forall (fun k => 0 <= k) partIdxs ->
  exists w' e',
    loadDataParts blockId name partIdxs w = Ret (None, w') /\
    Cache (store w') !! (blockId, name) = Some e' /\
    Deleted e' = false /\
    FileEntry e' = Some fe /\
    db w' = db w /\ clock w' = clock w.
Proof.
  intros He Hdel Hfe Hdb Hkeys.
  assert (0 <= maxOfIntArr partIdxs /\
          Forall (fun k => k <= maxOfIntArr partIdxs) partIdxs)
    as [Hmax Hall].
  { destruct partIdxs as [|v arr]; simpl; [split; [lia|constructor]|].
    apply Forall_cons in Hkeys as [Hv Harr].
    destruct (maxOfIntArr_foldl arr v) as (_ & Hle & Hle').
    split; [lia|]. constructor; [lia|done]. }
  unfold loadDataParts, withLockExists. munfold.
  destruct (Hdb partIdxs) as [Herr Hdom].
  destruct (dbGetFileParts blockId name partIdxs (db w))
    as [partDataMap err] eqn:Hquery.
  simpl in Herr, Hdom. subst err.
  rewrite He, Hdel, Hfe. rewrite (ensurePart_grow _ e Hmax).
  cbn [snd].
  set (e1 := setDataEntries e (grownTo (DataEntries e) (maxOfIntArr partIdxs))).
  assert (Z.to_nat (maxOfIntArr partIdxs) < length (DataEntries e1))%nat
    as Hlen1.
  { subst e1. simpl. unfold grownTo. rewrite length_app, length_replicate.
    lia. }
  match goal with
  | |- context [map_fold ?F (Ret e1) partDataMap] =>
      assert (exists e2,
                 map_fold F (Ret e1) partDataMap = Ret e2 /\
                 Deleted e2 = false /\ FileEntry e2 = Some fe)
        as (e2 & -> & Hdel2 & Hfe2)
  end.
  { match goal with
    | |- exists e2, map_fold ?F _ _ = _ /\ _ =>
        assert (exists e2,
                   map_fold F (Ret e1) partDataMap = Ret e2 /\
                   (Deleted e2 = false /\ FileEntry e2 = Some fe) /\
                   length (DataEntries e2) = length (DataEntries e1))
          as (e2 & Heq & [Hdel2 Hfe2] & _); [|by exists e2]
    end.
    revert Hdom.
    apply (map_fold_weak_ind
             (fun r (m : gmap Z DataCacheEntry) =>
                (forall i, is_Some (m !! i) -> i ∈ partIdxs) ->
                exists e2,
                  r = Ret e2 /\
                  (Deleted e2 = false /\ FileEntry e2 = Some fe) /\
                  length (DataEntries e2) = length (DataEntries e1))).
    - intros _. exists e1. by repeat split.
    - intros i x m r Hnone IH Hdom.
      destruct IH as (e0 & -> & [Hdel0 Hfe0] & Hlen0).
      { intros j [y Hj]. apply Hdom. exists y.
        rewrite lookup_insert_ne; [done|]. intros ->. congruence. }
      assert (i ∈ partIdxs) as Hin
        by (apply Hdom; rewrite lookup_insert_eq; by eexists).
      assert (0 <= i <= maxOfIntArr partIdxs) as Hi.
      { rewrite Forall_forall in Hkeys, Hall.
        split; [by apply Hkeys|by apply Hall]. }
      destruct (lookup_lt_is_Some_2 (DataEntries e0) (Z.to_nat i)
                  ltac:(lia)) as [slot Hslot].
      rewrite (sliceIndex_lookup _ _ _ (proj1 Hi) Hslot).
      destruct slot as [d|]; eexists; (split; [reflexivity|]);
        simpl; rewrite ?length_insert; done. }
  simpl. eexists _, e2. split; [reflexivity|]. simpl.
  by rewrite lookup_insert_eq.
Qed.

(** [writeAtToCache] without [replace] on any entry that holds the file
    buffer. *)
Lemma writeAtToCache_window P now offset data e fe :
  0 < P <= Int64.max_int ->
  FileEntry e = Some fe ->
  (Circular (Opts (File fe)) = true ->
   P <= MaxSize (Opts (File fe)) <= Int64.max_int) ->
  0 <= offset ->
  offset + Z.of_nat (length data) <= Int64.max_int ->
  exists e' fe',
    writeAtToCache P now offset data false e = Ret e' /\
    FileEntry e' = Some fe' /\
    Deleted e' = Deleted e /\
    Size (File fe')
    = Z.max (Size (File fe)) (offset + Z.of_nat (length data)) /\
    ModTs (File fe') = now /\
    forall p b,
      offset <= p < offset + Z.of_nat (length data) ->
      (Circular (Opts (File fe)) = true ->
       offset + Z.of_nat (length data)
       - MaxSize (Opts (File fe)) `div` P * P <= p) ->
      data !! Z.to_nat (p - offset) = Some b ->
      cachedByte P (File fe) (DataEntries e') p = Some b.
Proof.
  intros HP Hfe Hcirc Hoff Hend.
  destruct (writeAtLoop_window P fe HP Hcirc (length data) offset data e
              Hfe Hoff Hend ltac:(lia))
    as (e1 & Hrun & Hfe1 & Hdel1 & HW & _).
  unfold writeAtToCache, Entry.writeAt. rewrite Hrun.
  cbn [mbind outcome_bind].
  unfold modifyFileData. rewrite Hfe1.
  rewrite (Int64Facts.add_id offset (Z.of_nat (length data)))
    by (unfold Int64.in_range, Int64.min_int, Int64.max_int in *; lia).
  assert (forall p b,
             offset <= p < offset + Z.of_nat (length data) ->
             (Circular (Opts (File fe)) = true ->
              offset + Z.of_nat (length data)
              - MaxSize (Opts (File fe)) `div` P * P <= p) ->
             data !! Z.to_nat (p - offset) = Some b ->
             cachedByte P (File fe) (DataEntries e1) p = Some b) as HW'.
  { intros p b Hp Hwin Hb.
    destruct (HW p b Hp Hwin Hb) as (d & Hd & _ & Hbyte).
    unfold cachedByte, partAt. rewrite Hd. exact Hbyte. }
  destruct (FileFlushing fe) eqn:Hfl; simpl; rewrite ?Hfl, orb_false_r;
    (destruct (Z.ltb_spec (Size (File fe))
                 (offset + Z.of_nat (length data)));
     eexists _, _; (split; [reflexivity|]);
     repeat split; simpl; try done; try lia).
Qed.

End CircularWrite.

Lemma cachedByte_opts (P : Z) (f g : BlockFile)
    (des : list (option DataCacheEntry)) (p : Z) :
  Opts f = Opts g -> cachedByte P f des p = cachedByte P g des p.
Proof. intros Hopts. unfold cachedByte, partContaining. by rewrite Hopts. Qed.

Section WriteAtWindow.

Context {D : Type} `{!BackingStore D}.

(** [WriteAt] from the computation of the part map on, on an entry that is
    pinned and holds the descriptor. *)
Lemma writeAtParts_window P fuel blockId name (f : BlockFile) offset data
    (w : World D) e fe :
  0 < P <= Int64.max_int ->
  Cache (store w) !! (blockId, name) = Some e ->
  Deleted e = false ->
  FileEntry e = Some fe ->
  sameFile (File fe) f ->
  (Circular (Opts f) = true -> P <= MaxSize (Opts f) <= Int64.max_int) ->
  0 <= offset ->
  offset + Z.of_nat (length data) + P <= Int64.max_int ->
  partsOnRequest blockId name (db w) ->
  (Z.to_nat (Z.of_nat (length data) `div` P + 2) <= fuel)%nat ->
  exists w' e' fe',
    writeAtParts P fuel blockId name f offset data w = Ret (None, w') /\
    db w' = db w /\ clock w' = clock w /\
    Cache (store w') !! (blockId, name) = Some e' /\
    Deleted e' = false /\
    FileEntry e' = Some fe' /\
    Size (File fe') = Z.max (Size f) (offset + Z.of_nat (length data)) /\
    ModTs (File fe') = clock w /\
    forall p b,
      offset <= p < offset + Z.of_nat (length data) ->
      (Circular (Opts f) = true ->
       offset + Z.of_nat (length data) - MaxSize (Opts f) `div` P * P <= p) ->
      data !! Z.to_nat (p - offset) = Some b ->
      cachedByte P f (DataEntries e') p = Some b.
Proof.
  intros HP He Hdel Hfe Hsame Hcirc Hoff Hrange Hdb Hfuel.
  destruct Hsame as (_ & _ & Hopts & _ & Hsz & _ & _).
  unfold Int64.max_int in Hrange.
  destruct (computePartMap_keys P f fuel offset (Z.of_nat (length data))
              ltac:(lia) Hcirc Hoff ltac:(lia)
              ltac:(unfold Int64.max_int; lia) Hfuel)
    as (partMap & HpartMap & Hkeys).
  set (intention := mkWriteIntention (Some partMap) false false).
  destruct (setWriteIntention_cached blockId name intention w e He)
    as (w3 & Hint & He3 & Hdb3 & Hclock3).
  set (e3 := setWriteIntentions e _) in He3.
  destruct (loadDataParts_loads blockId name (incompletePartsFromMap P partMap)
              w3 e3 fe He3 Hdel Hfe)
    as (w4 & e4 & Hparts & He4 & Hdel4 & Hfe4 & Hdb4 & Hclock4).
  { by rewrite Hdb3. }
  { apply Forall_forall. intros i Hi. unfold incompletePartsFromMap in Hi.
    apply list_elem_of_fmap in Hi as ([i' v] & -> & Hiv).
    apply list_elem_of_filter in Hiv as [_ Hiv].
    apply elem_of_map_to_list in Hiv. exact (Hkeys _ _ Hiv). }
  destruct (writeAtToCache_window P (clock w4) offset data e4 fe HP Hfe4)
    as (e5 & fe5 & Hwrite & Hfe5 & Hdel5 & Hsize5 & Hmod5 & Hbytes).
  { by rewrite Hopts. }
  { done. }
  { unfold Int64.max_int. lia. }
  destruct (lock_write P blockId name offset data false w4 e4 fe e5
              He4 Hdel4 Hfe4 Hwrite) as (w5 & Hlock & He5 & Hdb5 & Hclock5).
  destruct (clearWriteIntention_cached blockId name
              (NextIntentionId (store w)) w5 _ He5)
    as (w6 & Hclear & He6 & Hdb6 & Hclock6).
  eexists w6, _, fe5. split.
  { unfold writeAtParts.
    rewrite (M_bind_Ret _ _ w _ w (liftO_Ret _ _ w HpartMap)).
    rewrite (M_bind_Ret _ _ _ _ _ Hint).
    rewrite (M_bind_Ret _ _ w3 None w5).
    - by rewrite (M_bind_Ret _ _ _ _ _ Hclear).
    - rewrite (M_bind_Ret _ _ _ _ _ Hparts).
      by rewrite (M_bind_Ret _ _ _ _ _ Hlock). }
  split; [congruence|]. split; [congruence|]. split; [exact He6|].
  split; [simpl; congruence|]. split; [exact Hfe5|].
  split; [by rewrite Hsize5, Hsz|]. split; [congruence|].
  intros p b Hp Hwin Hb. simpl DataEntries.
  rewrite <- (cachedByte_opts P (File fe) f) by done.
  apply Hbytes; [done| |done]. by rewrite Hopts.
Qed.

(** C6. On a circular file with descriptor [f], let [start = Size f -
    MaxSize].  A [WriteAt] that ends before [start] returns success and
    leaves the size, the modification time, the cached parts and the backing
    store as they were.  A [WriteAt] that begins before [start] and reaches
    it is the [WriteAt] of the data without its first [start - offset] bytes
    at offset [start]: the bytes before [start] play no part in it.  When
    [MaxSize] is a positive multiple of the part size, the store answers the
    request for parts and the loop of the part map has fuel for its rounds,
    this [WriteAt] returns success and leaves the store as it was;
    afterwards the size is the larger of the old size and the end of the
    write, the modification time is the time of the call, and for every
    position [p] from [start] up to the end of the write the cache holds
    byte [p - offset] of the data, in the part of [p] at offset [p mod
    partDataSize] (for a write that is longer than [MaxSize]: for the last
    [MaxSize] positions, the earlier ones being written over). *)
Theorem WriteAt_circular_window P fuel blockId name offset data
    (w w0 : World D) f :
  Stat blockId name w = Ret ((Some f, None), w0) ->
  Circular (Opts f) = true ->
  0 <= MaxSize (Opts f) <= Int64.max_int ->
  0 <= offset <= Size f ->
  Size f <= Int64.max_int ->
  offset + Z.of_nat (length data) <= Int64.max_int ->
  (offset + Z.of_nat (length data) < Size f - MaxSize (Opts f) ->
   exists w' f',
     WriteAt P fuel blockId name offset data w = Ret (None, w') /\
     Stat blockId name w' = Ret ((Some f', None), w') /\
     Size f' = Size f /\ ModTs f' = ModTs f /\
     cachedData w' (blockId, name) = cachedData w (blockId, name) /\
     db w' = db w) /\
  (offset < Size f - MaxSize (Opts f) <= offset + Z.of_nat (length data) ->
   WriteAt P fuel blockId name offset data w
   = WriteAt P fuel blockId name (Size f - MaxSize (Opts f))
       (drop (Z.to_nat (Size f - MaxSize (Opts f) - offset)) data) w) /\
  (offset < Size f - MaxSize (Opts f) <= offset + Z.of_nat (length data) ->
   0 < P <= MaxSize (Opts f) ->
   MaxSize (Opts f) `mod` P = 0 ->
   offset + Z.of_nat (length data) + P <= Int64.max_int ->
   partsOnRequest blockId name (db w) ->
   (Z.to_nat (Z.of_nat (length data) `div` P + 2) <= fuel)%nat ->
   exists w' f',
     WriteAt P fuel blockId name offset data w = Ret (None, w') /\
     db w' = db w /\
     Stat blockId name w' = Ret ((Some f', None), w') /\
     Size f' = Z.max (Size f) (offset + Z.of_nat (length data)) /\
     ModTs f' = clock w /\
     forall p,
       Size f - MaxSize (Opts f) <= p < offset + Z.of_nat (length data) ->
       offset + Z.of_nat (length data) - MaxSize (Opts f) <= p ->
       cachedByte P f (cachedData w' (blockId, name)) p
       = data !! Z.to_nat (p - offset)).
Proof.
  intros HStat Hcirc Hmax Hoff Hsize Hend.
  destruct (pin_load _ _ _ _ _ HStat)
    as (w1 & w2 & e2 & fe2 & Hpin & Hload & He2 & Hdel & Hfe & Hsame & Hdata
        & Hdb & Hclock & _).
  destruct (unpin_spec _ _ _ _ He2) as (w3 & Hunpin & He3 & Hdb3 & _).
  unfold Int64.max_int in *.
  assert (Int64.sub (Size f) (MaxSize (Opts f)) = Size f - MaxSize (Opts f))
    as Hstart.
  { apply Int64Facts.sub_id.
    unfold Int64.in_range, Int64.min_int, Int64.max_int. lia. }
  assert (Int64.add offset (Z.of_nat (length data))
          = offset + Z.of_nat (length data)) as Hsum.
  { apply Int64Facts.add_id.
    unfold Int64.in_range, Int64.min_int, Int64.max_int. lia. }
  assert (offset < Size f - MaxSize (Opts f)
          <= offset + Z.of_nat (length data) ->
          writeAtPinned P fuel blockId name offset data w1
          = writeAtParts P fuel blockId name f (Size f - MaxSize (Opts f))
              (drop (Z.to_nat (Size f - MaxSize (Opts f) - offset)) data) w2)
    as HL.
  { intros [Hlt Hreach].
    set (start := Size f - MaxSize (Opts f)) in *.
    unfold writeAtPinned. rewrite (M_bind_Ret _ _ _ _ _ Hload).
    destruct (Z.ltb_spec offset 0); [lia|].
    destruct (Z.ltb_spec (Size f) offset); [lia|].
    rewrite Hcirc, Hstart, Hsum. fold start.
    destruct (Z.ltb_spec (offset + Z.of_nat (length data)) start); [lia|].
    destruct (Z.ltb_spec offset start); [|lia].
    rewrite Int64Facts.sub_id
      by (unfold Int64.in_range, Int64.min_int, Int64.max_int; lia).
    rewrite Int64Facts.add_id
      by (unfold Int64.in_range, Int64.min_int, Int64.max_int; lia).
    rewrite (M_bind_Ret _ _ w2 (drop (Z.to_nat (start - offset)) data) w2).
    - f_equal. lia.
    - apply liftO_Ret. apply sliceFrom_drop. lia. }
  split; [|split].
  - intros Hbefore.
    exists w3, (mkBlockFile (BlockId (File fe2)) (Name (File fe2))
                  (Opts (File fe2)) (CreatedTs (File fe2)) (Size (File fe2))
                  (ModTs (File fe2)) (copyMeta (Meta (File fe2)))).
    destruct Hsame as (_ & _ & _ & _ & Hsz & Hmod & _).
    split; [|split; [|repeat split]].
    + eapply WriteAt_pinned; [exact Hpin| |exact Hunpin].
      unfold writeAtPinned. rewrite (M_bind_Ret _ _ _ _ _ Hload).
      destruct (Z.ltb_spec offset 0); [lia|].
      destruct (Z.ltb_spec (Size f) offset); [lia|].
      rewrite Hcirc, Hstart, Hsum.
      by destruct (Z.ltb_spec (offset + Z.of_nat (length data))
                     (Size f - MaxSize (Opts f))); [|lia].
    + by apply (Stat_cached _ _ _ _ fe2 He3).
    + done.
    + done.
    + unfold cachedData at 1. by rewrite He3.
    + congruence.
  - intros [Hlt Hreach]. specialize (HL (conj Hlt Hreach)).
    set (start := Size f - MaxSize (Opts f)) in *.
    set (data' := drop (Z.to_nat (start - offset)) data) in *.
    assert (Z.of_nat (length data')
            = Z.of_nat (length data) - (start - offset)) as Hlen'.
    { unfold data'. rewrite length_drop. lia. }
    assert (writeAtPinned P fuel blockId name start data' w1
            = writeAtParts P fuel blockId name f start data' w2) as HR.
    { unfold writeAtPinned. rewrite (M_bind_Ret _ _ _ _ _ Hload).
      destruct (Z.ltb_spec start 0); [lia|].
      destruct (Z.ltb_spec (Size f) start); [lia|].
      rewrite Hcirc, Hstart. fold start.
      rewrite Int64Facts.add_id
        by (unfold Int64.in_range, Int64.min_int, Int64.max_int; lia).
      destruct (Z.ltb_spec (start + Z.of_nat (length data')) start); [lia|].
      by destruct (Z.ltb_spec start start); [lia|]. }
    unfold WriteAt.
    rewrite !(M_bind_Ret _ _ _ _ _ Hpin).
    unfold mbind at 1 3, M_bind. by rewrite HL, HR.
  - intros [Hlt Hreach] HP Hmult Hrange Hparts Hfuel.
    specialize (HL (conj Hlt Hreach)).
    set (start := Size f - MaxSize (Opts f)) in *.
    set (data' := drop (Z.to_nat (start - offset)) data) in *.
    assert (Z.of_nat (length data')
            = Z.of_nat (length data) - (start - offset)) as Hlen'.
    { unfold data'. rewrite length_drop. lia. }
    assert (MaxSize (Opts f) `div` P * P = MaxSize (Opts f)) as Hwhole.
    { pose proof (Z.div_mod (MaxSize (Opts f)) P ltac:(lia)). lia. }
    destruct (writeAtParts_window P fuel blockId name f start data' w2 e2 fe2)
      as (w5 & e5 & fe5 & Hrun & Hdb5 & Hclock5 & He5 & Hdel5 & Hfe5 & Hsize5
          & Hmod5 & Hbytes); try done.
    { unfold Int64.max_int. lia. }
    { intros _. unfold Int64.max_int. lia. }
    { lia. }
    { unfold Int64.max_int. lia. }
    { by rewrite Hdb. }
    { assert (Z.of_nat (length data') `div` P
              <= Z.of_nat (length data) `div` P)
        by (apply Z.div_le_mono; lia).
      lia. }
    destruct (unpin_spec _ _ _ _ He5) as (w6 & Hunpin6 & He6 & Hdb6 & _).
    exists w6, (mkBlockFile (BlockId (File fe5)) (Name (File fe5))
                  (Opts (File fe5)) (CreatedTs (File fe5)) (Size (File fe5))
                  (ModTs (File fe5)) (copyMeta (Meta (File fe5)))).
    split; [|split; [|split; [|split; [|split]]]].
    + eapply WriteAt_pinned; [exact Hpin| |exact Hunpin6].
      by rewrite HL.
    + congruence.
    + by apply (Stat_cached _ _ _ _ fe5 He6).
    + simpl. rewrite Hsize5. lia.
    + simpl. congruence.
    + intros p Hp Hwin. unfold cachedData. rewrite He6. simpl DataEntries.
      destruct (lookup_lt_is_Some_2 data (Z.to_nat (p - offset)) ltac:(lia))
        as [b Hb].
      rewrite Hb. apply Hbytes.
      * lia.
      * intros _. rewrite Hwhole. lia.
      * unfold data'. rewrite lookup_drop. rewrite <- Hb. f_equal. lia.
Qed.

End WriteAtWindow.

(** On the circular file of [storedWorld] (size 100, [MaxSize] 32, so the
    window starts at 68), with parts of sixteen bytes: four bytes at offset
    0 are dropped; four bytes at offset 66 are written as two bytes at
    offset 68, which the cache then holds at positions 68 and 69; the size
    stays 100. *)
Lemma WriteAt_circular_window_witness :
  (exists w' f',
     WriteAt 16 8 "b" "c" 0 (bytesA 4) storedWorld = Ret (None, w') /\
     Stat "b" "c" w' = Ret ((Some f', None), w') /\
     Size f' = 100 /\ ModTs f' = 0 /\
     cachedData w' ("b", "c")%string = cachedData storedWorld ("b", "c")%string /\
     db w' = db storedWorld) /\
  WriteAt 16 8 "b" "c" 66 (bytesA 4) storedWorld
  = WriteAt 16 8 "b" "c" 68 (bytesA 2) storedWorld /\
  (exists w' f',
     WriteAt 16 8 "b" "c" 66 (bytesA 4) storedWorld = Ret (None, w') /\
     db w' = db storedWorld /\
     Stat "b" "c" w' = Ret ((Some f', None), w') /\
     Size f' = 100 /\
     ModTs f' = clock storedWorld /\
     cachedByte 16 (plainFile "b" "c" (mkFileOpts 32 true false) 100)
       (cachedData w' ("b", "c")%string) 68 = Some "A"%byte /\
     cachedByte 16 (plainFile "b" "c" (mkFileOpts 32 true false) 100)
       (cachedData w' ("b", "c")%string) 69 = Some "A"%byte).
Proof.
  split; [|split].
  - apply (WriteAt_circular_window 16 8 "b" "c" 0 (bytesA 4)
             storedWorld storedWorld
             (plainFile "b" "c" (mkFileOpts 32 true false) 100));
      try (vm_compute; reflexivity); simpl; unfold Int64.max_int; lia.
  - apply (WriteAt_circular_window 16 8 "b" "c" 66 (bytesA 4)
             storedWorld storedWorld
             (plainFile "b" "c" (mkFileOpts 32 true false) 100));
      try (vm_compute; reflexivity); simpl; unfold Int64.max_int; lia.
  - destruct (WriteAt_circular_window 16 8 "b" "c" 66 (bytesA 4)
                storedWorld storedWorld
                (plainFile "b" "c" (mkFileOpts 32 true false) 100))
      as (_ & _ & Hwritten);
      try (vm_compute; reflexivity);
      try (simpl; unfold Int64.max_int; lia).
    destruct Hwritten as (w' & f' & Hrun & Hdb & HStat & Hsize & Hmod & Hbytes).
    + simpl. lia.
    + simpl. lia.
    + reflexivity.
    + simpl. unfold Int64.max_int. lia.
    + apply MemDB_partsOnRequest.
    + apply Nat.leb_le. reflexivity.
    + exists w', f'. split; [exact Hrun|]. split; [exact Hdb|].
      split; [exact HStat|]. split; [exact Hsize|]. split; [exact Hmod|].
      split.
      * apply (Hbytes 68); simpl; lia.
      * apply (Hbytes 69); simpl; lia.
Defined.
